(** * Pawn board engine (index.js): heap model and verified properties

    The program keeps boards, pawn registries, grids, rows and pawn
    records as JavaScript objects that are shared by reference:
    [placePawn], [addPawn] and [removePawn] update a board in place,
    [movePawn] builds a copy.  The embedding therefore keeps an explicit
    store of objects; every function of index.js is a computation over
    that store which either returns or throws. *)

From Stdlib Require Import ZArith Lia Ascii String.
From stdpp Require Import base option list gmap strings pretty.

Local Open Scope string_scope.
Local Open Scope Z_scope.
Local Open Scope list_scope.

(** ** Data model *)

(** A reference to an object of the store. *)
Abbreviation loc := nat.

(** What an array slot or registry slot yields when it is read:
    [undefined] (nothing stored there), [null] (an empty cell), or a
    pawn id. *)
Inductive value :=
| VUndefined
| VNull
| VStr (s : string).

Record Position := mkPosition { row : Z; col : Z }.

(** A pawn record [{ id, color, position, hasMoved }].  The nested
    position object is only ever read by the program, so it is kept by
    value. *)
Record Pawn := mkPawn {
  id : string;
  color : string;
  position : Position;
  hasMoved : bool
}.

(** A board object [{ width, height, pawns, grid }]; [pawns] and [grid]
    are references to the registry object and to the array of rows. *)
Record Board := mkBoard {
  width : Z;
  height : Z;
  pawns : loc;
  grid : loc
}.

(** A registry is the plain object [board.pawns] used as a map from
    ids to pawn records.  Its own properties are the entries.  Behind
    them lies its prototype: [Object.prototype] ([proto = None]), as for
    every object written [{}], or the object that an assignment to the
    property [__proto__] has put there ([proto = Some l]). *)
Record Registry := mkRegistry {
  own : gmap string loc;
  proto : option loc
}.

(** The objects of the store. *)
Inductive obj :=
| OPawn (p : Pawn)
| ORegistry (r : Registry)          (* id -> reference to a pawn record *)
| ORow (cells : list value)         (* one row of the grid *)
| OGrid (rows : list loc)           (* the array of row references *)
| OBoard (b : Board).

Abbreviation heap := (list obj).

#[global] Instance value_eq_dec : EqDecision value.
Proof. solve_decision. Defined.
#[global] Instance Position_eq_dec : EqDecision Position.
Proof. solve_decision. Defined.
#[global] Instance Pawn_eq_dec : EqDecision Pawn.
Proof. solve_decision. Defined.
#[global] Instance Board_eq_dec : EqDecision Board.
Proof. solve_decision. Defined.
#[global] Instance Registry_eq_dec : EqDecision Registry.
Proof. solve_decision. Defined.

(** ** Exceptions

    index.js throws plain [Error]s that differ by message; one
    constructor per [throw] statement, plus the two errors the language
    itself raises. *)
Inductive exn :=
| InvalidPosition                         (* placePawn: "Invalid position to place pawn" *)
| PositionOccupied (r c : Z)              (* placePawn: "Position is already occupied at r, c" *)
| PawnNotFound (pawnId : string)          (* movePawn: "Pawn not found: " + pawnId *)
| IllegalMove (pawnId : string) (r c : Z) (* movePawn: "Illegal move for pawn ..." *)
| AddOutOfBounds                          (* addPawn: "Cannot add pawn out of bounds" *)
| SquareOccupied (r c : Z)                (* addPawn: "Square already occupied at (r, c)" *)
| TypeError                               (* a property read on undefined *)
| RangeError.                             (* new Array(n) with an invalid length *)

(** The error kinds of the specification. *)
Definition is_OutOfBounds (e : exn) : bool :=
  match e with InvalidPosition | AddOutOfBounds => true | _ => false end.
Definition is_OccupiedSquare (e : exn) : bool :=
  match e with PositionOccupied _ _ | SquareOccupied _ _ => true | _ => false end.

(** ** The store monad: a computation runs on a heap and either returns
    or throws; the heap it leaves behind is kept in both cases. *)
Inductive outcome (A : Type) :=
| Ok (a : A)
| Throw (e : exn).
Arguments Ok {A} a.
Arguments Throw {A} e.

Definition M (A : Type) : Type := heap → outcome A * heap.

#[global] Instance M_ret : MRet M := λ A a h, (Ok a, h).
#[global] Instance M_bind : MBind M := λ A B k m h,
  match m h with
  | (Ok a, h') => k a h'
  | (Throw e, h') => (Throw e, h')
  end.

Definition throw {A} (e : exn) : M A := λ h, (Throw e, h).

(** [new]: the fresh object gets the next unused reference. *)
Definition alloc (o : obj) : M loc := λ h, (Ok (length h), h ++ [o]).

Definition deref (l : loc) : M obj := λ h,
  match h !! l with
  | Some o => (Ok o, h)
  | None => (Throw TypeError, h)
  end.

(** Overwriting the object behind a reference; the program only does
    this to an object it has just read. *)
Definition store (l : loc) (o : obj) : M unit := λ h, (Ok tt, <[l := o]> h).

(** Reading an object as a pawn record, a registry, a row, a grid or a
    board.  The store is typed by what the program puts into it; a
    reference that leads nowhere, or to an object of another kind,
    ends the computation with [TypeError].  On the boards the theorems
    speak about (see [view]) this does not happen. *)
Definition get_pawn (l : loc) : M Pawn :=
  o ← deref l; match o with OPawn p => mret p | _ => throw TypeError end.
Definition get_registry (l : loc) : M Registry :=
  o ← deref l; match o with ORegistry r => mret r | _ => throw TypeError end.
Definition get_row (l : loc) : M (list value) :=
  o ← deref l; match o with ORow cs => mret cs | _ => throw TypeError end.
Definition get_grid (l : loc) : M (list loc) :=
  o ← deref l; match o with OGrid rs => mret rs | _ => throw TypeError end.
Definition get_board (l : loc) : M Board :=
  o ← deref l; match o with OBoard b => mret b | _ => throw TypeError end.

(** ** JavaScript arrays and truthiness *)

(** [a[i]] for an integer [i]: [None] stands for [undefined]. *)
Definition arr_get {A} (a : list A) (i : Z) : option A :=
  if i <? 0 then None else a !! Z.to_nat i.

(** [a[i] = v]: inside the array the slot is overwritten; past the end
    the array grows and the slots in between read [undefined]; a
    negative [i] names a property that is not an element (every read of
    a row in index.js is guarded by [col >= 0], and [slice] drops it). *)
Definition arr_set (a : list value) (i : Z) (v : value) : list value :=
  if i <? 0 then a
  else if (Z.to_nat i <? length a)%nat then <[Z.to_nat i := v]> a
  else a ++ replicate (Z.to_nat i - length a)%nat VUndefined ++ [v].

Definition read_slot (a : list value) (i : Z) : value :=
  default VUndefined (arr_get a i).

(** [x === null] *)
Definition is_null (v : value) : bool :=
  match v with VNull => true | _ => false end.

(** [!x] is false exactly for a non-empty string here: [undefined],
    [null] and the empty string are falsy. *)
Definition truthy (v : value) : option string :=
  match v with
  | VStr (String a s) => Some (String a s)
  | _ => None
  end.

(** ** Property accesses on a board *)

(** [board.grid[r][c]] *)
Definition grid_get (board : loc) (r c : Z) : M value :=
  b ← get_board board;
  rows ← get_grid (grid b);
  match arr_get rows r with
  | None => throw TypeError
  | Some rl => cells ← get_row rl; mret (read_slot cells c)
  end.

(** [board.grid[r][c] = v] *)
Definition grid_set (board : loc) (r c : Z) (v : value) : M unit :=
  b ← get_board board;
  rows ← get_grid (grid b);
  match arr_get rows r with
  | None => throw TypeError
  | Some rl => cells ← get_row rl; store rl (ORow (arr_set cells c v))
  end.

(** What the property read [board.pawns[k]] can answer: [undefined]
    when no object of the prototype chain has the property; a pawn
    record; or something else that was found on the prototype chain,
    of which the program only ever tests the truthiness and reads the
    properties [color] and [position], both [undefined] on all of
    these: a method of [Object.prototype], [Object.prototype] itself,
    or a field of the record that has been made the prototype (a
    string, a boolean, a position object). *)
Inductive member (A : Type) :=
| Absent
| Entry (a : A)
| Inherited (truthy : bool).
Arguments Absent {A}.
Arguments Entry {A} a.
Arguments Inherited {A} truthy.

(** The properties every object inherits from [Object.prototype],
    apart from the accessor [__proto__]; all of them are functions. *)
Definition object_prototype_keys : list string :=
  ["constructor"; "hasOwnProperty"; "isPrototypeOf"; "propertyIsEnumerable";
   "toLocaleString"; "toString"; "valueOf";
   "__defineGetter__"; "__defineSetter__";
   "__lookupGetter__"; "__lookupSetter__"].

Definition nonempty (s : string) : bool :=
  match s with EmptyString => false | String _ _ => true end.

(** [Object.prototype[k]] for [k] other than [__proto__]. *)
Definition from_Object_prototype {A} (k : string) : member A :=
  if bool_decide (k ∈ object_prototype_keys) then Inherited true else Absent.

(** [q[k]] for a pawn record [q] and [k] other than [__proto__]: one of
    its four fields, or what it inherits from [Object.prototype]. *)
Definition from_record {A} (q : Pawn) (k : string) : member A :=
  if String.eqb k "id" then Inherited (nonempty (id q))
  else if String.eqb k "color" then Inherited (nonempty (color q))
  else if String.eqb k "position" then Inherited true
  else if String.eqb k "hasMoved" then Inherited (hasMoved q)
  else from_Object_prototype k.

(** [board.pawns[k]]: an own property wins; otherwise the property is
    looked for along the prototype chain, where [__proto__] is the
    accessor that answers the prototype itself. *)
Definition pawns_get (board : loc) (k : string) : M (member loc) :=
  b ← get_board board;
  reg ← get_registry (pawns b);
  match own reg !! k with
  | Some l => mret (Entry l)
  | None =>
      match proto reg with
      | None =>
          mret (if String.eqb k "__proto__" then Inherited true
                else from_Object_prototype k)
      | Some l =>
          if String.eqb k "__proto__" then mret (Entry l)
          else q ← get_pawn l; mret (from_record q k)
      end
  end.

(** [registry[k] = pawn] on the registry [reg]: an ordinary assignment
    creates or overwrites the own property [k]; an assignment to
    [__proto__], unless the registry has an own property of that name,
    runs the inherited setter, which makes [pawn] the prototype and
    creates no property. *)
Definition reg_set (k : string) (pawn : loc) (reg : Registry) : Registry :=
  if String.eqb k "__proto__" && bool_decide (own reg !! k = None)
  then {| own := own reg; proto := Some pawn |}
  else {| own := <[k := pawn]> (own reg); proto := proto reg |}.

(** [delete registry[k]]: removes an own property and nothing else. *)
Definition reg_delete (k : string) (reg : Registry) : Registry :=
  {| own := delete k (own reg); proto := proto reg |}.

(** [Object.assign({}, registry)]: every own property is assigned to a
    new object whose prototype is [Object.prototype]; an own property
    [__proto__] of the source therefore ends as the prototype of the
    copy. *)
Definition reg_assign (reg : Registry) : Registry :=
  {| own := delete "__proto__" (own reg); proto := own reg !! "__proto__" |}.

(** [board.pawns[k] = pawn] *)
Definition pawns_set (board : loc) (k : string) (pawn : loc) : M unit :=
  b ← get_board board;
  reg ← get_registry (pawns b);
  store (pawns b) (ORegistry (reg_set k pawn reg)).

(** [delete board.pawns[k]] *)
Definition pawns_delete (board : loc) (k : string) : M unit :=
  b ← get_board board;
  reg ← get_registry (pawns b);
  store (pawns b) (ORegistry (reg_delete k reg)).

(** A [for] loop over the elements of an array literal, threading the
    value that the body updates. *)
Fixpoint for_each {A S} (body : S → A → M S) (l : list A) (s : S) : M S :=
  match l with
  | [] => mret s
  | x :: l' => s' ← body s x; for_each body l' s'
  end.

(** ** The functions of index.js *)

(** [createEmptyGrid(width, height)]: the array is created first and a
    fresh row is pushed for every [i < height]. *)
Definition new_row (width : Z) : M loc :=
  if (width <? 0) || (2 ^ 32 <=? width) then throw RangeError
  else alloc (ORow (replicate (Z.to_nat width) VNull)).

Definition grid_push (g row : loc) : M unit :=
  rows ← get_grid g; store g (OGrid (rows ++ [row])).

Fixpoint push_rows (n : nat) (g : loc) (width : Z) : M unit :=
  match n with
  | O => mret tt
  | S n' => row ← new_row width; _ ← grid_push g row; push_rows n' g width
  end.

Definition createEmptyGrid (width height : Z) : M loc :=
  g ← alloc (OGrid []);
  _ ← push_rows (Z.to_nat height) g width;
  mret g.

Definition createEmptyBoard (width height : Z) : M loc :=
  reg ← alloc (ORegistry {| own := ∅; proto := None |});
  g ← createEmptyGrid width height;
  alloc (OBoard {| width := width; height := height; pawns := reg; grid := g |}).

Definition placePawn (board pawn : loc) : M unit :=
  p ← get_pawn pawn;
  let row := row (position p) in
  let col := col (position p) in
  b ← get_board board;
  if (row <? 0) || (row >=? height b) || (col <? 0) || (col >=? width b)
  then throw InvalidPosition
  else
    v ← grid_get board row col;
    if negb (is_null v) then throw (PositionOccupied row col)
    else
      _ ← pawns_set board (id p) pawn;
      grid_set board row col (VStr (id p)).

(** ["W" + id]: the counter printed in decimal after the prefix. *)
Definition pawn_name (prefix : string) (n : Z) : string :=
  (prefix ++ pretty n)%string.

(** The loop of [createInitialBoard], which index.js writes out once
    per colour: for every column [i] a pawn on row [r0] and one on row
    [r1]; [n] iterations are left and the id counter is handed on. *)
Fixpoint place_two_rows (n : nat) (board : loc) (prefix color : string)
    (r0 r1 : Z) (i : Z) (id : Z) : M Z :=
  match n with
  | O => mret id
  | S n' =>
      pawn ← alloc (OPawn {| id := pawn_name prefix id; color := color;
                             position := {| row := r0; col := i |};
                             hasMoved := false |});
      _ ← placePawn board pawn;
      let id := id + 1 in
      pawn ← alloc (OPawn {| id := pawn_name prefix id; color := color;
                             position := {| row := r1; col := i |};
                             hasMoved := false |});
      _ ← placePawn board pawn;
      let id := id + 1 in
      place_two_rows n' board prefix color r0 r1 (i + 1) id
  end.

Definition createInitialBoard : M loc :=
  board ← createEmptyBoard 8 8;
  let id := 1 in
  id ← place_two_rows 8 board "W" "white" 0 1 0 id;
  id ← place_two_rows 8 board "B" "black" 6 7 0 id;
  mret board.

Definition isValidPosition (board : loc) (row col : Z) : M bool :=
  b ← get_board board;
  mret ((row >=? 0) && (row <? height b) && (col >=? 0) && (col <? width b)).

(** The body of the capture loop for one column [c]. *)
Definition try_capture (p : Pawn) (board : loc) (forwardRow c : Z)
    (moves : list Position) : M (list Position) :=
  ok ← isValidPosition board forwardRow c;
  if negb ok then mret moves
  else
    targetId ← grid_get board forwardRow c;
    match truthy targetId with
    | None => mret moves
    | Some targetId =>
        targetPawn ← pawns_get board targetId;
        match targetPawn with
        | Absent | Inherited false => mret moves
        | Entry targetPawn =>
            q ← get_pawn targetPawn;
            if negb (String.eqb (color q) (color p))
            then mret (moves ++ [{| row := forwardRow; col := c |}])
            else mret moves
        | Inherited true =>
            (* [targetPawn.color] is [undefined], which differs from
               the colour of [pawn] *)
            mret (moves ++ [{| row := forwardRow; col := c |}])
        end
    end.

(** [isValidPosition(board, r, c) && board.grid[r][c] === null] *)
Definition valid_and_empty (board : loc) (r c : Z) : M bool :=
  ok ← isValidPosition board r c;
  if (ok : bool) then v ← grid_get board r c; mret (is_null v) else mret false.

Definition getPawnAllowedMoves (pawn board : loc) : M (list Position) :=
  p ← get_pawn pawn;
  let moves : list Position := [] in
  let row := row (position p) in
  let col := col (position p) in
  let direction := if String.eqb (color p) "white" then 1 else -1 in
  let forwardRow := row + direction in
  one ← valid_and_empty board forwardRow col;
  moves ←
    (if (one : bool) then
       let moves := moves ++ [{| row := forwardRow; col := col |}] in
       let twoForwardRow := row + 2 * direction in
       if negb (hasMoved p) then
         two ← valid_and_empty board twoForwardRow col;
         if (two : bool) then mret (moves ++ [{| row := twoForwardRow; col := col |}])
         else mret moves
       else mret moves
     else mret moves);
  let captureCols := [col - 1; col + 1] in
  for_each (λ moves c, try_capture p board forwardRow c moves) captureCols moves.

(** [legalMoves.some(position => position.row === target.row &&
    position.col === target.col)] *)
Definition some_equal (legalMoves : list Position) (target : Position) : bool :=
  existsb (λ position,
    (row position =? row target) && (col position =? col target)) legalMoves.

(** The "Clone board" block of [movePawn]: a new registry object with
    the own entries of the old one ([Object.assign]), a new array
    holding a [slice] of every row, and a new board object around them.
    The order in which the four kinds of object are created cannot be
    observed. *)
Definition clone_board (board : loc) : M loc :=
  b ← get_board board;
  reg ← get_registry (pawns b);
  newPawns ← alloc (ORegistry (reg_assign reg));
  rows ← get_grid (grid b);
  newRows ← mapM (λ row, cells ← get_row row; alloc (ORow cells)) rows;
  newGrid ← alloc (OGrid newRows);
  alloc (OBoard {| width := width b; height := height b;
                   pawns := newPawns; grid := newGrid |}).

(** Returns the pair [{ board: newBoard, pawn: updatedPawn }]. *)
Definition movePawn (board : loc) (pawnId : string) (target : Position)
    : M (loc * loc) :=
  pawn ← pawns_get board pawnId;
  match pawn with
  | Absent | Inherited false => throw (PawnNotFound pawnId)
  | Inherited true =>
      (* [pawn.position] is [undefined]: the first statement of
         [getPawnAllowedMoves] fails *)
      throw TypeError
  | Entry pawn =>
      legalMoves ← getPawnAllowedMoves pawn board;
      let isLegal := some_equal legalMoves target in
      if negb isLegal then throw (IllegalMove pawnId (row target) (col target))
      else
        newBoard ← clone_board board;
        p ← get_pawn pawn;
        let oldRow := row (position p) in
        let oldCol := col (position p) in
        _ ← grid_set newBoard oldRow oldCol VNull;
        targetId ← grid_get newBoard (row target) (col target);
        _ ← match truthy targetId with
            | Some targetId => pawns_delete newBoard targetId
            | None => mret tt
            end;
        updatedPawn ← alloc (OPawn {| id := id p; color := color p;
                                      position := {| row := row target;
                                                     col := col target |};
                                      hasMoved := true |});
        _ ← pawns_set newBoard (id p) updatedPawn;
        _ ← grid_set newBoard (row target) (col target) (VStr (id p));
        mret (newBoard, updatedPawn)
  end.

(** [color[0].toUpperCase()] for a colour whose first byte is [c0].
    Strings are kept as their UTF-8 bytes.  When [c0] is an ASCII
    character, [color[0]] is that character, and its upper-case form is
    the letter A to Z for a letter a to z and the character itself
    otherwise.  When [c0] is not an ASCII character, the colour starts
    with a character outside ASCII, [color[0]] is its first UTF-16 code
    unit and the answer is given by the case mapping of Unicode; [up]
    stands for that answer. *)
Definition toUpperCase (up : string) (c0 : ascii) : string :=
  let n := nat_of_ascii c0 in
  if (n <? 128)%nat
  then String (if (97 <=? n)%nat && (n <=? 122)%nat
               then ascii_of_nat (n - 32) else c0) EmptyString
  else up.

(** [color[0].toUpperCase() + "_" + Date.now() + "_" +
    Math.random().toString(16).slice(2)], for the first byte [c0] of
    the colour. *)
Definition new_id (up : string) (c0 : ascii) (now : Z) (rnd : string) : string :=
  (toUpperCase up c0 ++ "_" ++ pretty now ++ "_" ++ rnd)%string.

(** [addPawn(board, color, row, col)].  [now] and [rnd] stand for what
    [Date.now()] and [Math.random().toString(16).slice(2)] answer during
    the call, and [up] for what [color[0].toUpperCase()] answers when
    the colour does not start with an ASCII character. *)
Definition addPawn (now : Z) (rnd : string) (up : string) (board : loc)
    (color : string) (row col : Z) : M loc :=
  ok ← isValidPosition board row col;
  if negb ok then throw AddOutOfBounds
  else
    v ← grid_get board row col;
    if negb (is_null v) then throw (SquareOccupied row col)
    else
      match color with
      | EmptyString => throw TypeError
      | String c0 _ =>
          let id := new_id up c0 now rnd in
          pawn ← alloc (OPawn {| id := id; color := color;
                                 position := {| row := row; col := col |};
                                 hasMoved := false |});
          _ ← placePawn board pawn;
          mret pawn
      end.

Definition removePawn (board : loc) (pawnId : string) : M unit :=
  pawn ← pawns_get board pawnId;
  match pawn with
  | Absent | Inherited false => mret tt
  | Inherited true =>
      (* [pawn.position] is [undefined] *)
      throw TypeError
  | Entry pawn =>
      p ← get_pawn pawn;
      let row := row (position p) in
      let col := col (position p) in
      _ ← grid_set board row col VNull;
      pawns_delete board pawnId
  end.

(** *** printBoard and the console

    [printBoard] reads the board and writes lines to the console.  A
    computation that may also write to the console runs on the store
    and on the list of lines written so far (oldest first); both are
    kept when it throws. *)
Definition Con (A : Type) : Type :=
  heap * list string → outcome A * (heap * list string).

#[global] Instance Con_ret : MRet Con := λ A a s, (Ok a, s).
#[global] Instance Con_bind : MBind Con := λ A B k m s,
  match m s with
  | (Ok a, s') => k a s'
  | (Throw e, s') => (Throw e, s')
  end.

(** A computation on the store alone, run where the console is at hand. *)
Definition lift {A} (m : M A) : Con A := λ s,
  match m s.1 with (r, h') => (r, (h', s.2)) end.

(** [console.log(line)] *)
Definition console_log (line : string) : Con unit := λ s,
  (Ok tt, (s.1, s.2 ++ [line])).

(** The inner loop of [printBoard], [for (col = 0; col < board.width;
    col++)], with [n] iterations left: ". " for a falsy cell, "W " for
    a white pawn and "B " for any other, appended to [line].  When
    [board.pawns[id]] is [undefined], [pawn.color] is a property read on
    [undefined]; on anything else that is no pawn record it is
    [undefined], which is not "white". *)
Fixpoint print_cells (n : nat) (board : loc) (row col : Z) (line : string)
    : M string :=
  match n with
  | O => mret line
  | S n' =>
      id ← grid_get board row col;
      line ← match truthy id with
              | None => mret (line ++ ". ")%string
              | Some id =>
                  pawn ← pawns_get board id;
                  match pawn with
                  | Absent => throw TypeError
                  | Entry pawn =>
                      q ← get_pawn pawn;
                      mret (line ++ if String.eqb (color q) "white"
                                    then "W " else "B ")%string
                  | Inherited _ => mret (line ++ "B ")%string
                  end
              end;
      print_cells n' board row (col + 1) line
  end.

(** The outer loop, [for (row = board.height - 1; row >= 0; row--)],
    with [n] iterations left. *)
Fixpoint print_rows (n : nat) (board : loc) (row : Z) : Con unit :=
  match n with
  | O => mret tt
  | S n' =>
      b ← lift (get_board board);
      line ← lift (print_cells (Z.to_nat (width b)) board row 0 EmptyString);
      _ ← console_log (pretty row ++ " - " ++ line)%string;
      print_rows n' board (row - 1)
  end.

Definition printBoard (board : loc) : Con unit :=
  _ ← console_log "Board - top row to bottom raw:";
  b ← lift (get_board board);
  _ ← print_rows (Z.to_nat (height b)) board (height b - 1);
  console_log "    0 1 2 3 4 5 6 7 (cols)".

(** ** What a board looks like from outside

    Following the references of a board object gives its dimensions,
    the own entries of its registry (id -> pawn record), the record
    that is the prototype of the registry (if an assignment to
    [__proto__] has replaced [Object.prototype]) and the contents of
    its grid.  A board is well formed in the store when every reference
    leads to an object of the right kind, no two rows of the grid are
    the same array, the registry has no own property [__proto__] (no
    assignment creates one), and the prototype of the registry, if it
    is a record, has its position on the board (as every record that
    [placePawn] or [movePawn] has put there). *)

Record BoardView := mkView {
  v_width : Z;
  v_height : Z;
  v_pawns : gmap string Pawn;
  v_proto : option Pawn;
  v_grid : list (list value)
}.

Definition board_at (h : heap) (l : loc) : option Board :=
  match h !! l with Some (OBoard b) => Some b | _ => None end.
Definition registry_at (h : heap) (l : loc) : option (gmap string loc) :=
  match h !! l with Some (ORegistry r) => Some (own r) | _ => None end.
Definition proto_at (h : heap) (l : loc) : option (option loc) :=
  match h !! l with Some (ORegistry r) => Some (proto r) | _ => None end.
Definition grid_at (h : heap) (l : loc) : option (list loc) :=
  match h !! l with Some (OGrid rs) => Some rs | _ => None end.
Definition row_at (h : heap) (l : loc) : option (list value) :=
  match h !! l with Some (ORow cs) => Some cs | _ => None end.
Definition pawn_at (h : heap) (l : loc) : option Pawn :=
  match h !! l with Some (OPawn p) => Some p | _ => None end.

(** [0 <= row < height] and [0 <= col < width] for a board object. *)
Definition on_board (b : Board) (pos : Position) : bool :=
  (row pos >=? 0) && (row pos <? height b) &&
  (col pos >=? 0) && (col pos <? width b).

(** The prototype of the registry is [Object.prototype] or a pawn
    record whose position is on the board. *)
Definition proto_ok (h : heap) (b : Board) (pr : option loc) : bool :=
  match pr with
  | None => true
  | Some l =>
      match pawn_at h l with
      | Some q => on_board b (position q)
      | None => false
      end
  end.

Definition view (h : heap) (board : loc) : option BoardView :=
  b ← board_at h board;
  reg ← registry_at h (pawns b);
  pr ← proto_at h (pawns b);
  rows ← grid_at h (grid b);
  cells ← mapM (row_at h) rows;
  if decide (map_Forall (λ _ l, is_Some (pawn_at h l)) reg ∧ NoDup rows ∧
             reg !! "__proto__" = None ∧ proto_ok h b pr = true)
  then Some {| v_width := width b; v_height := height b;
               v_pawns := omap (pawn_at h) reg;
               v_proto := pr ≫= pawn_at h; v_grid := cells |}
  else None.

(** [pawns[k]] on a view, as [pawns_get] reads it from the store. *)
Definition v_get (v : BoardView) (k : string) : member Pawn :=
  match v_pawns v !! k with
  | Some p => Entry p
  | None =>
      match v_proto v with
      | None =>
          if String.eqb k "__proto__" then Inherited true
          else from_Object_prototype k
      | Some q =>
          if String.eqb k "__proto__" then Entry q else from_record q k
      end
  end.

(** [grid[r][c]] on a view; [undefined] outside the arrays. *)
Definition cell (v : BoardView) (pos : Position) : value :=
  match arr_get (v_grid v) (row pos) with
  | Some cells => read_slot cells (col pos)
  | None => VUndefined
  end.

(** Valid iff [0 <= row < height] and [0 <= col < width]. *)
Definition in_bounds (v : BoardView) (pos : Position) : bool :=
  (row pos >=? 0) && (row pos <? v_height v) &&
  (col pos >=? 0) && (col pos <? v_width v).

(** The grid has a row array for every row index below the height. *)
Definition rows_present (v : BoardView) : Prop :=
  v_height v ≤ Z.of_nat (length (v_grid v)).

#[global] Instance rows_present_dec v : Decision (rows_present v).
Proof. unfold rows_present. apply _. Defined.

(** ** The rule engine read off a view

    What [getPawnAllowedMoves] computes, as a function of the pawn
    record and of the board's contents. *)

Definition direction (p : Pawn) : Z :=
  if String.eqb (color p) "white" then 1 else -1.

Definition forwardRow (p : Pawn) : Z := row (position p) + direction p.
Definition twoForwardRow (p : Pawn) : Z := row (position p) + 2 * direction p.

Definition forward_one (p : Pawn) : Position :=
  {| row := forwardRow p; col := col (position p) |}.
Definition forward_two (p : Pawn) : Position :=
  {| row := twoForwardRow p; col := col (position p) |}.
Definition diagonal_left (p : Pawn) : Position :=
  {| row := forwardRow p; col := col (position p) - 1 |}.
Definition diagonal_right (p : Pawn) : Position :=
  {| row := forwardRow p; col := col (position p) + 1 |}.

(** The cell is on the board and holds [null]. *)
Definition forward_ok (v : BoardView) (pos : Position) : bool :=
  in_bounds v pos && is_null (cell v pos).

(** The cell is on the board, holds a truthy id, and [pawns[id]] is
    either a pawn record of another colour than [p], or something
    truthy that is no pawn record (whose [color] is [undefined]). *)
Definition capture_ok (v : BoardView) (p : Pawn) (pos : Position) : bool :=
  in_bounds v pos &&
  match truthy (cell v pos) with
  | Some targetId =>
      match v_get v targetId with
      | Entry q => negb (String.eqb (color q) (color p))
      | Inherited t => t
      | Absent => false
      end
  | None => false
  end.

Definition allowed_moves (v : BoardView) (p : Pawn) : list Position :=
  (if forward_ok v (forward_one p)
   then forward_one p ::
        (if negb (hasMoved p) && forward_ok v (forward_two p)
         then [forward_two p] else [])
   else []) ++
  (if capture_ok v p (diagonal_left p) then [diagonal_left p] else []) ++
  (if capture_ok v p (diagonal_right p) then [diagonal_right p] else []).

(** ** The rule engine as the specification words it (section 4.3)

    direction is +1 for the forward-increasing colour and -1 otherwise;
    the forward cell is added when it is in bounds and empty, and then
    the cell two steps forward under the same two conditions if the
    pawn has not moved; each diagonal cell is added when it is in
    bounds and occupied by a pawn of the opposite colour. *)

(** The cell holds an id, and the pawn registered under that id has
    another colour than [p]. *)
Definition occupied_by_opposite (v : BoardView) (p : Pawn) (pos : Position) : bool :=
  match cell v pos with
  | VStr X =>
      match v_pawns v !! X with
      | Some q => negb (String.eqb (color q) (color p))
      | None => false
      end
  | _ => false
  end.

Definition spec_moves (v : BoardView) (p : Pawn) : list Position :=
  let direction := if String.eqb (color p) "white" then 1 else -1 in
  let forward := {| row := row (position p) + direction;
                    col := col (position p) |} in
  let two := {| row := row (position p) + 2 * direction;
                col := col (position p) |} in
  let capture (c : Z) :=
    let pos := {| row := row (position p) + direction; col := c |} in
    if in_bounds v pos && occupied_by_opposite v p pos then [pos] else [] in
  (if in_bounds v forward && is_null (cell v forward)
   then forward ::
        (if negb (hasMoved p) && (in_bounds v two && is_null (cell v two))
         then [two] else [])
   else []) ++
  capture (col (position p) - 1) ++ capture (col (position p) + 1).

(** ** Updates of a view *)

(** [grid[row][col] = x]; nothing happens to the view when the row
    array is missing (the program throws there). *)
Definition set_cell (v : BoardView) (pos : Position) (x : value) : BoardView :=
  {| v_width := v_width v; v_height := v_height v; v_pawns := v_pawns v;
     v_proto := v_proto v;
     v_grid :=
       match arr_get (v_grid v) (row pos) with
       | Some cells => <[Z.to_nat (row pos) := arr_set cells (col pos) x]> (v_grid v)
       | None => v_grid v
       end |}.

Definition set_pawns (v : BoardView) (ps : gmap string Pawn) : BoardView :=
  {| v_width := v_width v; v_height := v_height v; v_pawns := ps;
     v_proto := v_proto v; v_grid := v_grid v |}.

Definition set_proto (v : BoardView) (pr : option Pawn) : BoardView :=
  {| v_width := v_width v; v_height := v_height v; v_pawns := v_pawns v;
     v_proto := pr; v_grid := v_grid v |}.

(** [pawns[p.id] = p] on a view without an own entry [__proto__]: the
    record becomes the entry of its id, or, for the id [__proto__], the
    prototype of the registry. *)
Definition register (v : BoardView) (p : Pawn) : BoardView :=
  if String.eqb (id p) "__proto__" then set_proto v (Some p)
  else set_pawns v (<[id p := p]> (v_pawns v)).

(** [placePawn]: the record is registered and its id goes into the
    cell of its position. *)
Definition place_view (v : BoardView) (p : Pawn) : BoardView :=
  set_cell (register v p) (position p) (VStr (id p)).

(** [removePawn] of the pawn [p] registered under [k]. *)
Definition remove_view (v : BoardView) (k : string) (p : Pawn) : BoardView :=
  set_pawns (set_cell v (position p) VNull) (delete k (v_pawns v)).

(** The record [movePawn] builds for the moved pawn. *)
Definition moved (p : Pawn) (target : Position) : Pawn :=
  {| id := id p; color := color p;
     position := {| row := row target; col := col target |};
     hasMoved := true |}.

(** [movePawn] on the copy, whose registry has the own entries of the
    input and [Object.prototype] behind them: clear the old square,
    drop the entry of the id the target cell holds (if that id is
    truthy), register the moved record and write its id into the
    target cell. *)
Definition move_view (v : BoardView) (p : Pawn) (target : Position) : BoardView :=
  let v1 := set_cell (set_proto v None) (position p) VNull in
  let ps := match truthy (cell v1 target) with
            | Some targetId => delete targetId (v_pawns v1)
            | None => v_pawns v1
            end in
  set_cell (register (set_pawns v1 ps) (moved p target)) target (VStr (id p)).

(** The view of a board that [createEmptyBoard] has just made. *)
Definition empty_view (width height : Z) : BoardView :=
  {| v_width := width; v_height := height; v_pawns := ∅; v_proto := None;
     v_grid := replicate (Z.to_nat height) (replicate (Z.to_nat width) VNull) |}.

(** [placePawn] as a partial function on views: defined when the
    position is on the board and its cell holds [null]. *)
Definition place_opt (v : BoardView) (p : Pawn) : option BoardView :=
  if in_bounds v (position p) && is_null (cell v (position p))
  then Some (place_view v p) else None.

(** The loop [place_two_rows] on views. *)
Fixpoint place_two_rows_view (n : nat) (v : BoardView) (prefix color : string)
    (r0 r1 : Z) (i : Z) (id : Z) : option (BoardView * Z) :=
  match n with
  | O => Some (v, id)
  | S n' =>
      v ← place_opt v {| id := pawn_name prefix id; color := color;
                         position := {| row := r0; col := i |};
                         hasMoved := false |};
      let id := id + 1 in
      v ← place_opt v {| id := pawn_name prefix id; color := color;
                         position := {| row := r1; col := i |};
                         hasMoved := false |};
      let id := id + 1 in
      place_two_rows_view n' v prefix color r0 r1 (i + 1) id
  end.

(** The board [createInitialBoard] sets up, as a view. *)
Definition initial_view : option BoardView :=
  '(v, id) ← place_two_rows_view 8 (empty_view 8 8) "W" "white" 0 1 0 1;
  '(v, id) ← place_two_rows_view 8 v "B" "black" 6 7 0 id;
  Some v.

(** ** The consistency invariant of the data model

    Every cell that holds an id [X] is the position of the pawn
    registered under [X]; every registered pawn has its own id in the
    cell of its position; no two registry entries share a position. *)
Definition consistent (v : BoardView) : Prop :=
  (∀ pos X, cell v pos = VStr X →
     ∃ P, v_pawns v !! X = Some P ∧ position P = pos) ∧
  (∀ k P, v_pawns v !! k = Some P → cell v (position P) = VStr (id P)) ∧
  (∀ k1 k2 P1 P2, v_pawns v !! k1 = Some P1 → v_pawns v !! k2 = Some P2 →
     position P1 = position P2 → k1 = k2).

(** The half of the invariant the move executor relies on: every
    registry entry is keyed by its pawn's id, and that id is in the
    cell of the pawn's position. *)
Definition standing (v : BoardView) : Prop :=
  ∀ k P, v_pawns v !! k = Some P → id P = k ∧ cell v (position P) = VStr k.

(** A checker for [consistent]: every cell that holds an id is the
    position of the pawn registered under it, and every registry entry
    is keyed by its pawn's id and finds that id in its cell. *)
Definition cells_of (v : BoardView) : list (Position * value) :=
  mjoin (imap (λ r cells,
           imap (λ c x, (mkPosition (Z.of_nat r) (Z.of_nat c), x)) cells)
         (v_grid v)).

Definition cell_ok (v : BoardView) (px : Position * value) : bool :=
  match px.2 with
  | VStr X =>
      match v_pawns v !! X with
      | Some P => bool_decide (position P = px.1)
      | None => false
      end
  | _ => true
  end.

Definition entry_ok (v : BoardView) (kp : string * Pawn) : bool :=
  bool_decide (cell v (position kp.2) = VStr (id kp.2)) &&
  bool_decide (id kp.2 = kp.1).

Definition consistentb (v : BoardView) : bool :=
  forallb (cell_ok v) (cells_of v) &&
  forallb (entry_ok v) (map_to_list (v_pawns v)).

(** ** What printBoard writes, read off a view *)

(** The two characters written for one cell (nothing where the
    program throws). *)
Definition glyph (v : BoardView) (pos : Position) : string :=
  match truthy (cell v pos) with
  | None => ". "
  | Some id =>
      match v_get v id with
      | Entry q => if String.eqb (color q) "white" then "W " else "B "
      | Inherited _ => "B "
      | Absent => EmptyString
      end
  end.

(** The line for row [r]: the row number, " - ", and the glyphs of
    columns 0 to width - 1. *)
Definition row_line (v : BoardView) (r : Z) : string :=
  (pretty r ++ " - " ++
   foldl String.append EmptyString
     ((λ c, glyph v (mkPosition r c)) <$> seqZ 0 (v_width v)))%string.

(** Header, the rows from the last down to row 0, footer. *)
Definition board_lines (v : BoardView) : list string :=
  "Board - top row to bottom raw:" ::
  (row_line v <$> reverse (seqZ 0 (v_height v))) ++
  ["    0 1 2 3 4 5 6 7 (cols)"].

(** Every truthy id in a cell of the board is a key of the registry. *)
Definition printable (v : BoardView) : Prop :=
  ∀ pos id, in_bounds v pos = true → truthy (cell v pos) = Some id →
            is_Some (v_pawns v !! id).

(** For every truthy id in a cell of the board, [pawns[id]] is not
    [undefined]. *)
Definition resolvable (v : BoardView) : Prop :=
  ∀ pos id, in_bounds v pos = true → truthy (cell v pos) = Some id →
            v_get v id ≠ Absent.

(** ** Predicates on computations and on the store *)

(** [reads_only m]: whatever [m] answers, it leaves the store as it
    found it. *)
Definition reads_only {A} (m : M A) : Prop := ∀ h, (m h).2 = h.

(** [throws_only P m]: every exception [m] can throw satisfies [P]. *)
Definition throws_only {A} (P : exn → Prop) (m : M A) : Prop :=
  ∀ h e h', m h = (Throw e, h') → P e.

Definition is_TypeError (e : exn) : Prop := e = TypeError.

(** [rep h board b reg rows v]: in [h], [board] is the board object
    [b], whose registry object is [reg] and whose grid array holds the
    row references [rows]; [v] is what one reads through them. *)
Record rep (h : heap) (board : loc) (b : Board) (reg : Registry)
    (rows : list loc) (v : BoardView) : Prop := mkRep {
  rep_board : h !! board = Some (OBoard b);
  rep_reg : h !! pawns b = Some (ORegistry reg);
  rep_grid : h !! grid b = Some (OGrid rows);
  rep_rows : Forall2 (λ l cells, h !! l = Some (ORow cells)) rows (v_grid v);
  rep_typed : map_Forall (λ _ l, is_Some (pawn_at h l)) (own reg);
  rep_nodup : NoDup rows;
  rep_width : v_width v = width b;
  rep_height : v_height v = height b;
  rep_pawns : v_pawns v = omap (pawn_at h) (own reg);
  rep_own : own reg !! "__proto__" = None;
  rep_proto_ok : proto_ok h b (proto reg) = true;
  rep_proto : v_proto v = proto reg ≫= pawn_at h
}.

(** The objects a copy of the board consists of, laid out after [h]. *)
Definition clone_ext (h : heap) (b : Board) (reg : Registry)
    (rows : list loc) (v : BoardView) : list obj :=
  ORegistry (reg_assign reg) :: (ORow <$> v_grid v) ++
  [OGrid (seq (S (length h)) (length rows));
   OBoard {| width := width b; height := height b;
             pawns := length h;
             grid := (S (length h) + length rows)%nat |}].

(** ** Concrete boards on which the statements are exercised *)

(** The store after [createInitialBoard()] at program start; the board
    is the object at reference 10. *)
Definition h_start : heap := (createInitialBoard []).2.
Definition b_start : loc := 10%nat.
Definition v_start : BoardView := default (empty_view 8 8) initial_view.

(** A small position: white "W1" on (1,0) facing a white "W3" on (2,0)
    and a black "B2" on (2,1). *)
Definition pawn_W1 : Pawn :=
  {| id := "W1"; color := "white"; position := mkPosition 1 0; hasMoved := false |}.
Definition pawn_W3 : Pawn :=
  {| id := "W3"; color := "white"; position := mkPosition 2 0; hasMoved := false |}.
Definition pawn_B2 : Pawn :=
  {| id := "B2"; color := "black"; position := mkPosition 2 1; hasMoved := false |}.

Definition skirmish : M loc :=
  board ← createEmptyBoard 8 8;
  w ← alloc (OPawn pawn_W1); _ ← placePawn board w;
  k ← alloc (OPawn pawn_B2); _ ← placePawn board k;
  w ← alloc (OPawn pawn_W3); _ ← placePawn board w;
  mret board.

Definition h_skirmish : heap := (skirmish []).2.
Definition v_skirmish : BoardView :=
  place_view (place_view (place_view (empty_view 8 8) pawn_W1) pawn_B2) pawn_W3.

(** The same with a black pawn whose id is the empty string on (2,1),
    placed through [placePawn] like any other. *)
Definition pawn_anon : Pawn :=
  {| id := EmptyString; color := "black"; position := mkPosition 2 1;
     hasMoved := false |}.

Definition anonymous : M loc :=
  board ← createEmptyBoard 8 8;
  w ← alloc (OPawn pawn_W1); _ ← placePawn board w;
  k ← alloc (OPawn pawn_anon); _ ← placePawn board k;
  mret board.

Definition h_anonymous : heap := (anonymous []).2.
Definition v_anonymous : BoardView :=
  place_view (place_view (empty_view 8 8) pawn_W1) pawn_anon.

(** A white pawn on the last row and a black pawn on row 0. *)
Definition pawn_far_white : Pawn :=
  {| id := "W1"; color := "white"; position := mkPosition 7 3; hasMoved := true |}.
Definition pawn_far_black : Pawn :=
  {| id := "B2"; color := "black"; position := mkPosition 0 3; hasMoved := true |}.

Definition edge : M loc :=
  board ← createEmptyBoard 8 8;
  w ← alloc (OPawn pawn_far_white); _ ← placePawn board w;
  k ← alloc (OPawn pawn_far_black); _ ← placePawn board k;
  mret board.

Definition h_edge : heap := (edge []).2.
Definition v_edge : BoardView :=
  place_view (place_view (empty_view 8 8) pawn_far_white) pawn_far_black.

(** Two pawn records with the same id "X": the first is placed on
    (0,0), the second is about to be placed on (1,1). *)
Definition pawn_X1 : Pawn :=
  {| id := "X"; color := "white"; position := mkPosition 0 0; hasMoved := false |}.
Definition pawn_X2 : Pawn :=
  {| id := "X"; color := "black"; position := mkPosition 1 1; hasMoved := false |}.

Definition same_id : M loc :=
  board ← createEmptyBoard 8 8;
  a ← alloc (OPawn pawn_X1); _ ← placePawn board a;
  k ← alloc (OPawn pawn_X2);
  mret board.

Definition h_same_id : heap := (same_id []).2.
Definition v_same_id : BoardView := place_view (empty_view 8 8) pawn_X1.
Definition h_same_id_placed : heap := (placePawn 10%nat 12%nat h_same_id).2.
Definition v_same_id_placed : BoardView := place_view v_same_id pawn_X2.

(** The initial board, and a new pawn record "N1" for (3,3) that is not
    on the board yet (reference 43). *)
Definition pawn_N1 : Pawn :=
  {| id := "N1"; color := "white"; position := mkPosition 3 3; hasMoved := false |}.
Definition h_ready : heap := h_start ++ [OPawn pawn_N1].

(** ** Further fixtures and predicates *)

(** The board [same_id] after the second record "X" has been placed and
    [removePawn(board, "X")] has run: the registry is empty and cell
    (0,0) still holds "X". *)
Definition h_dangling : heap := (removePawn 10%nat "X" h_same_id_placed).2.
Definition v_dangling : BoardView := remove_view v_same_id_placed "X" pawn_X2.

(** For the id in cell ([r], [c]), if it is truthy, [pawns[id]] is not
    [undefined]. *)
Definition resolved_cell (v : BoardView) (r c : Z) : Prop :=
  ∀ id, truthy (cell v (mkPosition r c)) = Some id → v_get v id ≠ Absent.

(** [changed_within ls h h']: every object of [h] is still in [h'], and
    unchanged unless its reference is in [ls]; [h'] may hold new
    objects after those of [h]. *)
Definition changed_within (ls : list loc) (h h' : heap) : Prop :=
  (length h ≤ length h')%nat ∧
  ∀ l, (l < length h)%nat → l ∉ ls → h' !! l = h !! l.

(** The grid has exactly [height] rows and every row exactly [width]
    cells. *)
Definition shaped (v : BoardView) : Prop :=
  length (v_grid v) = Z.to_nat (v_height v) ∧
  Forall (λ cells, length cells = Z.to_nat (v_width v)) (v_grid v).

(** The characters of an integer printed in decimal: a digit or the
    minus sign. *)
Definition sign_or_digit (c : ascii) : bool :=
  Ascii.eqb c "-" ||
  ((48 <=? nat_of_ascii c)%nat && (nat_of_ascii c <=? 57)%nat).

(** ** Boards with ids that name inherited properties *)

(** Two records with the id "toString" are placed, on (2,1) and on
    (5,5), next to the white "W1" on (1,0); then
    [removePawn(board, "toString")] runs.  The registry is left with
    "W1" alone and cell (2,1) still holds "toString". *)
Definition pawn_T1 : Pawn :=
  {| id := "toString"; color := "black"; position := mkPosition 2 1;
     hasMoved := false |}.
Definition pawn_T2 : Pawn :=
  {| id := "toString"; color := "black"; position := mkPosition 5 5;
     hasMoved := false |}.

Definition stray : M loc :=
  board ← createEmptyBoard 8 8;
  w ← alloc (OPawn pawn_W1); _ ← placePawn board w;
  a ← alloc (OPawn pawn_T1); _ ← placePawn board a;
  k ← alloc (OPawn pawn_T2); _ ← placePawn board k;
  _ ← removePawn board "toString";
  mret board.

Definition h_stray : heap := (stray []).2.
Definition v_stray : BoardView :=
  remove_view
    (place_view (place_view (place_view (empty_view 8 8) pawn_W1) pawn_T1)
       pawn_T2)
    "toString" pawn_T2.

(** An empty board on which [addPawn(board, "black", 3, 3)] has run
    while the clock read 1700000000000 and the random digits were
    "3f9a". *)
Definition pawn_added : Pawn :=
  {| id := "B_1700000000000_3f9a"; color := "black";
     position := mkPosition 3 3; hasMoved := false |}.

Definition added_once : M loc :=
  board ← createEmptyBoard 8 8;
  _ ← addPawn 1700000000000 "3f9a" EmptyString board "black" 3 3;
  mret board.

Definition h_added : heap := (added_once []).2.
Definition v_added : BoardView := place_view (empty_view 8 8) pawn_added.

(** The same board after a second [addPawn(board, "black", 4, 4)] for
    which the clock and the random digits were the same again. *)
Definition pawn_added_again : Pawn :=
  {| id := "B_1700000000000_3f9a"; color := "black";
     position := mkPosition 4 4; hasMoved := false |}.
Definition h_added_twice : heap :=
  (addPawn 1700000000000 "3f9a" EmptyString 10%nat "black" 4 4 h_added).2.
Definition v_added_twice : BoardView := place_view v_added pawn_added_again.

(** The initial board, and a new record for (3,3) whose id is
    [__proto__] (reference 43). *)
Definition pawn_proto : Pawn :=
  {| id := "__proto__"; color := "black"; position := mkPosition 3 3;
     hasMoved := false |}.
Definition h_proto_ready : heap := h_start ++ [OPawn pawn_proto].

(** A record with the id [__proto__] is placed on (3,3) of an empty
    board and removed again; then the white pawn "X" is placed on
    (3,3). *)
Definition pawn_X33 : Pawn :=
  {| id := "X"; color := "white"; position := mkPosition 3 3;
     hasMoved := false |}.

Definition haunted : M loc :=
  board ← createEmptyBoard 8 8;
  a ← alloc (OPawn pawn_proto); _ ← placePawn board a;
  _ ← removePawn board "__proto__";
  k ← alloc (OPawn pawn_X33); _ ← placePawn board k;
  mret board.

Definition h_haunted : heap := (haunted []).2.
Definition v_haunted : BoardView :=
  place_view
    (remove_view (place_view (empty_view 8 8) pawn_proto) "__proto__" pawn_proto)
    pawn_X33.

(** The same board after a second [removePawn(board, "__proto__")]. *)
Definition h_haunted_removed : heap := (removePawn 10%nat "__proto__" h_haunted).2.
Definition v_haunted_removed : BoardView :=
  remove_view v_haunted "__proto__" pawn_proto.

(** ** Reasoning about the store *)

Lemma row_at_Some h l cells : row_at h l = Some cells ↔ h !! l = Some (ORow cells).
Proof.
  unfold row_at. destruct (h !! l) as [[]|]; split; intros; simplify_eq; done.
Qed.

Lemma pawn_at_Some h l p : pawn_at h l = Some p ↔ h !! l = Some (OPawn p).
Proof.
  unfold pawn_at. destruct (h !! l) as [[]|]; split; intros; simplify_eq; done.
Qed.

Lemma view_rep h board v :
  view h board = Some v ↔ ∃ b reg rows, rep h board b reg rows v.
Proof.
  unfold view, board_at, registry_at, proto_at, grid_at. split.
  - intros Hv.
    destruct (h !! board) as [[| | | |b]|] eqn:Hb; simplify_eq/=.
    destruct (h !! pawns b) as [[|reg| | |]|] eqn:Hr; simplify_eq/=.
    destruct (h !! grid b) as [[| | |rows|]|] eqn:Hg; simplify_eq/=.
    destruct (mapM (row_at h) rows) as [cells|] eqn:Hc; simplify_eq/=.
    case_decide as Hd; simplify_eq/=. destruct Hd as (Ht & Hn & Ho & Hpr).
    exists b, reg, rows. split; try done. simpl.
    apply mapM_Some in Hc. eapply Forall2_impl; [exact Hc|].
    intros ??; apply row_at_Some.
  - intros (b & reg & rows & [Hb Hr Hg Hrows Ht Hn Hw Hh Hp Ho Hpr Hpv]).
    rewrite Hb; simpl. rewrite Hr; simpl. rewrite Hg; simpl.
    assert (mapM (row_at h) rows = Some (v_grid v)) as ->.
    { apply mapM_Some. eapply Forall2_impl; [exact Hrows|].
      intros ??; apply row_at_Some. }
    simpl. rewrite decide_True by done.
    destruct v; simpl in *; by subst.
Qed.

(** Stepping through a sequence of statements. *)
Lemma bind_ok {A B} (m : M A) (k : A → M B) h a h' :
  m h = (Ok a, h') → (m ≫= k) h = k a h'.
Proof. unfold mbind, M_bind. by intros ->. Qed.

Lemma bind_throw {A B} (m : M A) (k : A → M B) h e h' :
  m h = (Throw e, h') → (m ≫= k) h = (Throw e, h').
Proof. unfold mbind, M_bind. by intros ->. Qed.

Section reads.
Context {h : heap} {board : loc} {b : Board} {reg : Registry}
  {rows : list loc} {v : BoardView} (R : rep h board b reg rows v).

Lemma get_board_rep : get_board board h = (Ok b, h).
Proof. unfold get_board, deref, mbind, M_bind. by rewrite (rep_board _ _ _ _ _ _ R). Qed.

Lemma get_registry_rep : get_registry (pawns b) h = (Ok reg, h).
Proof. unfold get_registry, deref, mbind, M_bind. by rewrite (rep_reg _ _ _ _ _ _ R). Qed.

Lemma get_grid_rep : get_grid (grid b) h = (Ok rows, h).
Proof. unfold get_grid, deref, mbind, M_bind. by rewrite (rep_grid _ _ _ _ _ _ R). Qed.

Lemma isValidPosition_rep r c :
  isValidPosition board r c h = (Ok (in_bounds v (mkPosition r c)), h).
Proof.
  unfold isValidPosition, mbind, M_bind. rewrite get_board_rep.
  unfold in_bounds; simpl.
  by rewrite (rep_width _ _ _ _ _ _ R), (rep_height _ _ _ _ _ _ R).
Qed.

Lemma rows_lookup_view r :
  match arr_get rows r, arr_get (v_grid v) r with
  | Some rl, Some cells => h !! rl = Some (ORow cells)
  | None, None => True
  | _, _ => False
  end.
Proof.
  unfold arr_get. destruct (r <? 0); [done|].
  pose proof (rep_rows _ _ _ _ _ _ R) as HF.
  destruct (rows !! Z.to_nat r) as [rl|] eqn:E1.
  - destruct (Forall2_lookup_l _ _ _ _ _ HF E1) as (cells & -> & ?). done.
  - destruct (v_grid v !! Z.to_nat r) as [cells|] eqn:E2; [|done].
    destruct (Forall2_lookup_r _ _ _ _ _ HF E2) as (? & ? & ?). congruence.
Qed.

Lemma grid_get_rep r c :
  grid_get board r c h =
    (match arr_get (v_grid v) r with
     | Some cells => Ok (read_slot cells c)
     | None => Throw TypeError
     end, h).
Proof.
  unfold grid_get, mbind, M_bind. rewrite get_board_rep, get_grid_rep.
  pose proof (rows_lookup_view r) as Hl.
  destruct (arr_get rows r) as [rl|], (arr_get (v_grid v) r) as [cells|];
    try done.
  unfold get_row, deref, mbind, M_bind. by rewrite Hl.
Qed.

Lemma registry_lookup_view k :
  match own reg !! k with
  | Some l => ∃ p, h !! l = Some (OPawn p) ∧ v_pawns v !! k = Some p
  | None => v_pawns v !! k = None
  end.
Proof.
  rewrite (rep_pawns _ _ _ _ _ _ R), lookup_omap.
  destruct (own reg !! k) as [l|] eqn:E; [|done]. simpl.
  destruct (rep_typed _ _ _ _ _ _ R _ _ E) as [p Hp].
  exists p. split; [by apply pawn_at_Some|done].
Qed.

(** The prototype of the registry, as the view has it. *)
Lemma proto_lookup_view :
  match proto reg with
  | Some l => ∃ q, h !! l = Some (OPawn q) ∧ v_proto v = Some q ∧
                   in_bounds v (position q) = true
  | None => v_proto v = None
  end.
Proof.
  pose proof (rep_proto_ok _ _ _ _ _ _ R) as Hok.
  rewrite (rep_proto _ _ _ _ _ _ R). unfold proto_ok in Hok.
  destruct (proto reg) as [l|]; [|done]. simpl.
  destruct (pawn_at h l) as [q|] eqn:Hq; [|done].
  exists q. split; [by apply pawn_at_Some|]. split; [done|].
  unfold in_bounds.
  by rewrite (rep_width _ _ _ _ _ _ R), (rep_height _ _ _ _ _ _ R).
Qed.

(** [board.pawns[k]] answers what the view has for [k]; a pawn record
    is answered by reference. *)
Lemma pawns_get_rep k :
  ∃ m, pawns_get board k h = (Ok m, h) ∧
    match m, v_get v k with
    | Entry l, Entry p => h !! l = Some (OPawn p)
    | Absent, Absent => True
    | Inherited t, Inherited t' => t = t'
    | _, _ => False
    end.
Proof.
  unfold pawns_get, v_get.
  rewrite (bind_ok _ _ _ _ _ get_board_rep).
  rewrite (bind_ok _ _ _ _ _ get_registry_rep).
  pose proof (registry_lookup_view k) as Hl.
  destruct (own reg !! k) as [l|].
  { destruct Hl as (p & Hp & ->). by exists (Entry l). }
  rewrite Hl. pose proof proto_lookup_view as Hpr.
  destruct (proto reg) as [l|].
  - destruct Hpr as (q & Hq & -> & _).
    destruct (String.eqb k "__proto__"); [by exists (Entry l)|].
    unfold get_pawn, deref, mbind, M_bind. rewrite Hq. simpl.
    eexists. split; [reflexivity|].
    unfold from_record, from_Object_prototype.
    repeat (match goal with
            | |- context [if ?c then _ else _] => destruct c
            end); done.
  - rewrite Hpr. eexists. split; [reflexivity|].
    unfold from_Object_prototype.
    repeat (match goal with
            | |- context [if ?c then _ else _] => destruct c
            end); done.
Qed.

Lemma pawns_get_entry k p :
  v_get v k = Entry p →
  ∃ l, pawns_get board k h = (Ok (Entry l), h) ∧ h !! l = Some (OPawn p).
Proof.
  intros Hk. destruct (pawns_get_rep k) as (m & Hrun & Hm).
  rewrite Hk in Hm. destruct m as [|l|]; [done| |done]. by exists l.
Qed.

Lemma pawns_get_absent k :
  v_get v k = Absent → pawns_get board k h = (Ok Absent, h).
Proof.
  intros Hk. destruct (pawns_get_rep k) as (m & Hrun & Hm).
  rewrite Hk in Hm. by destruct m.
Qed.

Lemma pawns_get_inherited k t :
  v_get v k = Inherited t → pawns_get board k h = (Ok (Inherited t), h).
Proof.
  intros Hk. destruct (pawns_get_rep k) as (m & Hrun & Hm).
  rewrite Hk in Hm. destruct m; try done. by subst.
Qed.
End reads.

Lemma v_get_own v k p : v_pawns v !! k = Some p → v_get v k = Entry p.
Proof. intros E. unfold v_get. by rewrite E. Qed.

(** *** Computations that only read, and what can be thrown *)

Lemma reads_only_ret {A} (a : A) : reads_only (mret a).
Proof. done. Qed.
Lemma reads_only_throw {A} e : reads_only (@throw A e).
Proof. done. Qed.
Lemma reads_only_deref l : reads_only (deref l).
Proof. intros h. unfold deref. by destruct (h !! l). Qed.
Lemma reads_only_bind {A B} (m : M A) (k : A → M B) :
  reads_only m → (∀ a, reads_only (k a)) → reads_only (m ≫= k).
Proof.
  intros Hm Hk h. unfold mbind, M_bind. specialize (Hm h).
  destruct (m h) as [[a|e] h1]; simpl in *; subst; [apply Hk|done].
Qed.

Lemma throws_only_ret {A} P (a : A) : throws_only P (mret a).
Proof. by intros h e h' [=]. Qed.
Lemma throws_only_throw {A} (P : exn → Prop) e : P e → throws_only P (@throw A e).
Proof. intros He h e' h' [=]. by subst. Qed.
Lemma throws_only_deref (P : exn → Prop) l : P TypeError → throws_only P (deref l).
Proof.
  intros HP h e h'. unfold deref. destruct (h !! l); intros [=]. by subst.
Qed.
Lemma throws_only_alloc P o : throws_only P (alloc o).
Proof. by intros h e h' [=]. Qed.
Lemma throws_only_store P l o : throws_only P (store l o).
Proof. by intros h e h' [=]. Qed.
Lemma throws_only_bind {A B} P (m : M A) (k : A → M B) :
  throws_only P m → (∀ a, throws_only P (k a)) → throws_only P (m ≫= k).
Proof.
  intros Hm Hk h e h'. unfold mbind, M_bind.
  destruct (m h) as [[a|e1] h1] eqn:E.
  - apply Hk.
  - intros [=]; subst. by eapply Hm.
Qed.

Ltac reads_step :=
  first
    [ apply reads_only_ret | apply reads_only_throw | apply reads_only_deref
    | apply reads_only_bind; [|intros ?]
    | match goal with
      | |- reads_only (match ?x with _ => _ end) => destruct x
      | |- reads_only (if ?x then _ else _) => destruct x
      end ].

Ltac throws_step :=
  first
    [ apply throws_only_ret | apply throws_only_alloc | apply throws_only_store
    | apply throws_only_deref; done
    | apply throws_only_throw; done
    | apply throws_only_bind; [|intros ?]
    | match goal with
      | |- throws_only _ (match ?x with _ => _ end) => destruct x
      | |- throws_only _ (if ?x then _ else _) => destruct x
      end ].

Lemma reads_only_get_pawn l : reads_only (get_pawn l).
Proof. unfold get_pawn. repeat reads_step. Qed.
Lemma reads_only_get_board l : reads_only (get_board l).
Proof. unfold get_board. repeat reads_step. Qed.
Lemma reads_only_get_registry l : reads_only (get_registry l).
Proof. unfold get_registry. repeat reads_step. Qed.
Lemma reads_only_get_grid l : reads_only (get_grid l).
Proof. unfold get_grid. repeat reads_step. Qed.
Lemma reads_only_get_row l : reads_only (get_row l).
Proof. unfold get_row. repeat reads_step. Qed.

Lemma reads_only_grid_get board r c : reads_only (grid_get board r c).
Proof.
  unfold grid_get.
  apply reads_only_bind; [apply reads_only_get_board|intros b].
  apply reads_only_bind; [apply reads_only_get_grid|intros rows].
  destruct (arr_get rows r); [|apply reads_only_throw].
  apply reads_only_bind; [apply reads_only_get_row|intros cells].
  apply reads_only_ret.
Qed.

Lemma reads_only_pawns_get board k : reads_only (pawns_get board k).
Proof.
  unfold pawns_get.
  apply reads_only_bind; [apply reads_only_get_board|intros b].
  apply reads_only_bind; [apply reads_only_get_registry|intros reg].
  destruct (own reg !! k); [apply reads_only_ret|].
  destruct (proto reg) as [l|]; [|apply reads_only_ret].
  destruct (String.eqb k "__proto__"); [apply reads_only_ret|].
  apply reads_only_bind; [apply reads_only_get_pawn|intros q].
  apply reads_only_ret.
Qed.

Lemma reads_only_isValidPosition board r c :
  reads_only (isValidPosition board r c).
Proof.
  unfold isValidPosition.
  apply reads_only_bind; [apply reads_only_get_board|intros b].
  apply reads_only_ret.
Qed.

Lemma reads_only_valid_and_empty board r c :
  reads_only (valid_and_empty board r c).
Proof.
  unfold valid_and_empty.
  apply reads_only_bind; [apply reads_only_isValidPosition|intros [|]].
  - apply reads_only_bind; [apply reads_only_grid_get|intros ?].
    apply reads_only_ret.
  - apply reads_only_ret.
Qed.

Lemma reads_only_try_capture p board r c moves :
  reads_only (try_capture p board r c moves).
Proof.
  unfold try_capture.
  apply reads_only_bind; [apply reads_only_isValidPosition|intros [|]]; simpl;
    [|apply reads_only_ret].
  apply reads_only_bind; [apply reads_only_grid_get|intros x].
  destruct (truthy x); [|apply reads_only_ret].
  apply reads_only_bind; [apply reads_only_pawns_get|intros [|l|[|]]];
    try apply reads_only_ret.
  apply reads_only_bind; [apply reads_only_get_pawn|intros q].
  destruct (negb _); apply reads_only_ret.
Qed.

Lemma reads_only_for_each {A S} (body : S → A → M S) l s :
  (∀ s x, reads_only (body s x)) → reads_only (for_each body l s).
Proof.
  intros Hb. revert s. induction l as [|x l IH]; intros s; simpl.
  - apply reads_only_ret.
  - apply reads_only_bind; [apply Hb|apply IH].
Qed.

(** [getPawnAllowedMoves] never writes to the store, whatever it is
    given and whether it returns or throws. *)
Lemma reads_only_getPawnAllowedMoves pawn board :
  reads_only (getPawnAllowedMoves pawn board).
Proof.
  unfold getPawnAllowedMoves.
  apply reads_only_bind; [apply reads_only_get_pawn|intros p].
  apply reads_only_bind; [apply reads_only_valid_and_empty|intros one].
  apply reads_only_bind.
  - destruct one; [|apply reads_only_ret].
    destruct (negb (hasMoved p)); [|apply reads_only_ret].
    apply reads_only_bind; [apply reads_only_valid_and_empty|intros [|]];
      apply reads_only_ret.
  - intros moves. apply reads_only_for_each.
    intros ??. apply reads_only_try_capture.
Qed.

Lemma reads_only_run {A} (m : M A) h r h' :
  reads_only m → m h = (r, h') → h' = h.
Proof. intros Hm E. specialize (Hm h). by rewrite E in Hm. Qed.

Lemma get_pawn_ok h l p : pawn_at h l = Some p → get_pawn l h = (Ok p, h).
Proof.
  intros Hp%pawn_at_Some. unfold get_pawn, deref, mbind, M_bind. by rewrite Hp.
Qed.

Section engine.
Context {h : heap} {board : loc} {b : Board} {reg : Registry}
  {rows : list loc} {v : BoardView} (R : rep h board b reg rows v).
Hypothesis rows_ok : rows_present v.

Lemma grid_get_in_bounds r c :
  in_bounds v (mkPosition r c) = true →
  grid_get board r c h = (Ok (cell v (mkPosition r c)), h).
Proof.
  intros Hin. rewrite (grid_get_rep R). unfold cell; simpl.
  unfold in_bounds in Hin; simpl in Hin. unfold rows_present in rows_ok.
  unfold arr_get. destruct (r <? 0) eqn:E; [lia|].
  destruct (v_grid v !! Z.to_nat r) eqn:E2; [done|].
  apply lookup_ge_None in E2. lia.
Qed.

Lemma valid_and_empty_rep r c :
  valid_and_empty board r c h = (Ok (forward_ok v (mkPosition r c)), h).
Proof.
  unfold valid_and_empty, forward_ok.
  rewrite (bind_ok _ _ _ _ _ (isValidPosition_rep R r c)).
  destruct (in_bounds v (mkPosition r c)) eqn:Hin; [|done].
  by rewrite (bind_ok _ _ _ _ _ (grid_get_in_bounds r c Hin)).
Qed.

Lemma try_capture_rep p r c moves :
  try_capture p board r c moves h =
    (Ok (moves ++ if capture_ok v p (mkPosition r c)
                  then [mkPosition r c] else []), h).
Proof.
  unfold try_capture, capture_ok.
  rewrite (bind_ok _ _ _ _ _ (isValidPosition_rep R r c)).
  destruct (in_bounds v (mkPosition r c)) eqn:Hin; simpl;
    [|by rewrite app_nil_r].
  rewrite (bind_ok _ _ _ _ _ (grid_get_in_bounds r c Hin)).
  destruct (truthy (cell v (mkPosition r c))) as [t|]; [|by rewrite app_nil_r].
  destruct (pawns_get_rep R t) as (m & Hget & Hm).
  rewrite (bind_ok _ _ _ _ _ Hget).
  destruct m as [|l|[|]], (v_get v t) as [|q|t']; try done; subst;
    try (by rewrite app_nil_r); [|done].
  rewrite (bind_ok _ _ _ _ _ (get_pawn_ok _ _ _ (proj2 (pawn_at_Some _ _ _) Hm))).
  destruct (negb (color q =? color p)%string); [done|by rewrite app_nil_r].
Qed.

(** On a well-formed board [getPawnAllowedMoves] returns, leaves the
    store as it was, and its result is [allowed_moves]. *)
Lemma getPawnAllowedMoves_rep pawn p :
  pawn_at h pawn = Some p →
  getPawnAllowedMoves pawn board h = (Ok (allowed_moves v p), h).
Proof.
  intros Hp. unfold getPawnAllowedMoves, allowed_moves.
  rewrite (bind_ok _ _ _ _ _ (get_pawn_ok _ _ _ Hp)).
  fold (direction p). fold (forwardRow p). fold (twoForwardRow p).
  fold (forward_one p). fold (forward_two p).
  assert (∀ ms, for_each
    (λ moves c, try_capture p board (forwardRow p) c moves)
    [col (position p) - 1; col (position p) + 1] ms h =
    (Ok (ms ++ (if capture_ok v p (diagonal_left p) then [diagonal_left p] else [])
            ++ (if capture_ok v p (diagonal_right p) then [diagonal_right p] else [])), h))
    as Hloop.
  { intros ms. simpl.
    rewrite (bind_ok _ _ _ _ _ (try_capture_rep p _ _ ms)).
    rewrite (bind_ok _ _ _ _ _ (try_capture_rep p _ _ _)).
    by rewrite <- app_assoc. }
  rewrite (bind_ok _ _ _ _ _ (valid_and_empty_rep (forwardRow p) (col (position p)))).
  fold (forward_one p).
  destruct (forward_ok v (forward_one p)).
  - destruct (hasMoved p); simpl.
    + erewrite bind_ok by reflexivity. apply Hloop.
    + unfold mbind at 1, M_bind at 1. unfold mbind at 1, M_bind at 1.
      rewrite (valid_and_empty_rep (twoForwardRow p) (col (position p))).
      fold (forward_two p).
      destruct (forward_ok v (forward_two p)); apply Hloop.
  - erewrite bind_ok by reflexivity. apply Hloop.
Qed.
End engine.

(** *** Writes *)

Lemma pawn_at_insert_other h l o l' :
  pawn_at h l = None → (∀ p, o ≠ OPawn p) →
  pawn_at (<[l := o]> h) l' = pawn_at h l'.
Proof.
  intros Hl Ho. unfold pawn_at in *.
  destruct (decide (l = l')) as [<-|Hne].
  - destruct (h !! l) as [o'|] eqn:E.
    + rewrite list_lookup_insert_eq by (by eapply lookup_lt_Some).
      destruct o as [p| | | |]; [by destruct (Ho p)|..].
      all: by destruct o'.
    + rewrite list_insert_ge by (by apply lookup_ge_None). by rewrite E.
  - by rewrite list_lookup_insert_ne.
Qed.

Lemma pawn_at_alloc h o l p :
  pawn_at h l = Some p → pawn_at (h ++ [o]) l = Some p.
Proof.
  intros Hp. apply pawn_at_Some. apply pawn_at_Some in Hp.
  rewrite lookup_app_l; [done|by eapply lookup_lt_Some].
Qed.

Lemma proto_ok_ext h h' b pr :
  (∀ l q, pawn_at h l = Some q → pawn_at h' l = Some q) →
  proto_ok h b pr = true →
  proto_ok h' b pr = true ∧ pr ≫= pawn_at h' = pr ≫= pawn_at h.
Proof.
  intros Hext Hok. destruct pr as [l|]; [|done]. simpl in *.
  destruct (pawn_at h l) as [q|] eqn:Hq; [|done].
  by rewrite (Hext l q Hq).
Qed.

Section writes.
Context {h : heap} {board : loc} {b : Board} {reg : Registry}
  {rows : list loc} {v : BoardView} (R : rep h board b reg rows v).

Lemma rep_alloc o : rep (h ++ [o]) board b reg rows v.
Proof.
  destruct R as [Hb Hr Hg Hrows Ht Hn Hw Hh Hp Ho Hpr Hpv].
  assert (∀ l x, h !! l = Some x → (h ++ [o]) !! l = Some x) as Hext.
  { intros l x Hl. rewrite lookup_app_l; [done|by eapply lookup_lt_Some]. }
  destruct (proto_ok_ext h (h ++ [o]) b (proto reg)) as [Hpr' Hpv'];
    [intros; by apply pawn_at_alloc|done|].
  split; auto.
  - eapply Forall2_impl; [exact Hrows|]. intros ??; apply Hext.
  - intros k l Hk. destruct (Ht k l Hk) as [p Hpl]. exists p.
    by apply pawn_at_alloc.
  - rewrite Hp. apply map_eq. intros k. rewrite !lookup_omap.
    destruct (own reg !! k) as [l|] eqn:E; [|done]. simpl.
    destruct (Ht k l E) as [p Hpl]. rewrite Hpl. symmetry.
    by apply pawn_at_alloc.
  - by rewrite Hpv'.
Qed.

Lemma rep_store_row r rl cells cells' :
  rows !! r = Some rl → v_grid v !! r = Some cells →
  rep (<[rl := ORow cells']> h) board b reg rows
      {| v_width := v_width v; v_height := v_height v; v_pawns := v_pawns v;
         v_proto := v_proto v;
         v_grid := <[r := cells']> (v_grid v) |}.
Proof.
  intros Hrl Hcells.
  destruct R as [Hb Hr Hg Hrows Ht Hn Hw Hh Hp Ho Hpr Hpv].
  assert (h !! rl = Some (ORow cells)) as Hrow.
  { destruct (Forall2_lookup_l _ _ _ _ _ Hrows Hrl) as (c' & Hc' & ?).
    congruence. }
  assert (pawn_at h rl = None) as Hnp by (unfold pawn_at; by rewrite Hrow).
  assert (∀ l', pawn_at (<[rl := ORow cells']> h) l' = pawn_at h l') as Hpa.
  { intros l'. by apply pawn_at_insert_other. }
  destruct (proto_ok_ext h (<[rl := ORow cells']> h) b (proto reg))
    as [Hpr' Hpv']; [intros ??; by rewrite Hpa|done|].
  split; simpl; auto.
  - rewrite list_lookup_insert_ne; [done|congruence].
  - rewrite list_lookup_insert_ne; [done|congruence].
  - rewrite list_lookup_insert_ne; [done|congruence].
  - apply Forall2_same_length_lookup. split.
    { rewrite length_insert. by eapply Forall2_length. }
    intros i l cs Hl Hcs.
    destruct (decide (i = r)) as [->|Hne].
    + rewrite list_lookup_insert_eq in Hcs by (by eapply lookup_lt_Some).
      simplify_eq. apply list_lookup_insert_eq. by eapply lookup_lt_Some.
    + rewrite list_lookup_insert_ne in Hcs by done.
      rewrite list_lookup_insert_ne.
      * exact (Forall2_lookup_lr _ _ _ _ _ _ Hrows Hl Hcs).
      * intros <-. apply Hne. symmetry. by eapply NoDup_lookup.
  - intros k l Hk. rewrite Hpa. by eapply Ht.
  - rewrite Hp. apply map_eq. intros k. rewrite !lookup_omap.
    destruct (own reg !! k); simpl; [by rewrite Hpa|done].
  - by rewrite Hpv'.
Qed.

Lemma grid_set_rep r c x cells :
  arr_get (v_grid v) r = Some cells →
  ∃ rl, arr_get rows r = Some rl ∧
    grid_set board r c x h = (Ok tt, <[rl := ORow (arr_set cells c x)]> h) ∧
    rep (<[rl := ORow (arr_set cells c x)]> h) board b reg rows
        (set_cell v (mkPosition r c) x).
Proof.
  intros Hcells. pose proof (rows_lookup_view R r) as Hl.
  rewrite Hcells in Hl. destruct (arr_get rows r) as [rl|] eqn:Hrl; [|done].
  exists rl. split; [done|]. split.
  - unfold grid_set, mbind, M_bind.
    rewrite (get_board_rep R), (get_grid_rep R), Hrl.
    unfold get_row, deref, mbind, M_bind. by rewrite Hl.
  - unfold set_cell; simpl. rewrite Hcells.
    unfold arr_get in *. destruct (r <? 0); [done|].
    by eapply rep_store_row.
Qed.

Lemma grid_set_row_missing r c x :
  arr_get (v_grid v) r = None →
  grid_set board r c x h = (Throw TypeError, h).
Proof.
  intros Hnone. unfold grid_set, mbind, M_bind.
  rewrite (get_board_rep R), (get_grid_rep R).
  pose proof (rows_lookup_view R r) as Hl. rewrite Hnone in Hl.
  by destruct (arr_get rows r).
Qed.

Lemma rep_store_registry reg' :
  map_Forall (λ _ l, is_Some (pawn_at h l)) (own reg') →
  own reg' !! "__proto__" = None →
  proto_ok h b (proto reg') = true →
  rep (<[pawns b := ORegistry reg']> h) board b reg' rows
      (set_proto (set_pawns v (omap (pawn_at h) (own reg')))
                 (proto reg' ≫= pawn_at h)).
Proof.
  intros Ht' Ho' Hpr'.
  destruct R as [Hb Hr Hg Hrows Ht Hn Hw Hh Hp Ho Hpr Hpv].
  assert (pawn_at h (pawns b) = None) as Hnp by (unfold pawn_at; by rewrite Hr).
  assert (∀ l', pawn_at (<[pawns b := ORegistry reg']> h) l' = pawn_at h l') as Hpa.
  { intros l'. by apply pawn_at_insert_other. }
  destruct (proto_ok_ext h (<[pawns b := ORegistry reg']> h) b (proto reg'))
    as [Hpr2 Hpv2]; [intros ??; by rewrite Hpa|done|].
  split; simpl; auto.
  - rewrite list_lookup_insert_ne; [done|congruence].
  - apply list_lookup_insert_eq. by eapply lookup_lt_Some.
  - rewrite list_lookup_insert_ne; [done|congruence].
  - eapply Forall2_impl; [exact Hrows|]. intros l cs Hl; simpl in *.
    rewrite list_lookup_insert_ne; [done|congruence].
  - intros k l Hk. rewrite Hpa. by eapply Ht'.
  - apply map_eq. intros k. rewrite !lookup_omap.
    destruct (own reg' !! k); simpl; [by rewrite Hpa|done].
Qed.

Lemma reg_set_other k pawn :
  k ≠ "__proto__" →
  reg_set k pawn reg = {| own := <[k := pawn]> (own reg); proto := proto reg |}.
Proof.
  intros Hk. unfold reg_set.
  destruct (String.eqb k "__proto__") eqn:E; [|done].
  by apply String.eqb_eq in E.
Qed.

Lemma reg_set_proto pawn :
  reg_set "__proto__" pawn reg = {| own := own reg; proto := Some pawn |}.
Proof.
  unfold reg_set. simpl.
  by rewrite (bool_decide_eq_true_2 _ (rep_own _ _ _ _ _ _ R)).
Qed.

(** [board.pawns[p.id] = pawn] for a record [p] whose position is on
    the board. *)
Lemma pawns_set_rep pawn p :
  pawn_at h pawn = Some p → in_bounds v (position p) = true →
  pawns_set board (id p) pawn h =
    (Ok tt, <[pawns b := ORegistry (reg_set (id p) pawn reg)]> h) ∧
  rep (<[pawns b := ORegistry (reg_set (id p) pawn reg)]> h) board b
      (reg_set (id p) pawn reg) rows (register v p).
Proof.
  intros Hp Hin. split.
  - unfold pawns_set, mbind, M_bind.
    by rewrite (get_board_rep R), (get_registry_rep R).
  - unfold register. destruct (String.eqb (id p) "__proto__") eqn:E.
    + apply String.eqb_eq in E. rewrite E, reg_set_proto.
      replace (set_proto v (Some p))
        with (set_proto (set_pawns v (omap (pawn_at h) (own reg)))
                        (Some pawn ≫= pawn_at h)).
      * refine (rep_store_registry {| own := own reg; proto := Some pawn |}
                  _ _ _); simpl.
        -- apply (rep_typed _ _ _ _ _ _ R).
        -- apply (rep_own _ _ _ _ _ _ R).
        -- rewrite Hp. unfold in_bounds in Hin. unfold on_board.
           by rewrite <- (rep_width _ _ _ _ _ _ R), <- (rep_height _ _ _ _ _ _ R).
      * simpl. rewrite Hp. unfold set_proto, set_pawns. simpl.
        by rewrite <- (rep_pawns _ _ _ _ _ _ R).
    + apply String.eqb_neq in E. rewrite (reg_set_other _ _ E).
      replace (set_pawns v (<[id p := p]> (v_pawns v)))
        with (set_proto (set_pawns v (omap (pawn_at h)
                                        (<[id p := pawn]> (own reg))))
                        (proto reg ≫= pawn_at h)).
      * refine (rep_store_registry
                  {| own := <[id p := pawn]> (own reg); proto := proto reg |}
                  _ _ _); simpl.
        -- apply map_Forall_insert_2; [by eexists|].
           apply (rep_typed _ _ _ _ _ _ R).
        -- rewrite lookup_insert_ne by done. apply (rep_own _ _ _ _ _ _ R).
        -- apply (rep_proto_ok _ _ _ _ _ _ R).
      * unfold set_proto, set_pawns. simpl.
        rewrite <- (rep_proto _ _ _ _ _ _ R).
        rewrite (rep_pawns _ _ _ _ _ _ R). f_equal.
        by apply omap_insert_Some.
Qed.

Lemma pawns_delete_rep k :
  pawns_delete board k h =
    (Ok tt, <[pawns b := ORegistry (reg_delete k reg)]> h) ∧
  rep (<[pawns b := ORegistry (reg_delete k reg)]> h) board b
      (reg_delete k reg) rows (set_pawns v (delete k (v_pawns v))).
Proof.
  split.
  - unfold pawns_delete, mbind, M_bind.
    by rewrite (get_board_rep R), (get_registry_rep R).
  - replace (set_pawns v (delete k (v_pawns v)))
      with (set_proto (set_pawns v (omap (pawn_at h) (delete k (own reg))))
                      (proto reg ≫= pawn_at h)).
    + refine (rep_store_registry (reg_delete k reg) _ _ _); simpl.
      * apply map_Forall_delete. apply (rep_typed _ _ _ _ _ _ R).
      * apply lookup_delete_None. right. apply (rep_own _ _ _ _ _ _ R).
      * apply (rep_proto_ok _ _ _ _ _ _ R).
    + unfold set_proto, set_pawns. simpl.
      rewrite <- (rep_proto _ _ _ _ _ _ R).
      rewrite (rep_pawns _ _ _ _ _ _ R). f_equal. by rewrite omap_delete.
Qed.
End writes.

(** *** placePawn and removePawn *)

Lemma in_bounds_row_present v pos :
  rows_present v → in_bounds v pos = true →
  is_Some (arr_get (v_grid v) (row pos)).
Proof.
  unfold rows_present, in_bounds, arr_get. intros Hr Hin.
  destruct (row pos <? 0) eqn:E; [lia|].
  apply lookup_lt_is_Some. lia.
Qed.

Lemma cell_row_present v pos :
  cell v pos ≠ VUndefined → is_Some (arr_get (v_grid v) (row pos)).
Proof. unfold cell. destruct (arr_get (v_grid v) (row pos)); [eauto|done]. Qed.

Lemma register_grid v p : v_grid (register v p) = v_grid v.
Proof. unfold register. by destruct (String.eqb (id p) "__proto__"). Qed.

Lemma register_width v p : v_width (register v p) = v_width v.
Proof. unfold register. by destruct (String.eqb (id p) "__proto__"). Qed.

Lemma register_height v p : v_height (register v p) = v_height v.
Proof. unfold register. by destruct (String.eqb (id p) "__proto__"). Qed.

Lemma register_cell v p pos : cell (register v p) pos = cell v pos.
Proof. unfold cell. by rewrite register_grid. Qed.

Lemma register_in_bounds v p pos :
  in_bounds (register v p) pos = in_bounds v pos.
Proof. unfold in_bounds. by rewrite register_width, register_height. Qed.

Section place_remove.
Context {h : heap} {board : loc} {b : Board} {reg : Registry}
  {rows : list loc} {v : BoardView} (R : rep h board b reg rows v).

Lemma placePawn_out_of_bounds pawn p :
  pawn_at h pawn = Some p → in_bounds v (position p) = false →
  placePawn board pawn h = (Throw InvalidPosition, h).
Proof.
  intros Hp Hin. unfold placePawn.
  rewrite (bind_ok _ _ _ _ _ (get_pawn_ok _ _ _ Hp)).
  rewrite (bind_ok _ _ _ _ _ (get_board_rep R)).
  unfold in_bounds in Hin.
  rewrite (rep_width _ _ _ _ _ _ R), (rep_height _ _ _ _ _ _ R) in Hin.
  replace (_ || _ || _ || _) with true; [done|].
  symmetry. destruct (position p) as [r c]; simpl in *. lia.
Qed.

Lemma placePawn_occupied pawn p :
  pawn_at h pawn = Some p → in_bounds v (position p) = true →
  is_Some (arr_get (v_grid v) (row (position p))) →
  cell v (position p) ≠ VNull →
  placePawn board pawn h =
    (Throw (PositionOccupied (row (position p)) (col (position p))), h).
Proof.
  intros Hp Hin [cells Hcells] Hocc. unfold placePawn.
  rewrite (bind_ok _ _ _ _ _ (get_pawn_ok _ _ _ Hp)).
  rewrite (bind_ok _ _ _ _ _ (get_board_rep R)).
  unfold in_bounds in Hin.
  rewrite (rep_width _ _ _ _ _ _ R), (rep_height _ _ _ _ _ _ R) in Hin.
  replace (_ || _ || _ || _) with false by (symmetry; lia).
  unfold mbind at 1, M_bind at 1. rewrite (grid_get_rep R), Hcells.
  unfold cell in Hocc. rewrite Hcells in Hocc.
  by destruct (read_slot cells (col (position p))).
Qed.

Lemma placePawn_ok pawn p :
  pawn_at h pawn = Some p → in_bounds v (position p) = true →
  cell v (position p) = VNull →
  ∃ h', placePawn board pawn h = (Ok tt, h') ∧
    length h' = length h ∧
    rep h' board b (reg_set (id p) pawn reg) rows (place_view v p) ∧
    (∀ l q, pawn_at h l = Some q → pawn_at h' l = Some q) ∧
    (∀ n, (n ≤ pawns b)%nat → Forall (λ l, n ≤ l)%nat rows →
          take n h' = take n h).
Proof.
  intros Hp Hin Hnull. unfold placePawn.
  rewrite (bind_ok _ _ _ _ _ (get_pawn_ok _ _ _ Hp)).
  rewrite (bind_ok _ _ _ _ _ (get_board_rep R)).
  pose proof Hin as Hin'. unfold in_bounds in Hin'.
  rewrite (rep_width _ _ _ _ _ _ R), (rep_height _ _ _ _ _ _ R) in Hin'.
  replace (_ || _ || _ || _) with false by (symmetry; lia).
  destruct (cell_row_present v (position p)) as [cells Hcells];
    [by rewrite Hnull|].
  unfold mbind at 1, M_bind at 1. rewrite (grid_get_rep R), Hcells.
  unfold cell in Hnull. rewrite Hcells in Hnull. rewrite Hnull. simpl.
  destruct (pawns_set_rep R pawn p Hp Hin) as [Hset R1].
  rewrite (bind_ok _ _ _ _ _ Hset).
  assert (arr_get (v_grid (register v p)) (row (position p)) = Some cells)
    as Hcells' by (by rewrite register_grid).
  destruct (grid_set_rep R1 (row (position p)) (col (position p))
              (VStr (id p)) cells Hcells') as (rl & Hrl & Hgs & R2).
  eexists. split; [exact Hgs|]. split; [by rewrite !length_insert|].
  split; [|split].
  - unfold place_view. by destruct (position p).
  - intros l q Hq.
    rewrite pawn_at_insert_other; [|
      |done].
    + rewrite pawn_at_insert_other; [done| |done].
      unfold pawn_at. by rewrite (rep_reg _ _ _ _ _ _ R).
    + pose proof (rows_lookup_view R1 (row (position p))) as Hl.
      rewrite Hrl, Hcells' in Hl.
      unfold pawn_at. by rewrite Hl.
  - intros n Hn Hrows.
    rewrite take_insert_ge, take_insert_ge; [done|done|].
    unfold arr_get in Hrl. destruct (row (position p) <? 0); [done|].
    eapply Forall_lookup_1 in Hrows; [|exact Hrl]. done.
Qed.

Lemma placePawn_row_missing pawn p :
  pawn_at h pawn = Some p → in_bounds v (position p) = true →
  arr_get (v_grid v) (row (position p)) = None →
  placePawn board pawn h = (Throw TypeError, h).
Proof.
  intros Hp Hin Hnone. unfold placePawn.
  rewrite (bind_ok _ _ _ _ _ (get_pawn_ok _ _ _ Hp)).
  rewrite (bind_ok _ _ _ _ _ (get_board_rep R)).
  unfold in_bounds in Hin.
  rewrite (rep_width _ _ _ _ _ _ R), (rep_height _ _ _ _ _ _ R) in Hin.
  replace (_ || _ || _ || _) with false by (symmetry; lia).
  unfold mbind at 1, M_bind at 1. by rewrite (grid_get_rep R), Hnone.
Qed.

(** The ways a call of [placePawn] can end. *)
Lemma placePawn_cases pawn p :
  pawn_at h pawn = Some p →
  placePawn board pawn h = (Throw InvalidPosition, h) ∨
  placePawn board pawn h = (Throw TypeError, h) ∨
  placePawn board pawn h =
    (Throw (PositionOccupied (row (position p)) (col (position p))), h) ∨
  (in_bounds v (position p) = true ∧ cell v (position p) = VNull).
Proof.
  intros Hp.
  destruct (in_bounds v (position p)) eqn:Hin;
    [|left; by apply (placePawn_out_of_bounds pawn p)].
  destruct (arr_get (v_grid v) (row (position p))) as [cells|] eqn:Hrow;
    [|right; left; by apply (placePawn_row_missing pawn p)].
  destruct (decide (cell v (position p) = VNull)) as [Hn|Hn].
  - right; right; right. done.
  - right; right; left. apply placePawn_occupied; eauto.
Qed.

Lemma removePawn_absent pawnId :
  v_get v pawnId = Absent ∨ v_get v pawnId = Inherited false →
  removePawn board pawnId h = (Ok tt, h).
Proof.
  intros Hk. unfold removePawn. destruct Hk as [Hk|Hk].
  - by rewrite (bind_ok _ _ _ _ _ (pawns_get_absent R pawnId Hk)).
  - by rewrite (bind_ok _ _ _ _ _ (pawns_get_inherited R pawnId _ Hk)).
Qed.

(** [pawns[pawnId]] is something truthy that is no pawn record: its
    [position] is [undefined]. *)
Lemma removePawn_inherited pawnId :
  v_get v pawnId = Inherited true →
  removePawn board pawnId h = (Throw TypeError, h).
Proof.
  intros Hk. unfold removePawn.
  by rewrite (bind_ok _ _ _ _ _ (pawns_get_inherited R pawnId _ Hk)).
Qed.

Lemma removePawn_row_missing pawnId p :
  v_get v pawnId = Entry p →
  arr_get (v_grid v) (row (position p)) = None →
  removePawn board pawnId h = (Throw TypeError, h).
Proof.
  intros Hk Hnone. unfold removePawn.
  destruct (pawns_get_entry R pawnId p Hk) as (pawn & Hget & Hp).
  rewrite (bind_ok _ _ _ _ _ Hget).
  rewrite (bind_ok _ _ _ _ _ (get_pawn_ok _ _ _ (proj2 (pawn_at_Some _ _ _) Hp))).
  by rewrite (bind_throw _ _ _ _ _ (grid_set_row_missing R _ _ _ Hnone)).
Qed.

Lemma removePawn_present pawnId p :
  v_get v pawnId = Entry p →
  is_Some (arr_get (v_grid v) (row (position p))) →
  ∃ h', removePawn board pawnId h = (Ok tt, h') ∧
    length h' = length h ∧
    rep h' board b (reg_delete pawnId reg) rows (remove_view v pawnId p).
Proof.
  intros Hk [cells Hcells]. unfold removePawn.
  destruct (pawns_get_entry R pawnId p Hk) as (pawn & Hget & Hp).
  rewrite (bind_ok _ _ _ _ _ Hget).
  rewrite (bind_ok _ _ _ _ _ (get_pawn_ok _ _ _ (proj2 (pawn_at_Some _ _ _) Hp))).
  destruct (grid_set_rep R (row (position p)) (col (position p))
              VNull cells Hcells) as (rl & Hrl & Hgs & R1).
  rewrite (bind_ok _ _ _ _ _ Hgs).
  destruct (pawns_delete_rep R1 pawnId) as [Hdel R2].
  eexists. split; [exact Hdel|]. split; [by rewrite !length_insert|].
  unfold remove_view. by destruct (position p).
Qed.

(** The ways a call of [removePawn] can end. *)
Lemma removePawn_cases pawnId :
  removePawn board pawnId h = (Ok tt, h) ∨
  removePawn board pawnId h = (Throw TypeError, h) ∨
  ∃ p, v_get v pawnId = Entry p ∧
       is_Some (arr_get (v_grid v) (row (position p))).
Proof.
  destruct (v_get v pawnId) as [|p|[|]] eqn:Hk.
  - left. apply removePawn_absent. by left.
  - destruct (arr_get (v_grid v) (row (position p))) eqn:Hrow.
    + right; right. exists p. eauto.
    + right; left. by eapply removePawn_row_missing.
  - right; left. by apply removePawn_inherited.
  - left. apply removePawn_absent. by right.
Qed.
End place_remove.

(** *** addPawn *)

Section add.
Context {h : heap} {board : loc} {b : Board} {reg : Registry}
  {rows : list loc} {v : BoardView} (R : rep h board b reg rows v).

Lemma addPawn_out_of_bounds now rnd up color r c :
  in_bounds v (mkPosition r c) = false →
  addPawn now rnd up board color r c h = (Throw AddOutOfBounds, h).
Proof.
  intros Hin. unfold addPawn.
  rewrite (bind_ok _ _ _ _ _ (isValidPosition_rep R r c)). by rewrite Hin.
Qed.

Lemma addPawn_row_missing now rnd up color r c :
  in_bounds v (mkPosition r c) = true → arr_get (v_grid v) r = None →
  addPawn now rnd up board color r c h = (Throw TypeError, h).
Proof.
  intros Hin Hnone. unfold addPawn.
  rewrite (bind_ok _ _ _ _ _ (isValidPosition_rep R r c)). rewrite Hin. simpl.
  unfold mbind at 1, M_bind at 1. by rewrite (grid_get_rep R), Hnone.
Qed.

Lemma addPawn_occupied now rnd up color r c :
  in_bounds v (mkPosition r c) = true →
  is_Some (arr_get (v_grid v) r) → cell v (mkPosition r c) ≠ VNull →
  addPawn now rnd up board color r c h = (Throw (SquareOccupied r c), h).
Proof.
  intros Hin [cells Hcells] Hocc. unfold addPawn.
  rewrite (bind_ok _ _ _ _ _ (isValidPosition_rep R r c)). rewrite Hin. simpl.
  unfold mbind at 1, M_bind at 1. rewrite (grid_get_rep R), Hcells.
  unfold cell in Hocc. simpl in Hocc. rewrite Hcells in Hocc.
  by destruct (read_slot cells c).
Qed.

Lemma addPawn_no_colour now rnd up r c :
  in_bounds v (mkPosition r c) = true → cell v (mkPosition r c) = VNull →
  addPawn now rnd up board EmptyString r c h = (Throw TypeError, h).
Proof.
  intros Hin Hnull. unfold addPawn.
  rewrite (bind_ok _ _ _ _ _ (isValidPosition_rep R r c)). rewrite Hin. simpl.
  destruct (cell_row_present v (mkPosition r c)) as [cells Hcells];
    [by rewrite Hnull|]. simpl in Hcells.
  unfold mbind at 1, M_bind at 1. rewrite (grid_get_rep R), Hcells.
  unfold cell in Hnull. simpl in Hnull. rewrite Hcells in Hnull.
  by rewrite Hnull.
Qed.

Lemma addPawn_ok now rnd up c0 rest r c :
  in_bounds v (mkPosition r c) = true → cell v (mkPosition r c) = VNull →
  let p := {| id := new_id up c0 now rnd; color := String c0 rest;
              position := mkPosition r c; hasMoved := false |} in
  ∃ h', addPawn now rnd up board (String c0 rest) r c h = (Ok (length h), h') ∧
    length h' = S (length h) ∧
    pawn_at h' (length h) = Some p ∧
    rep h' board b (reg_set (id p) (length h) reg) rows (place_view v p) ∧
    (∀ l q, pawn_at h l = Some q → pawn_at h' l = Some q).
Proof.
  intros Hin Hnull p. unfold addPawn.
  rewrite (bind_ok _ _ _ _ _ (isValidPosition_rep R r c)). rewrite Hin. simpl.
  destruct (cell_row_present v (mkPosition r c)) as [cells Hcells];
    [by rewrite Hnull|]. simpl in Hcells.
  unfold mbind at 1, M_bind at 1. rewrite (grid_get_rep R), Hcells.
  pose proof Hnull as Hnull'.
  unfold cell in Hnull'. simpl in Hnull'. rewrite Hcells in Hnull'.
  rewrite Hnull'. simpl.
  unfold mbind at 1, M_bind at 1, alloc at 1. fold p.
  pose proof (rep_alloc R (OPawn p)) as R1.
  assert (pawn_at (h ++ [OPawn p]) (length h) = Some p) as Hp.
  { apply pawn_at_Some. by apply list_lookup_middle. }
  destruct (placePawn_ok R1 (length h) p Hp Hin Hnull)
    as (h' & Hrun & Hlen & R2 & Hkeep & _).
  rewrite (bind_ok _ _ _ _ _ Hrun).
  exists h'. split; [done|]. split.
  { rewrite Hlen, length_app. simpl. lia. }
  split; [by apply Hkeep|]. split; [done|].
  intros l q Hq. apply Hkeep. by apply pawn_at_alloc.
Qed.

(** The ways a call of [addPawn] can end. *)
Lemma addPawn_cases now rnd up color r c :
  addPawn now rnd up board color r c h = (Throw AddOutOfBounds, h) ∨
  addPawn now rnd up board color r c h = (Throw TypeError, h) ∨
  addPawn now rnd up board color r c h = (Throw (SquareOccupied r c), h) ∨
  (in_bounds v (mkPosition r c) = true ∧ cell v (mkPosition r c) = VNull ∧
   color ≠ EmptyString).
Proof.
  destruct (in_bounds v (mkPosition r c)) eqn:Hin;
    [|left; by apply addPawn_out_of_bounds].
  destruct (arr_get (v_grid v) r) as [cells|] eqn:Hrow;
    [|right; left; by apply addPawn_row_missing].
  destruct (decide (cell v (mkPosition r c) = VNull)) as [Hn|Hn].
  - destruct color as [|c0 rest].
    + right; left. by apply addPawn_no_colour.
    + right; right; right. done.
  - right; right; left. apply addPawn_occupied; eauto.
Qed.
End add.

(** *** Copying a board *)

Lemma pawn_at_app h ext l p :
  pawn_at h l = Some p → pawn_at (h ++ ext) l = Some p.
Proof.
  intros Hp. apply pawn_at_Some. apply pawn_at_Some in Hp.
  by apply lookup_app_l_Some.
Qed.

Lemma slice_rows_run rows cellss h1 :
  Forall2 (λ l cs, h1 !! l = Some (ORow cs)) rows cellss →
  mapM (λ row, cells ← get_row row; alloc (ORow cells)) rows h1 =
    (Ok (seq (length h1) (length rows)), h1 ++ (ORow <$> cellss)).
Proof.
  intros HF. revert h1 cellss HF.
  induction rows as [|l rows IH]; intros h1 cellss HF.
  - apply Forall2_nil_inv_l in HF as ->. simpl.
    by rewrite app_nil_r.
  - apply Forall2_cons_inv_l in HF as (cs & css & Hl & HF & ->).
    simpl. unfold mbind at 1, M_bind at 1.
    unfold mbind at 1, M_bind at 1.
    unfold get_row at 1, deref, mbind at 1, M_bind at 1. rewrite Hl.
    unfold mret at 1, M_ret at 1, alloc at 1.
    unfold mbind at 1, M_bind at 1.
    rewrite (IH (h1 ++ [ORow cs]) css).
    + unfold mret, M_ret. rewrite length_app. simpl.
      replace (length h1 + 1)%nat with (S (length h1)) by lia.
      by rewrite <- app_assoc.
    + eapply Forall2_impl; [exact HF|]. intros ???.
      by apply lookup_app_l_Some.
Qed.

Section clone.
Context {h : heap} {board : loc} {b : Board} {reg : Registry}
  {rows : list loc} {v : BoardView} (R : rep h board b reg rows v).

Lemma clone_board_run :
  clone_board board h =
    (Ok (S (S (length h) + length rows))%nat, h ++ clone_ext h b reg rows v).
Proof.
  unfold clone_board.
  rewrite (bind_ok _ _ _ _ _ (get_board_rep R)).
  rewrite (bind_ok _ _ _ _ _ (get_registry_rep R)).
  unfold mbind at 1, M_bind at 1, alloc at 1.
  assert (rep (h ++ [ORegistry (reg_assign reg)]) board b reg rows v) as R1
    by apply (rep_alloc R).
  rewrite (bind_ok _ _ _ _ _ (get_grid_rep R1)).
  unfold mbind at 1, M_bind at 1.
  rewrite (slice_rows_run rows (v_grid v)) by apply (rep_rows _ _ _ _ _ _ R1).
  unfold mbind at 1, M_bind at 1, alloc.
  assert (length (v_grid v) = length rows) as Hlen.
  { symmetry. eapply Forall2_length, (rep_rows _ _ _ _ _ _ R). }
  rewrite !length_app, length_fmap, Hlen. simpl.
  unfold clone_ext. f_equal.
  - do 2 f_equal. lia.
  - rewrite <- !app_assoc. simpl. do 4 f_equal.
    + do 2 f_equal. lia.
    + do 3 f_equal. lia.
Qed.

Lemma reg_assign_rep : reg_assign reg = {| own := own reg; proto := None |}.
Proof.
  unfold reg_assign. rewrite (rep_own _ _ _ _ _ _ R).
  by rewrite delete_id by apply (rep_own _ _ _ _ _ _ R).
Qed.

(** The copy has the own entries of the original and [Object.prototype]
    behind them. *)
Lemma clone_board_rep :
  rep (h ++ clone_ext h b reg rows v) (S (S (length h) + length rows))%nat
    {| width := width b; height := height b; pawns := length h;
       grid := (S (length h) + length rows)%nat |}
    (reg_assign reg) (seq (S (length h)) (length rows)) (set_proto v None).
Proof.
  pose proof reg_assign_rep as Hra.
  destruct R as [Hb Hr Hg Hrows Ht Hn Hw Hh Hp Ho Hpr Hpv].
  assert (length (v_grid v) = length rows) as Hlen.
  { symmetry. by eapply Forall2_length. }
  assert (∀ i, (h ++ clone_ext h b reg rows v) !! (length h + i)%nat =
               clone_ext h b reg rows v !! i) as Hext.
  { intros i. rewrite lookup_app_r by lia. f_equal. lia. }
  assert (∀ i, i < length rows →
    clone_ext h b reg rows v !! S i = ORow <$> (v_grid v !! i))%nat as Hrowi.
  { intros i Hi. unfold clone_ext. simpl.
    rewrite lookup_app_l by (rewrite length_fmap; lia).
    by rewrite list_lookup_fmap. }
  rewrite Hra. split; simpl.
  - replace (S (S (length h + length rows)))
      with (length h + S (S (length rows)))%nat by lia.
    rewrite Hext. unfold clone_ext. simpl.
    rewrite lookup_app_r by (rewrite length_fmap; lia).
    rewrite length_fmap, Hlen.
    replace (S (length rows) - length rows)%nat with 1%nat by lia. done.
  - replace (length h) with (length h + 0)%nat at 1 by lia.
    rewrite Hext. unfold clone_ext. simpl. by rewrite Hra.
  - replace (S (length h + length rows))
      with (length h + S (length rows))%nat by lia.
    rewrite Hext. unfold clone_ext. simpl.
    rewrite lookup_app_r by (rewrite length_fmap; lia).
    rewrite length_fmap, Hlen.
    by replace (length rows - length rows)%nat with 0%nat by lia.
  - apply Forall2_same_length_lookup. split.
    { by rewrite length_seq. }
    intros i l cs Hl Hcs. apply lookup_seq in Hl as [-> Hi].
    replace (S (length h) + i)%nat with (length h + S i)%nat by lia.
    rewrite Hext, Hrowi by done. by rewrite Hcs.
  - intros k l Hk. destruct (Ht k l Hk) as [p Hpl]. exists p.
    by apply pawn_at_app.
  - apply NoDup_seq.
  - done.
  - done.
  - rewrite Hp. apply map_eq. intros k.
    rewrite !lookup_omap.
    destruct (own reg !! k) as [l|] eqn:E; [|done]. simpl.
    destruct (Ht k l E) as [p Hpl]. rewrite Hpl. symmetry.
    by apply pawn_at_app.
  - done.
  - done.
  - done.
Qed.
End clone.

(** *** movePawn *)

Lemma some_equal_elem moves target :
  some_equal moves target = true ↔ target ∈ moves.
Proof.
  unfold some_equal. rewrite existsb_exists. split.
  - intros (pos & Hin & Heq). apply list_elem_of_In in Hin.
    destruct pos as [r1 c1], target as [r2 c2]; simpl in *.
    replace r2 with r1 by lia. replace c2 with c1 by lia. done.
  - intros Hin. exists target. split; [by apply list_elem_of_In|lia].
Qed.

Lemma allowed_moves_cases v p pos :
  pos ∈ allowed_moves v p →
  (pos = forward_one p ∧ forward_ok v pos = true) ∨
  (pos = forward_two p ∧ forward_ok v (forward_one p) = true ∧
     hasMoved p = false ∧ forward_ok v pos = true) ∨
  (pos = diagonal_left p ∧ capture_ok v p pos = true) ∨
  (pos = diagonal_right p ∧ capture_ok v p pos = true).
Proof.
  unfold allowed_moves. rewrite !elem_of_app. intros [H|[H|H]].
  - destruct (forward_ok v (forward_one p)) eqn:E1; [|by apply elem_of_nil in H].
    apply elem_of_cons in H as [->|H]; [by left|].
    destruct (hasMoved p) eqn:Em; simpl in H; [by apply elem_of_nil in H|].
    destruct (forward_ok v (forward_two p)) eqn:E2; [|by apply elem_of_nil in H].
    apply list_elem_of_singleton in H as ->. right; left. done.
  - destruct (capture_ok v p (diagonal_left p)) eqn:E; [|by apply elem_of_nil in H].
    apply list_elem_of_singleton in H as ->. right; right; left. done.
  - destruct (capture_ok v p (diagonal_right p)) eqn:E; [|by apply elem_of_nil in H].
    apply list_elem_of_singleton in H as ->. right; right; right. done.
Qed.

Lemma allowed_moves_in_bounds v p pos :
  pos ∈ allowed_moves v p → in_bounds v pos = true.
Proof.
  intros H. unfold forward_ok, capture_ok in *.
  destruct (allowed_moves_cases v p pos H) as [[_ E]|[(_ & _ & _ & E)|[[_ E]|[_ E]]]];
    by apply andb_true_iff in E as [? _].
Qed.

Lemma set_cell_length v pos x :
  length (v_grid (set_cell v pos x)) = length (v_grid v).
Proof.
  unfold set_cell; simpl. destruct (arr_get (v_grid v) (row pos)); [|done].
  by rewrite length_insert.
Qed.

Lemma set_cell_rows_present v pos x :
  rows_present v → rows_present (set_cell v pos x).
Proof. unfold rows_present. by rewrite set_cell_length. Qed.

Lemma set_cell_in_bounds v pos x pos' :
  in_bounds (set_cell v pos x) pos' = in_bounds v pos'.
Proof. done. Qed.

Section move.
Context {h : heap} {board : loc} {b : Board} {reg : Registry}
  {rows : list loc} {v : BoardView} (R : rep h board b reg rows v).

Lemma movePawn_not_found pawnId target :
  v_get v pawnId = Absent ∨ v_get v pawnId = Inherited false →
  movePawn board pawnId target h = (Throw (PawnNotFound pawnId), h).
Proof.
  intros Hk. unfold movePawn. destruct Hk as [Hk|Hk].
  - by rewrite (bind_ok _ _ _ _ _ (pawns_get_absent R pawnId Hk)).
  - by rewrite (bind_ok _ _ _ _ _ (pawns_get_inherited R pawnId _ Hk)).
Qed.

(** [pawns[pawnId]] is something truthy that is no pawn record: the
    guard lets it through and [getPawnAllowedMoves] fails on its
    [position]. *)
Lemma movePawn_inherited pawnId target :
  v_get v pawnId = Inherited true →
  movePawn board pawnId target h = (Throw TypeError, h).
Proof.
  intros Hk. unfold movePawn.
  by rewrite (bind_ok _ _ _ _ _ (pawns_get_inherited R pawnId _ Hk)).
Qed.

Hypothesis rows_ok : rows_present v.

Lemma movePawn_illegal pawnId p target :
  v_get v pawnId = Entry p →
  target ∉ allowed_moves v p →
  movePawn board pawnId target h =
    (Throw (IllegalMove pawnId (row target) (col target)), h).
Proof.
  intros Hk Hnot. unfold movePawn.
  destruct (pawns_get_entry R pawnId p Hk) as (pawn & Hget & Hp').
  rewrite (bind_ok _ _ _ _ _ Hget).
  apply pawn_at_Some in Hp'.
  rewrite (bind_ok _ _ _ _ _ (getPawnAllowedMoves_rep R rows_ok pawn p Hp')).
  destruct (some_equal (allowed_moves v p) target) eqn:E; [|done].
  by apply some_equal_elem in E.
Qed.

(** A legal move of the record found under [pawnId], with the registry
    of the returned board spelled out: the own entries of the input
    registry, without the entry of the id found in the target cell,
    and with the moved record registered. *)
Lemma movePawn_registry pawnId p target :
  v_get v pawnId = Entry p →
  target ∈ allowed_moves v p →
  is_Some (arr_get (v_grid v) (row (position p))) →
  ∃ newBoard updatedPawn h' b' rows',
    movePawn board pawnId target h = (Ok (newBoard, updatedPawn), h') ∧
    take (length h) h' = h ∧
    rep h' newBoard b'
      (reg_set (id p) updatedPawn
         (match truthy (cell (set_cell (set_proto v None) (position p) VNull)
                          target) with
          | Some targetId => reg_delete targetId (reg_assign reg)
          | None => reg_assign reg
          end))
      rows' (move_view v p target) ∧
    pawn_at h' updatedPawn = Some (moved p target) ∧
    (length h ≤ newBoard)%nat ∧ (length h ≤ updatedPawn)%nat ∧
    (length h ≤ pawns b')%nat ∧ (length h ≤ grid b')%nat ∧
    Forall (λ l, length h ≤ l)%nat rows'.
Proof.
  intros Hk Hlegal [cells Hcells]. unfold movePawn.
  destruct (pawns_get_entry R pawnId p Hk) as (pawn & Hget & Hp').
  rewrite (bind_ok _ _ _ _ _ Hget).
  apply pawn_at_Some in Hp'.
  rewrite (bind_ok _ _ _ _ _ (getPawnAllowedMoves_rep R rows_ok pawn p Hp')).
  rewrite (proj2 (some_equal_elem _ _) Hlegal). simpl.
  rewrite (bind_ok _ _ _ _ _ (clone_board_run R)).
  pose proof (clone_board_rep R) as R0.
  set (h0 := h ++ clone_ext h b reg rows v) in *.
  set (nb := S (S (length h) + length rows)) in *.
  set (b' := {| width := width b; height := height b; pawns := length h;
                grid := (S (length h) + length rows)%nat |}) in *.
  set (rows' := seq (S (length h)) (length rows)) in *.
  assert (take (length h) h0 = h) as T0 by apply take_app_length.
  assert (∀ r rl, arr_get rows' r = Some rl → (length h ≤ rl)%nat) as Hfresh.
  { intros r rl. unfold arr_get. destruct (r <? 0); [done|].
    intros [-> _]%lookup_seq. lia. }
  rewrite (bind_ok _ _ _ _ _ (get_pawn_ok h0 pawn p (pawn_at_app _ _ _ _ Hp'))).
  (* clear the old square *)
  destruct (grid_set_rep R0 (row (position p)) (col (position p)) VNull
              cells Hcells) as (rl1 & Hrl1 & Hgs1 & R1).
  rewrite (bind_ok _ _ _ _ _ Hgs1).
  set (h1 := <[rl1 := _]> h0) in *.
  assert (take (length h) h1 = h) as T1.
  { unfold h1. rewrite take_insert_ge; [done|by eapply Hfresh]. }
  replace (mkPosition (row (position p)) (col (position p)))
    with (position p) in R1 by (by destruct (position p)).
  set (v1 := set_cell (set_proto v None) (position p) VNull) in *.
  assert (rows_present v1) as rows_ok1
    by (apply set_cell_rows_present; exact rows_ok).
  (* read the target cell *)
  assert (in_bounds v1 target = true) as Hin
    by exact (allowed_moves_in_bounds v p target Hlegal).
  pose proof (grid_get_in_bounds R1 rows_ok1 (row target) (col target)) as Hgg.
  replace (mkPosition (row target) (col target)) with target in Hgg
    by (by destruct target).
  rewrite (bind_ok _ _ _ _ _ (Hgg Hin)).
  (* capture *)
  set (reg2 := match truthy (cell v1 target) with
               | Some targetId => reg_delete targetId (reg_assign reg)
               | None => reg_assign reg
               end).
  set (ps := match truthy (cell v1 target) with
             | Some targetId => delete targetId (v_pawns v1)
             | None => v_pawns v1
             end).
  assert (∃ h2,
    (match truthy (cell v1 target) with
     | Some targetId => pawns_delete nb targetId
     | None => mret tt
     end) h1 = (Ok tt, h2) ∧ take (length h) h2 = h ∧
    rep h2 nb b' reg2 rows' (set_pawns v1 ps) ∧
    (∀ l q, pawn_at h1 l = Some q → pawn_at h2 l = Some q))
    as (h2 & Hcap & T2 & R2 & Hp2).
  { unfold reg2, ps. destruct (truthy (cell v1 target)) as [t|].
    - destruct (pawns_delete_rep R1 t) as [Hdel Rd].
      eexists. split; [exact Hdel|]. split; [|split; [exact Rd|]].
      + rewrite take_insert_ge; [done|]. simpl. lia.
      + intros l q Hq. rewrite pawn_at_insert_other; [done| |done].
        unfold pawn_at. by rewrite (rep_reg _ _ _ _ _ _ R1).
    - exists h1. split; [done|]. split; [done|]. split; [|done].
      by destruct v1. }
  rewrite (bind_ok _ _ _ _ _ Hcap).
  (* the moved record *)
  unfold mbind at 1, M_bind at 1, alloc at 1.
  pose proof (rep_alloc R2 (OPawn (moved p target))) as R3.
  fold (moved p target).
  set (h3 := h2 ++ [OPawn (moved p target)]) in *.
  assert (length h ≤ length h2)%nat as Hlen2.
  { rewrite <- T2 at 1. rewrite length_take. lia. }
  assert (take (length h) h3 = h) as T3.
  { unfold h3. rewrite take_app_le by done. done. }
  assert (pawn_at h3 (length h2) = Some (moved p target)) as Hup.
  { apply pawn_at_Some. unfold h3. by apply list_lookup_middle. }
  assert (in_bounds (set_pawns v1 ps) (position (moved p target)) = true)
    as Hin'.
  { simpl. destruct target; exact Hin. }
  destruct (pawns_set_rep R3 (length h2) (moved p target) Hup Hin')
    as [Hset R4].
  change (id (moved p target)) with (id p) in Hset, R4.
  rewrite (bind_ok _ _ _ _ _ Hset).
  set (h4 := <[pawns b' := _]> h3) in *.
  assert (take (length h) h4 = h) as T4.
  { unfold h4. rewrite take_insert_ge; [done|]. simpl. lia. }
  (* write the target cell *)
  destruct (in_bounds_row_present v1 target rows_ok1 Hin) as [tcells Htcells].
  assert (arr_get (v_grid (register (set_pawns v1 ps) (moved p target)))
            (row target) = Some tcells) as Htcells'
    by (by rewrite register_grid).
  destruct (grid_set_rep R4 (row target) (col target) (VStr (id p))
              tcells Htcells') as (rl5 & Hrl5 & Hgs5 & R5).
  rewrite (bind_ok _ _ _ _ _ Hgs5).
  replace (mkPosition (row target) (col target)) with target in R5
    by (by destruct target).
  eexists nb, (length h2), _, b', rows'.
  split; [reflexivity|]. split.
  { rewrite take_insert_ge; [done|by eapply Hfresh]. }
  split; [exact R5|]. split.
  { rewrite pawn_at_insert_other; [| |done].
    - unfold h4. rewrite pawn_at_insert_other; [done| |done].
      unfold pawn_at. by rewrite (rep_reg _ _ _ _ _ _ R3).
    - pose proof (rows_lookup_view R4 (row target)) as Hl.
      rewrite Hrl5, Htcells' in Hl. unfold pawn_at. by rewrite Hl. }
  split; [unfold nb; lia|]. split; [done|]. split; [done|].
  split; [simpl; lia|].
  apply Forall_forall. intros l [i [-> _]%lookup_seq]%list_elem_of_lookup. lia.
Qed.

Lemma movePawn_ok pawnId p target :
  v_get v pawnId = Entry p →
  target ∈ allowed_moves v p →
  is_Some (arr_get (v_grid v) (row (position p))) →
  ∃ newBoard updatedPawn h' b' reg' rows',
    movePawn board pawnId target h = (Ok (newBoard, updatedPawn), h') ∧
    take (length h) h' = h ∧
    rep h' newBoard b' reg' rows' (move_view v p target) ∧
    pawn_at h' updatedPawn = Some (moved p target) ∧
    (length h ≤ newBoard)%nat ∧ (length h ≤ updatedPawn)%nat ∧
    (length h ≤ pawns b')%nat ∧ (length h ≤ grid b')%nat ∧
    Forall (λ l, length h ≤ l)%nat rows'.
Proof.
  intros Hk Hlegal Hrow.
  destruct (movePawn_registry pawnId p target Hk Hlegal Hrow)
    as (nb & up & h' & b' & rows' & H).
  by eexists nb, up, h', b', _, rows'.
Qed.
End move.

(** *** Reading a cell after a write *)

Lemma read_slot_arr_set_eq cells c x :
  0 ≤ c → read_slot (arr_set cells c x) c = x.
Proof.
  intros Hc. unfold read_slot, arr_set, arr_get.
  destruct (c <? 0) eqn:E; [lia|].
  destruct (Z.to_nat c <? length cells)%nat eqn:E2.
  - apply Nat.ltb_lt in E2. by rewrite list_lookup_insert_eq.
  - apply Nat.ltb_ge in E2.
    rewrite lookup_app_r by done.
    rewrite lookup_app_r by (rewrite length_replicate; lia).
    rewrite length_replicate.
    by replace (Z.to_nat c - length cells - (Z.to_nat c - length cells))%nat
      with 0%nat by lia.
Qed.

Lemma read_slot_arr_set_ne cells c x c' :
  c ≠ c' → read_slot (arr_set cells c x) c' = read_slot cells c'.
Proof.
  intros Hne. unfold read_slot, arr_set, arr_get.
  destruct (c' <? 0) eqn:E'; [done|].
  destruct (c <? 0) eqn:E; [done|].
  assert (Z.to_nat c ≠ Z.to_nat c') as Hn by lia.
  destruct (Z.to_nat c <? length cells)%nat eqn:E2.
  - by rewrite list_lookup_insert_ne.
  - apply Nat.ltb_ge in E2.
    destruct (decide (Z.to_nat c' < length cells)%nat) as [Hlt|Hge].
    + by rewrite lookup_app_l.
    + rewrite (lookup_ge_None_2 cells) by lia.
      rewrite lookup_app_r by lia.
      destruct (decide (Z.to_nat c' < Z.to_nat c)%nat) as [Hlt|Hge'].
      * rewrite lookup_app_l by (rewrite length_replicate; lia).
        rewrite lookup_replicate_2 by lia. done.
      * rewrite lookup_ge_None_2; [done|].
        rewrite length_app, length_replicate. simpl. lia.
Qed.

Lemma cell_set_cell_eq v pos x :
  is_Some (arr_get (v_grid v) (row pos)) → 0 ≤ col pos →
  cell (set_cell v pos x) pos = x.
Proof.
  intros [cells Hcells] Hc. unfold cell, set_cell; simpl. rewrite Hcells.
  unfold arr_get in *. destruct (row pos <? 0); [done|].
  rewrite list_lookup_insert_eq by (by eapply lookup_lt_Some).
  by apply read_slot_arr_set_eq.
Qed.

Lemma cell_set_cell_ne v pos x pos' :
  pos ≠ pos' → cell (set_cell v pos x) pos' = cell v pos'.
Proof.
  intros Hne. unfold cell, set_cell; simpl.
  destruct (arr_get (v_grid v) (row pos)) as [cells|] eqn:Hcells; [|done].
  unfold arr_get in *.
  destruct (row pos' <? 0) eqn:E'; [done|].
  destruct (row pos <? 0) eqn:E; [done|].
  destruct (decide (row pos = row pos')) as [Hr|Hr].
  - rewrite <- Hr. rewrite list_lookup_insert_eq by (by eapply lookup_lt_Some).
    rewrite Hcells. apply read_slot_arr_set_ne.
    intros Hc. apply Hne. destruct pos, pos'; simpl in *; congruence.
  - rewrite list_lookup_insert_ne by lia. done.
Qed.

Lemma cell_defined_col v pos : cell v pos ≠ VUndefined → 0 ≤ col pos.
Proof.
  unfold cell, read_slot, arr_get.
  destruct (v_grid v !! _); [|by destruct (row pos <? 0)].
  destruct (row pos <? 0); [done|].
  destruct (col pos <? 0) eqn:E; [done|]. lia.
Qed.

(** *** The invariant is kept by the three updates *)

Lemma Position_eta pos : mkPosition (row pos) (col pos) = pos.
Proof. by destruct pos. Qed.

Lemma consistent_key v k P :
  consistent v → v_pawns v !! k = Some P → id P = k.
Proof.
  intros (Ha & Hb & Hc) Hk.
  destruct (Ha _ _ (Hb _ _ Hk)) as (P' & HP' & Hpos).
  by apply (Hc _ _ _ _ HP' Hk).
Qed.

(** What [register] and [place_view] do to the parts of a view. *)
Lemma register_other v p :
  id p ≠ "__proto__" →
  register v p = set_pawns v (<[id p := p]> (v_pawns v)).
Proof.
  intros Hne. unfold register.
  destruct (String.eqb (id p) "__proto__") eqn:E; [|done].
  by apply String.eqb_eq in E.
Qed.

Lemma register_proto v p :
  id p = "__proto__" → register v p = set_proto v (Some p).
Proof. intros E. unfold register. by rewrite E. Qed.

Lemma place_view_in_bounds v p pos :
  in_bounds (place_view v p) pos = in_bounds v pos.
Proof.
  unfold place_view. by rewrite set_cell_in_bounds, register_in_bounds.
Qed.

Lemma place_view_width v p : v_width (place_view v p) = v_width v.
Proof. unfold place_view. simpl. by rewrite register_width. Qed.

Lemma place_view_height v p : v_height (place_view v p) = v_height v.
Proof. unfold place_view. simpl. by rewrite register_height. Qed.

Lemma place_view_rows_present v p :
  rows_present v → rows_present (place_view v p).
Proof.
  intros H. unfold place_view. apply set_cell_rows_present.
  unfold rows_present. by rewrite register_grid, register_height.
Qed.

Lemma place_view_cell_eq v p :
  cell v (position p) = VNull → cell (place_view v p) (position p) = VStr (id p).
Proof.
  intros Hnull. unfold place_view. apply cell_set_cell_eq.
  - apply (cell_row_present (register v p)).
    rewrite register_cell. by rewrite Hnull.
  - apply (cell_defined_col v). by rewrite Hnull.
Qed.

Lemma place_view_cell_ne v p pos :
  pos ≠ position p → cell (place_view v p) pos = cell v pos.
Proof.
  intros Hne. unfold place_view.
  by rewrite cell_set_cell_ne, register_cell.
Qed.

Lemma place_view_pawns v p :
  id p ≠ "__proto__" →
  v_pawns (place_view v p) = <[id p := p]> (v_pawns v).
Proof. intros Hne. unfold place_view. by rewrite register_other. Qed.

Lemma place_view_proto v p :
  id p ≠ "__proto__" → v_proto (place_view v p) = v_proto v.
Proof. intros Hne. unfold place_view. by rewrite register_other. Qed.

Lemma place_view_pawns_proto v p :
  id p = "__proto__" →
  v_pawns (place_view v p) = v_pawns v ∧ v_proto (place_view v p) = Some p.
Proof. intros E. unfold place_view. by rewrite register_proto. Qed.

Lemma place_view_consistent v p :
  consistent v → id p ≠ "__proto__" →
  v_pawns v !! id p = None → cell v (position p) = VNull →
  consistent (place_view v p).
Proof.
  intros (Ha & Hb & Hc) Hproto Hfresh Hnull.
  pose proof (place_view_cell_eq v p Hnull) as Hnew.
  pose proof (place_view_cell_ne v p) as Hold.
  assert (∀ k, v_pawns (place_view v p) !! k = <[id p := p]> (v_pawns v) !! k)
    as Hps by (intros; by rewrite place_view_pawns).
  split; [|split].
  - intros pos X Hcell. rewrite Hps.
    destruct (decide (pos = position p)) as [->|Hne].
    + rewrite Hnew in Hcell. simplify_eq. exists p.
      by rewrite lookup_insert_eq.
    + rewrite Hold in Hcell by done.
      destruct (Ha _ _ Hcell) as (P & HP & HPpos). exists P.
      rewrite lookup_insert_ne; [done|]. intros <-. congruence.
  - intros k P. rewrite Hps. intros HP.
    destruct (decide (id p = k)) as [<-|Hne].
    + rewrite lookup_insert_eq in HP. by simplify_eq.
    + rewrite lookup_insert_ne in HP by done.
      pose proof (Hb _ _ HP) as HcP.
      rewrite Hold; [done|]. intros Heq. rewrite Heq in HcP. congruence.
  - intros k1 k2 P1 P2 H1 H2 Hpos. rewrite Hps in H1, H2.
    destruct (decide (id p = k1)) as [<-|Hne1];
      destruct (decide (id p = k2)) as [<-|Hne2]; [done|..].
    + rewrite lookup_insert_eq in H1. rewrite lookup_insert_ne in H2 by done.
      simplify_eq. pose proof (Hb _ _ H2) as HcP. rewrite <- Hpos in HcP.
      congruence.
    + rewrite lookup_insert_eq in H2. rewrite lookup_insert_ne in H1 by done.
      simplify_eq. pose proof (Hb _ _ H1) as HcP. rewrite Hpos in HcP.
      congruence.
    + rewrite lookup_insert_ne in H1, H2 by done. by eapply Hc.
Qed.

Lemma remove_view_consistent v k p :
  consistent v → v_pawns v !! k = Some p → consistent (remove_view v k p).
Proof.
  intros Hcons Hk. pose proof (consistent_key _ _ _ Hcons Hk) as Hid.
  destruct Hcons as (Ha & Hb & Hc).
  pose proof (Hb _ _ Hk) as Hsrc.
  assert (cell (remove_view v k p) (position p) = VNull) as Hnew.
  { unfold remove_view.
    change (cell (set_cell v (position p) VNull) (position p) = VNull).
    apply cell_set_cell_eq.
    - apply (cell_row_present v). by rewrite Hsrc.
    - apply (cell_defined_col v). by rewrite Hsrc. }
  assert (∀ pos, pos ≠ position p → cell (remove_view v k p) pos = cell v pos)
    as Hold.
  { intros pos Hne. unfold remove_view.
    change (cell (set_cell v (position p) VNull) pos = cell v pos).
    by rewrite cell_set_cell_ne. }
  assert (∀ k', v_pawns (remove_view v k p) !! k' = delete k (v_pawns v) !! k')
    as Hps by done.
  split; [|split].
  - intros pos X Hcell. rewrite Hps.
    destruct (decide (pos = position p)) as [->|Hne]; [congruence|].
    rewrite Hold in Hcell by done.
    destruct (Ha _ _ Hcell) as (P & HP & HPpos). exists P.
    rewrite lookup_delete_ne; [done|]. intros <-. congruence.
  - intros k' P. rewrite Hps. intros HP.
    apply lookup_delete_Some in HP as [Hne HP].
    rewrite Hold; [by eapply Hb|].
    intros Heq. apply Hne. symmetry. by eapply Hc.
  - intros k1 k2 P1 P2 H1 H2. rewrite Hps in H1, H2.
    apply lookup_delete_Some in H1 as [_ H1].
    apply lookup_delete_Some in H2 as [_ H2]. by eapply Hc.
Qed.

Lemma direction_nonzero p : direction p = 1 ∨ direction p = -1.
Proof. unfold direction. destruct (color p =? "white")%string; auto. Qed.

Lemma allowed_moves_not_source v p target :
  target ∈ allowed_moves v p → target ≠ position p.
Proof.
  intros H Heq. pose proof (direction_nonzero p) as Hd.
  destruct (allowed_moves_cases v p target H)
    as [[E _]|[(E & _)|[[E _]|[E _]]]]; rewrite Heq in E;
    apply (f_equal row) in E; simpl in E;
    unfold forwardRow, twoForwardRow in E; lia.
Qed.

(** What the target cell of a legal move holds: nothing, or a truthy
    id under which [pawns] answers a record of another colour or
    something truthy that is no record. *)
Lemma allowed_moves_target v p target :
  target ∈ allowed_moves v p →
  cell v target = VNull ∨
  ∃ X, cell v target = VStr X ∧ truthy (cell v target) = Some X ∧
       match v_get v X with
       | Entry q => color q ≠ color p
       | Inherited t => t = true
       | Absent => False
       end ∧
       col target ≠ col (position p).
Proof.
  intros H.
  assert (∀ pos, forward_ok v pos = true → cell v pos = VNull) as Hf.
  { intros pos [_ E]%andb_true_iff. by destruct (cell v pos). }
  assert (∀ pos, capture_ok v p pos = true →
    ∃ X, cell v pos = VStr X ∧ truthy (cell v pos) = Some X ∧
         match v_get v X with
         | Entry q => color q ≠ color p
         | Inherited t => t = true
         | Absent => False
         end) as Hc.
  { intros pos [_ E]%andb_true_iff.
    destruct (cell v pos) as [| |X]; try done.
    destruct X as [|a X]; [done|]. simpl in E.
    exists (String a X). split; [done|]. split; [done|].
    destruct (v_get v (String a X)) as [|q|t]; [done| |done].
    by apply negb_true_iff, String.eqb_neq in E. }
  destruct (allowed_moves_cases v p target H)
    as [[_ E]|[(_ & _ & _ & E)|[[-> E]|[-> E]]]]; auto.
  - right. destruct (Hc _ E) as (X & ? & ? & ?). exists X.
    simpl. repeat split; try done. lia.
  - right. destruct (Hc _ E) as (X & ? & ? & ?). exists X.
    simpl. repeat split; try done. lia.
Qed.

(** On a consistent board the id in the target cell of a capture is
    registered. *)
Lemma allowed_moves_target_registered v p target :
  (∀ pos X, cell v pos = VStr X → is_Some (v_pawns v !! X)) →
  target ∈ allowed_moves v p →
  cell v target = VNull ∨
  ∃ X q, cell v target = VStr X ∧ truthy (cell v target) = Some X ∧
         v_pawns v !! X = Some q ∧ color q ≠ color p ∧
         col target ≠ col (position p).
Proof.
  intros Hreg H.
  destruct (allowed_moves_target v p target H)
    as [Hnull|(X & HX & Htr & Hget & Hcol)]; [by left|right].
  destruct (Hreg _ _ HX) as [q Hq]. exists X, q.
  rewrite (v_get_own _ _ _ Hq) in Hget. done.
Qed.

Lemma cell_set_proto v pr pos : cell (set_proto v pr) pos = cell v pos.
Proof. done. Qed.

Lemma move_view_cell v p target pos :
  cell v (position p) ≠ VUndefined → cell v target ≠ VUndefined →
  target ≠ position p →
  cell (move_view v p target) pos =
    if decide (pos = target) then VStr (id p)
    else if decide (pos = position p) then VNull else cell v pos.
Proof.
  intros Hsrc Htgt Hne. unfold move_view.
  set (v1 := set_cell (set_proto v None) (position p) VNull).
  assert (cell v1 target = cell v target) as Ht1
    by (unfold v1; by rewrite cell_set_cell_ne).
  set (ps := match truthy (cell v1 target) with
             | Some t => delete t (v_pawns v1) | None => v_pawns v1 end).
  case_decide as Hd.
  - subst pos. apply cell_set_cell_eq.
    + apply (cell_row_present (register (set_pawns v1 ps) (moved p target))).
      rewrite register_cell.
      change (cell v1 target ≠ VUndefined). by rewrite Ht1.
    + apply (cell_defined_col v). done.
  - rewrite cell_set_cell_ne by done. rewrite register_cell.
    change (cell v1 pos = if decide (pos = position p) then VNull else cell v pos).
    case_decide as Hd2.
    + subst pos. unfold v1. apply cell_set_cell_eq.
      * by apply (cell_row_present (set_proto v None)).
      * by apply (cell_defined_col v).
    + unfold v1. by rewrite cell_set_cell_ne.
Qed.

(** The registry of the board a move returns, when the moved record
    has an ordinary id. *)
Lemma move_view_pawns v p target :
  id p ≠ "__proto__" → target ≠ position p →
  v_pawns (move_view v p target) =
    <[id p := moved p target]>
      (match truthy (cell v target) with
       | Some t => delete t (v_pawns v)
       | None => v_pawns v
       end).
Proof.
  intros Hne Hpos. unfold move_view.
  rewrite register_other by done. simpl.
  rewrite cell_set_cell_ne by done. rewrite cell_set_proto.
  by destruct (truthy (cell v target)).
Qed.

Lemma move_view_proto v p target :
  id p ≠ "__proto__" → v_proto (move_view v p target) = None.
Proof. intros Hne. unfold move_view. by rewrite register_other. Qed.

Lemma move_view_width v p target : v_width (move_view v p target) = v_width v.
Proof. unfold move_view. simpl. by rewrite register_width. Qed.

Lemma move_view_height v p target :
  v_height (move_view v p target) = v_height v.
Proof. unfold move_view. simpl. by rewrite register_height. Qed.

Lemma move_view_rows_present v p target :
  rows_present v → rows_present (move_view v p target).
Proof.
  intros H. unfold move_view. apply set_cell_rows_present.
  unfold rows_present. rewrite register_grid, register_height.
  by apply (set_cell_rows_present (set_proto v None)).
Qed.

Lemma move_view_consistent v k p target :
  consistent v → v_pawns v !! "__proto__" = None →
  v_pawns v !! k = Some p → target ∈ allowed_moves v p →
  consistent (move_view v p target).
Proof.
  intros Hcons Hown Hk Hlegal.
  pose proof (consistent_key _ _ _ Hcons Hk) as Hid.
  assert (id p ≠ "__proto__") as Hproto by (intros E; congruence).
  destruct Hcons as (Ha & Hb & Hc).
  pose proof (Hb _ _ Hk) as Hsrc.
  pose proof (allowed_moves_not_source _ _ _ Hlegal) as Hne.
  assert (cell v target = VNull ∨
    ∃ X q, cell v target = VStr X ∧ truthy (cell v target) = Some X ∧
           v_pawns v !! X = Some q ∧ color q ≠ color p ∧
           col target ≠ col (position p)) as Htgt.
  { apply allowed_moves_target_registered; [|done].
    intros pos X HX. destruct (Ha _ _ HX) as (P & HP & _). eauto. }
  assert (cell v (position p) ≠ VUndefined) as Hs by (by rewrite Hsrc).
  assert (cell v target ≠ VUndefined) as Ht.
  { destruct Htgt as [->|(X & q & -> & _)]; done. }
  pose proof (move_view_cell v p target) as Hcell.
  (* the registry of the new board *)
  assert (∃ ps : gmap string Pawn,
     (∀ k', v_pawns (move_view v p target) !! k' =
                   <[id p := moved p target]> ps !! k') ∧
     (∀ k' P, ps !! k' = Some P → v_pawns v !! k' = Some P ∧
                (k' ≠ id p → position P ≠ target)) ∧
     (∀ k' P, v_pawns v !! k' = Some P → position P ≠ target →
                ps !! k' = Some P)) as (ps & Hps & Hsub & Hkeep).
  { rewrite move_view_pawns by done.
    destruct Htgt as [Hnull|(X & q & HX & Htr & Hq & Hcol & _)].
    - rewrite Hnull. simpl. exists (v_pawns v). split; [done|]. split; [|done].
      intros k' P HP. split; [done|]. intros _ Heq.
      pose proof (Hb _ _ HP) as HcP. rewrite Heq in HcP. congruence.
    - rewrite Htr. exists (delete X (v_pawns v)). split; [done|]. split.
      + intros k' P [HneX HP]%lookup_delete_Some. split; [done|].
        intros _ Heq. apply HneX.
        destruct (Ha _ _ HX) as (q' & Hq' & Hposq).
        apply (Hc _ _ _ _ Hq' HP). congruence.
      + intros k' P HP Hpos. apply lookup_delete_Some. split; [|done].
        intros <-. destruct (Ha _ _ HX) as (q' & Hq' & Hposq). congruence. }
  assert (position (moved p target) = target) as Hmp by apply Position_eta.
  split; [|split].
  - intros pos X. rewrite Hcell by done. rewrite Hps.
    case_decide as Hd1; [|case_decide as Hd2]; intros HX; [| done |].
    + simplify_eq. exists (moved p target). by rewrite lookup_insert_eq.
    + destruct (Ha _ _ HX) as (P & HP & HPpos). exists P. split; [|done].
      rewrite lookup_insert_ne.
      * apply Hkeep; [done|congruence].
      * intros <-. congruence.
  - intros k' P. rewrite Hps, Hcell by done. intros HP.
    destruct (decide (id p = k')) as [<-|Hnk].
    + rewrite lookup_insert_eq in HP. simplify_eq. rewrite Hmp.
      by rewrite decide_True.
    + rewrite lookup_insert_ne in HP by done.
      destruct (Hsub _ _ HP) as [HP' Hpt].
      rewrite decide_False by auto.
      rewrite decide_False; [by eapply Hb|].
      intros Heq. apply Hnk. rewrite Hid. symmetry. by eapply Hc.
  - intros k1 k2 P1 P2 H1 H2 Hpos. rewrite Hps in H1, H2.
    destruct (decide (id p = k1)) as [<-|Hne1];
      destruct (decide (id p = k2)) as [<-|Hne2]; [done|..].
    + rewrite lookup_insert_eq in H1. rewrite lookup_insert_ne in H2 by done.
      simplify_eq. destruct (Hsub _ _ H2) as [_ Hpt]. rewrite Hmp in Hpos.
      destruct Hpt; auto.
    + rewrite lookup_insert_eq in H2. rewrite lookup_insert_ne in H1 by done.
      simplify_eq. destruct (Hsub _ _ H1) as [_ Hpt]. rewrite Hmp in Hpos.
      destruct Hpt; auto.
    + rewrite lookup_insert_ne in H1, H2 by done.
      destruct (Hsub _ _ H1) as [H1' _], (Hsub _ _ H2) as [H2' _].
      by eapply Hc.
Qed.

(** *** Every registered pawn stands on its cell

    Unlike [consistent], [standing] is kept by every update of a view,
    also by [placePawn] with an id that is already registered: it holds
    on every board built with the functions of index.js as long as no
    record with the id [__proto__] has been placed. *)

Lemma consistent_standing v : consistent v → standing v.
Proof.
  intros Hcons k P HP. pose proof (consistent_key _ _ _ Hcons HP) as Hid.
  destruct Hcons as (_ & Hb & _). split; [done|].
  rewrite <- Hid. by eapply Hb.
Qed.

Lemma empty_view_standing width height : standing (empty_view width height).
Proof. intros k P HP. simpl in HP. by rewrite lookup_empty in HP. Qed.

Lemma empty_view_consistent width height : consistent (empty_view width height).
Proof.
  split; [|split].
  - intros pos X. unfold cell, empty_view, read_slot, arr_get; simpl.
    destruct (row pos <? 0); [done|].
    destruct (replicate _ _ !! _) as [cells|] eqn:E; [|done].
    apply lookup_replicate in E as [-> _].
    destruct (col pos <? 0); [done|].
    destruct (replicate _ _ !! _) as [x|] eqn:E; [|done].
    apply lookup_replicate in E as [-> _]. done.
  - intros k P HP. simpl in HP. by rewrite lookup_empty in HP.
  - intros k1 k2 P1 P2 HP. simpl in HP. by rewrite lookup_empty in HP.
Qed.

Lemma empty_view_rows_present width height :
  rows_present (empty_view width height).
Proof. unfold rows_present; simpl. rewrite length_replicate. lia. Qed.

Lemma place_view_standing v p :
  standing v → cell v (position p) = VNull → standing (place_view v p).
Proof.
  intros Hst Hnull k P HP.
  assert (∀ k' P', v_pawns v !! k' = Some P' →
            id P' = k' ∧ cell (place_view v p) (position P') = VStr k') as Hold.
  { intros k' P' HP'. destruct (Hst _ _ HP') as [Hid Hc]. split; [done|].
    rewrite place_view_cell_ne; [done|].
    intros Heq. rewrite Heq in Hc. congruence. }
  destruct (decide (id p = "__proto__")) as [E|E].
  - rewrite (proj1 (place_view_pawns_proto v p E)) in HP. by apply Hold.
  - rewrite place_view_pawns in HP by done.
    destruct (decide (id p = k)) as [<-|Hne].
    + rewrite lookup_insert_eq in HP. simplify_eq. split; [done|].
      by apply place_view_cell_eq.
    + rewrite lookup_insert_ne in HP by done. by apply Hold.
Qed.

Lemma remove_view_standing v k p :
  standing v → v_pawns v !! k = Some p → standing (remove_view v k p).
Proof.
  intros Hst Hk k' P HP.
  change (delete k (v_pawns v) !! k' = Some P) in HP.
  apply lookup_delete_Some in HP as [Hne HP].
  destruct (Hst _ _ HP) as [Hid Hc], (Hst _ _ Hk) as [Hidp Hcp].
  split; [done|].
  change (cell (set_cell v (position p) VNull) (position P) = VStr k').
  rewrite cell_set_cell_ne; [done|].
  intros Heq. rewrite Heq in Hcp. congruence.
Qed.

Lemma move_view_standing v k p target :
  standing v → v_pawns v !! "__proto__" = None →
  v_pawns v !! k = Some p → target ∈ allowed_moves v p →
  standing (move_view v p target).
Proof.
  intros Hst Hown Hk Hlegal k' P HP.
  destruct (Hst _ _ Hk) as [Hidp Hcp].
  assert (id p ≠ "__proto__") as Hproto by (intros E; congruence).
  pose proof (allowed_moves_not_source _ _ _ Hlegal) as Hne.
  pose proof (allowed_moves_target _ _ _ Hlegal) as Htgt.
  assert (cell v (position p) ≠ VUndefined) as Hs by (by rewrite Hcp).
  assert (cell v target ≠ VUndefined) as Ht.
  { destruct Htgt as [->|(X & -> & _)]; done. }
  rewrite move_view_cell by done.
  rewrite move_view_pawns in HP by done.
  destruct (decide (id p = k')) as [<-|Hnk].
  - rewrite lookup_insert_eq in HP. simplify_eq. split; [done|].
    simpl. rewrite Position_eta. by rewrite decide_True.
  - rewrite lookup_insert_ne in HP by done.
    assert (v_pawns v !! k' = Some P ∧
            (∀ X, truthy (cell v target) = Some X → k' ≠ X)) as [HP' HnX].
    { destruct (truthy (cell v target)) as [X|] eqn:Etr.
      - apply lookup_delete_Some in HP as [? ?]. split; [done|].
        by intros ? [= <-].
      - split; [done|]. by intros ? [=]. }
    destruct (Hst _ _ HP') as [Hid Hc]. split; [done|].
    rewrite decide_False.
    + rewrite decide_False; [done|]. intros Heq. rewrite Heq in Hc. congruence.
    + intros Heq. rewrite Heq in Hc.
      destruct Htgt as [Hnull|(X & HX & Htr & _)]; [congruence|].
      apply (HnX X Htr). congruence.
Qed.

(** *** The only exception after a legal move is a [TypeError] *)

Lemma throws_only_mapM {A B} P (f : A → M B) l :
  (∀ x, throws_only P (f x)) → throws_only P (mapM f l).
Proof.
  intros Hf. induction l as [|x l IH]; simpl.
  - apply throws_only_ret.
  - apply throws_only_bind; [apply Hf|intros y].
    apply throws_only_bind; [apply IH|intros k]. apply throws_only_ret.
Qed.

Lemma throws_only_get_pawn l : throws_only is_TypeError (get_pawn l).
Proof. unfold get_pawn. repeat throws_step. Qed.
Lemma throws_only_get_board l : throws_only is_TypeError (get_board l).
Proof. unfold get_board. repeat throws_step. Qed.
Lemma throws_only_get_registry l : throws_only is_TypeError (get_registry l).
Proof. unfold get_registry. repeat throws_step. Qed.
Lemma throws_only_get_grid l : throws_only is_TypeError (get_grid l).
Proof. unfold get_grid. repeat throws_step. Qed.
Lemma throws_only_get_row l : throws_only is_TypeError (get_row l).
Proof. unfold get_row. repeat throws_step. Qed.

Lemma throws_only_grid_get board r c :
  throws_only is_TypeError (grid_get board r c).
Proof.
  unfold grid_get.
  apply throws_only_bind; [apply throws_only_get_board|intros b].
  apply throws_only_bind; [apply throws_only_get_grid|intros rows].
  destruct (arr_get rows r); [|by apply throws_only_throw].
  apply throws_only_bind; [apply throws_only_get_row|intros cells].
  apply throws_only_ret.
Qed.

Lemma throws_only_grid_set board r c x :
  throws_only is_TypeError (grid_set board r c x).
Proof.
  unfold grid_set.
  apply throws_only_bind; [apply throws_only_get_board|intros b].
  apply throws_only_bind; [apply throws_only_get_grid|intros rows].
  destruct (arr_get rows r); [|by apply throws_only_throw].
  apply throws_only_bind; [apply throws_only_get_row|intros cells].
  apply throws_only_store.
Qed.

Lemma throws_only_pawns_set board k l :
  throws_only is_TypeError (pawns_set board k l).
Proof.
  unfold pawns_set.
  apply throws_only_bind; [apply throws_only_get_board|intros b].
  apply throws_only_bind; [apply throws_only_get_registry|intros reg].
  apply throws_only_store.
Qed.

Lemma throws_only_pawns_delete board k :
  throws_only is_TypeError (pawns_delete board k).
Proof.
  unfold pawns_delete.
  apply throws_only_bind; [apply throws_only_get_board|intros b].
  apply throws_only_bind; [apply throws_only_get_registry|intros reg].
  apply throws_only_store.
Qed.

Lemma throws_only_clone_board board :
  throws_only is_TypeError (clone_board board).
Proof.
  unfold clone_board.
  apply throws_only_bind; [apply throws_only_get_board|intros b].
  apply throws_only_bind; [apply throws_only_get_registry|intros reg].
  apply throws_only_bind; [apply throws_only_alloc|intros newPawns].
  apply throws_only_bind; [apply throws_only_get_grid|intros rows].
  apply throws_only_bind.
  { apply throws_only_mapM. intros row.
    apply throws_only_bind; [apply throws_only_get_row|intros cells].
    apply throws_only_alloc. }
  intros newRows.
  apply throws_only_bind; [apply throws_only_alloc|intros newGrid].
  apply throws_only_alloc.
Qed.

Section move_throws.
Context {h : heap} {board : loc} {b : Board} {reg : Registry}
  {rows : list loc} {v : BoardView} (R : rep h board b reg rows v).
Hypothesis rows_ok : rows_present v.

Lemma movePawn_legal_throws pawnId p target e h' :
  v_get v pawnId = Entry p →
  target ∈ allowed_moves v p →
  movePawn board pawnId target h = (Throw e, h') → e = TypeError.
Proof.
  intros Hk Hlegal. unfold movePawn.
  destruct (pawns_get_entry R pawnId p Hk) as (pawn & Hget & Hp').
  rewrite (bind_ok _ _ _ _ _ Hget).
  apply pawn_at_Some in Hp'.
  rewrite (bind_ok _ _ _ _ _ (getPawnAllowedMoves_rep R rows_ok pawn p Hp')).
  rewrite (proj2 (some_equal_elem _ _) Hlegal). simpl.
  clear Hget. revert h e h' R Hp'. intros h0 e h' _ _.
  change (e = TypeError) with (is_TypeError e). revert h0 e h'.
  apply throws_only_bind; [apply throws_only_clone_board|intros newBoard].
  apply throws_only_bind; [apply throws_only_get_pawn|intros q].
  apply throws_only_bind; [apply throws_only_grid_set|intros ?].
  apply throws_only_bind; [apply throws_only_grid_get|intros targetId].
  apply throws_only_bind.
  { destruct (truthy targetId);
      [apply throws_only_pawns_delete|apply throws_only_ret]. }
  intros ?.
  apply throws_only_bind; [apply throws_only_alloc|intros updatedPawn].
  apply throws_only_bind; [apply throws_only_pawns_set|intros ?].
  apply throws_only_bind; [apply throws_only_grid_set|intros ?].
  apply throws_only_ret.
Qed.
End move_throws.

(** *** Board construction *)

Lemma push_rows_run n g width rows0 h :
  0 ≤ width < 2 ^ 32 → h !! g = Some (OGrid rows0) →
  push_rows n g width h =
    (Ok tt, <[g := OGrid (rows0 ++ seq (length h) n)]> h ++
            replicate n (ORow (replicate (Z.to_nat width) VNull))).
Proof.
  intros Hw. revert rows0 h. induction n as [|n IH]; intros rows0 h Hg.
  - simpl. rewrite !app_nil_r. rewrite list_insert_id; done.
  - assert (g < length h)%nat as Hlt by (by eapply lookup_lt_Some).
    simpl. unfold new_row.
    replace ((width <? 0) || (2 ^ 32 <=? width)) with false by (symmetry; lia).
    unfold mbind at 1, M_bind at 1, alloc at 1.
    unfold mbind at 1, M_bind at 1.
    unfold grid_push, mbind at 1, M_bind at 1.
    unfold get_grid, deref, mbind at 1, M_bind at 1.
    rewrite lookup_app_l by done. rewrite Hg.
    unfold mret at 1, M_ret at 1, store at 1.
    set (row := ORow (replicate (Z.to_nat width) VNull)).
    rewrite (IH (rows0 ++ [length h])).
    + rewrite length_insert, length_app. simpl.
      rewrite list_insert_insert_eq.
      rewrite insert_app_l by done.
      rewrite <- !app_assoc. simpl.
      replace (length h + 1)%nat with (S (length h)) by lia. done.
    + apply list_lookup_insert_eq. rewrite length_app. lia.
Qed.

Lemma createEmptyBoard_run width height h :
  0 ≤ width < 2 ^ 32 →
  let n := Z.to_nat height in
  let b := {| width := width; height := height; pawns := length h;
              grid := S (length h) |} in
  createEmptyBoard width height h =
    (Ok (S (S (length h)) + n)%nat,
     h ++ ORegistry {| own := ∅; proto := None |} :: OGrid (seq (S (S (length h))) n) ::
          replicate n (ORow (replicate (Z.to_nat width) VNull)) ++
          [OBoard b]).
Proof.
  intros Hw n b. unfold createEmptyBoard.
  unfold mbind at 1, M_bind at 1, alloc at 1.
  unfold createEmptyGrid.
  unfold mbind at 1, M_bind at 1.
  unfold mbind at 1, M_bind at 1, alloc at 1.
  unfold mbind at 1, M_bind at 1.
  rewrite (push_rows_run _ _ _ []) by
    (try done; apply list_lookup_middle; rewrite length_app; simpl; lia).
  unfold mret, M_ret, alloc. fold n.
  rewrite !length_app, length_insert, !length_app, length_replicate. simpl.
  f_equal; [f_equal; lia|].
  replace (length h + 1)%nat with (length (h ++ [ORegistry {| own := ∅; proto := None |}]) + 0)%nat
    by (rewrite length_app; simpl; lia).
  rewrite insert_app_r. simpl.
  rewrite <- !app_assoc. simpl. unfold b.
  repeat f_equal; rewrite ?length_app; simpl; lia.
Qed.

Lemma createEmptyBoard_rep width height h :
  0 ≤ width < 2 ^ 32 →
  ∃ board h' b reg rows,
    createEmptyBoard width height h = (Ok board, h') ∧
    take (length h) h' = h ∧
    rep h' board b reg rows (empty_view width height) ∧
    (length h ≤ pawns b)%nat ∧ Forall (λ l, length h ≤ l)%nat rows.
Proof.
  intros Hw. pose proof (createEmptyBoard_run width height h Hw) as Hrun.
  cbv zeta in Hrun. unfold empty_view.
  generalize dependent (Z.to_nat height). intros n Hrun.
  set (rowv := replicate (Z.to_nat width) VNull) in *.
  set (b := {| width := width; height := height;
               pawns := length h; grid := S (length h) |}) in *.
  set (ext := ORegistry {| own := ∅; proto := None |} :: OGrid (seq (S (S (length h))) n) ::
              replicate n (ORow rowv) ++ [OBoard b]) in *.
  exists (S (S (length h)) + n)%nat, (h ++ ext), b,
    {| own := ∅; proto := None |}, (seq (S (S (length h))) n).
  split; [done|].
  split; [by rewrite take_app_length|].
  assert (∀ i, (h ++ ext) !! (length h + i)%nat = ext !! i) as Hext.
  { intros i. rewrite lookup_app_r by lia. f_equal. lia. }
  split; [|split; [simpl; lia|]].
  - split; simpl.
    + replace (S (S (length h + n))) with (length h + S (S n))%nat by lia.
      rewrite Hext. unfold ext. simpl.
      rewrite lookup_app_r by (rewrite length_replicate; lia).
      rewrite length_replicate.
      by replace (n - n)%nat with 0%nat by lia.
    + replace (length h) with (length h + 0)%nat at 1 by lia. by rewrite Hext.
    + replace (S (length h)) with (length h + 1)%nat at 1 by lia.
      by rewrite Hext.
    + apply Forall2_same_length_lookup. split.
      { by rewrite length_seq, length_replicate. }
      intros i l cs Hl Hcs. apply lookup_seq in Hl as [-> Hi].
      apply lookup_replicate in Hcs as [-> _].
      replace (S (S (length h)) + i)%nat with (length h + S (S i))%nat by lia.
      rewrite Hext. unfold ext. simpl.
      rewrite lookup_app_l by (rewrite length_replicate; lia).
      by rewrite lookup_replicate_2.
    + apply map_Forall_empty.
    + apply NoDup_seq.
    + done.
    + done.
    + by rewrite omap_empty.
    + done.
    + done.
    + done.
  - apply Forall_forall. intros l [i [-> _]%lookup_seq]%list_elem_of_lookup. lia.
Qed.

Section initial.
Context {board : loc} {b : Board} {rows : list loc}.

Lemma place_opt_run h reg v pawn p v' :
  rep h board b reg rows v → pawn_at h pawn = Some p →
  place_opt v p = Some v' →
  ∃ h', placePawn board pawn h = (Ok tt, h') ∧ length h' = length h ∧
    rep h' board b (reg_set (id p) pawn reg) rows v' ∧
    (∀ n, (n ≤ pawns b)%nat → Forall (λ l, n ≤ l)%nat rows →
          take n h' = take n h).
Proof.
  intros R Hp. unfold place_opt.
  destruct (in_bounds v (position p)) eqn:Hin; [|done].
  destruct (cell v (position p)) eqn:Hc; try done. simpl. intros [= <-].
  destruct (placePawn_ok R pawn p Hp Hin Hc) as (h' & ? & ? & ? & ? & ?).
  eauto.
Qed.

Lemma place_two_rows_run n0 n : ∀ h reg v prefix color r0 r1 i id v' id',
  rep h board b reg rows v →
  (n0 ≤ length h)%nat → (n0 ≤ pawns b)%nat → Forall (λ l, n0 ≤ l)%nat rows →
  place_two_rows_view n v prefix color r0 r1 i id = Some (v', id') →
  ∃ h' reg', place_two_rows n board prefix color r0 r1 i id h = (Ok id', h') ∧
    rep h' board b reg' rows v' ∧ (n0 ≤ length h')%nat ∧
    take n0 h' = take n0 h.
Proof.
  induction n as [|n IH];
    intros h reg v prefix color r0 r1 i id v' id' R Hn0 Hpb Hrows Hview.
  - simpl in *. simplify_eq. by exists h, reg.
  - simpl in Hview.
    destruct (place_opt v _) as [v1|] eqn:E1; [|done]. simpl in Hview.
    destruct (place_opt v1 _) as [v2|] eqn:E2; [|done]. simpl in Hview.
    simpl.
    unfold mbind at 1, M_bind at 1, alloc at 1.
    destruct (place_opt_run _ _ _ (length h) _ _
                (rep_alloc R _) (proj2 (pawn_at_Some _ _ _)
                   (list_lookup_middle h [] _ _ eq_refl)) E1)
      as (h1 & Hrun1 & Hlen1 & R1 & T1).
    rewrite (bind_ok _ _ _ _ _ Hrun1).
    unfold mbind at 1, M_bind at 1, alloc at 1.
    destruct (place_opt_run _ _ _ (length h1) _ _
                (rep_alloc R1 _) (proj2 (pawn_at_Some _ _ _)
                   (list_lookup_middle h1 [] _ _ eq_refl)) E2)
      as (h2 & Hrun2 & Hlen2 & R2 & T2).
    rewrite (bind_ok _ _ _ _ _ Hrun2).
    rewrite length_app in Hlen1, Hlen2. simpl in Hlen1, Hlen2.
    destruct (IH h2 _ _ _ _ _ _ _ _ _ _ R2 ltac:(lia) Hpb Hrows Hview)
      as (h' & reg' & Hrun & R' & Hlen' & T').
    exists h', reg'. split; [done|]. split; [done|]. split; [done|].
    rewrite T', (T2 n0 Hpb Hrows), take_app_le by lia.
    rewrite (T1 n0 Hpb Hrows), take_app_le by lia. done.
Qed.
End initial.

(** [createInitialBoard] returns from every store, touches nothing that
    was there before, and the board it returns reads as
    [initial_view]. *)
Lemma createInitialBoard_rep h v0 :
  initial_view = Some v0 →
  ∃ board h' b reg rows,
    createInitialBoard h = (Ok board, h') ∧
    take (length h) h' = h ∧
    rep h' board b reg rows v0.
Proof.
  unfold initial_view. intros Hv.
  destruct (place_two_rows_view 8 (empty_view 8 8) "W" "white" 0 1 0 1)
    as [[v1 id1]|] eqn:E1; [|discriminate Hv].
  change ((place_two_rows_view 8 v1 "B" "black" 6 7 0 id1
             ≫= λ '(v, _), Some v) = Some v0) in Hv.
  destruct (place_two_rows_view 8 v1 "B" "black" 6 7 0 id1)
    as [[v2 id2]|] eqn:E2; [|discriminate Hv].
  injection Hv as ->.
  destruct (createEmptyBoard_rep 8 8 h ltac:(lia))
    as (board & h1 & b & reg & rows & Hrun & T1 & R1 & Hpb & Hrows).
  assert (length h ≤ length h1)%nat as Hlen1.
  { rewrite <- T1 at 1. rewrite length_take. lia. }
  destruct (place_two_rows_run (length h) 8 _ _ _ _ _ _ _ _ _ _ _
              R1 Hlen1 Hpb Hrows E1) as (h2 & reg2 & Hrun2 & R2 & Hlen2 & T2).
  destruct (place_two_rows_run (length h) 8 _ _ _ _ _ _ _ _ _ _ _
              R2 Hlen2 Hpb Hrows E2) as (h3 & reg3 & Hrun3 & R3 & Hlen3 & T3).
  exists board, h3, b, reg3, rows.
  split; [|split; [congruence|done]].
  unfold createInitialBoard.
  rewrite (bind_ok _ _ _ _ _ Hrun).
  rewrite (bind_ok _ _ _ _ _ Hrun2).
  rewrite (bind_ok _ _ _ _ _ Hrun3). done.
Qed.

(** *** The checker is sound *)

Lemma cell_in_cells_of v pos X :
  cell v pos = VStr X → (pos, VStr X) ∈ cells_of v.
Proof.
  destruct pos as [r c]. unfold cell, read_slot, arr_get, cells_of. simpl.
  destruct (r <? 0) eqn:Er; [done|].
  destruct (v_grid v !! Z.to_nat r) as [cells|] eqn:Ecells; [|done].
  destruct (c <? 0) eqn:Ec; [done|].
  destruct (cells !! Z.to_nat c) as [x|] eqn:Ex; [|done].
  simpl. intros ->. apply list_elem_of_join.
  eexists. split; [|eapply elem_of_lookup_imap_2, Ecells].
  assert (mkPosition r c =
          mkPosition (Z.of_nat (Z.to_nat r)) (Z.of_nat (Z.to_nat c))) as ->
    by (f_equal; lia).
  eapply (elem_of_lookup_imap_2
    (λ c x, (mkPosition (Z.of_nat (Z.to_nat r)) (Z.of_nat c), x))).
  exact Ex.
Qed.

Lemma consistentb_sound v : consistentb v = true → consistent v.
Proof.
  unfold consistentb. intros [Hcells Hents]%andb_true_iff.
  rewrite forallb_forall in Hcells. rewrite forallb_forall in Hents.
  assert (∀ pos X, cell v pos = VStr X →
            ∃ P, v_pawns v !! X = Some P ∧ position P = pos) as Ha.
  { intros pos X Hc. apply cell_in_cells_of, list_elem_of_In in Hc.
    specialize (Hcells _ Hc). unfold cell_ok in Hcells; simpl in Hcells.
    destruct (v_pawns v !! X) as [P|]; [|done].
    exists P. split; [done|]. by apply bool_decide_eq_true in Hcells. }
  assert (∀ k P, v_pawns v !! k = Some P →
            cell v (position P) = VStr (id P) ∧ id P = k) as Hb.
  { intros k P HP. apply elem_of_map_to_list, list_elem_of_In in HP.
    specialize (Hents _ HP). unfold entry_ok in Hents; simpl in Hents.
    apply andb_true_iff in Hents as [H1 H2].
    by apply bool_decide_eq_true in H1, H2. }
  split; [done|]. split.
  - intros k P HP. by apply (Hb k P).
  - intros k1 k2 P1 P2 H1 H2 Hpos.
    destruct (Hb _ _ H1) as [Hc1 <-], (Hb _ _ H2) as [Hc2 <-].
    rewrite Hpos in Hc1. congruence.
Qed.

(** *** The rule engine against the specification's wording *)

(** The two readings of "occupied by a pawn of the opposite colour"
    agree on every cell whose id, if it holds one, is not the empty
    string and is registered. *)
Lemma capture_ok_spec v p pos :
  (∀ X, cell v pos = VStr X → X ≠ EmptyString ∧ is_Some (v_pawns v !! X)) →
  capture_ok v p pos = in_bounds v pos && occupied_by_opposite v p pos.
Proof.
  intros Hreg. unfold capture_ok, occupied_by_opposite. f_equal.
  destruct (cell v pos) as [| |X]; [done..|].
  destruct (Hreg X eq_refl) as [Hne [q Hq]].
  destruct X as [|a X]; [done|]. simpl.
  by rewrite (v_get_own _ _ _ Hq), Hq.
Qed.

Lemma allowed_moves_spec v p :
  (∀ pos X, cell v pos = VStr X → X ≠ EmptyString ∧ is_Some (v_pawns v !! X)) →
  allowed_moves v p = spec_moves v p.
Proof.
  intros Hreg. unfold allowed_moves, spec_moves.
  rewrite (capture_ok_spec v p _ (Hreg _)), (capture_ok_spec v p _ (Hreg _)).
  done.
Qed.

(** On a well-formed board whose cells hold no other ids than those of
    the registry, none of them the empty string, [getPawnAllowedMoves]
    returns exactly the moves of the specification, in the
    specification's order, and writes nothing. *)
Lemma getPawnAllowedMoves_refines_spec h board v pawn p :
  view h board = Some v → rows_present v → pawn_at h pawn = Some p →
  (∀ pos X, cell v pos = VStr X → X ≠ EmptyString ∧ is_Some (v_pawns v !! X)) →
  getPawnAllowedMoves pawn board h = (Ok (spec_moves v p), h).
Proof.
  intros (b & reg & rows & R)%view_rep Hrows Hp Hids.
  rewrite <- allowed_moves_spec by apply Hids.
  by eapply getPawnAllowedMoves_rep.
Qed.

(** What [getPawnAllowedMoves] returns on any well-formed board. *)
Lemma getPawnAllowedMoves_view h board v pawn p :
  view h board = Some v → rows_present v → pawn_at h pawn = Some p →
  getPawnAllowedMoves pawn board h = (Ok (allowed_moves v p), h).
Proof.
  intros (b & reg & rows & R)%view_rep Hrows Hp.
  by eapply getPawnAllowedMoves_rep.
Qed.

(** *** A pawn whose forward row is off the board *)

Section edge.
Context {h : heap} {board : loc} {b : Board} {reg : Registry}
  {rows : list loc} {v : BoardView} (R : rep h board b reg rows v).

Lemma valid_and_empty_outside r c :
  in_bounds v (mkPosition r c) = false →
  valid_and_empty board r c h = (Ok false, h).
Proof.
  intros Hout. unfold valid_and_empty.
  rewrite (bind_ok _ _ _ _ _ (isValidPosition_rep R r c)). by rewrite Hout.
Qed.

Lemma try_capture_outside p r c moves :
  in_bounds v (mkPosition r c) = false →
  try_capture p board r c moves h = (Ok moves, h).
Proof.
  intros Hout. unfold try_capture.
  rewrite (bind_ok _ _ _ _ _ (isValidPosition_rep R r c)). by rewrite Hout.
Qed.

Lemma getPawnAllowedMoves_edge pawn p :
  pawn_at h pawn = Some p →
  ¬ (0 ≤ forwardRow p < v_height v) →
  getPawnAllowedMoves pawn board h = (Ok [], h).
Proof.
  intros Hp Hout.
  assert (∀ c, in_bounds v (mkPosition (forwardRow p) c) = false) as Hnb.
  { intros c. unfold in_bounds; simpl. lia. }
  unfold getPawnAllowedMoves.
  rewrite (bind_ok _ _ _ _ _ (get_pawn_ok _ _ _ Hp)).
  fold (direction p). fold (forwardRow p).
  rewrite (bind_ok _ _ _ _ _ (valid_and_empty_outside _ _ (Hnb _))).
  erewrite bind_ok by reflexivity. simpl.
  rewrite (bind_ok _ _ _ _ _ (try_capture_outside p _ _ _ (Hnb _))).
  rewrite (bind_ok _ _ _ _ _ (try_capture_outside p _ _ _ (Hnb _))).
  done.
Qed.
End edge.

(** *** Objects that were there before stay readable *)

Lemma rep_app {h board b reg rows v} ext :
  rep h board b reg rows v → rep (h ++ ext) board b reg rows v.
Proof.
  intros [Hb Hr Hg Hrows Ht Hn Hw Hh Hp Ho Hpo Hpr].
  destruct (proto_ok_ext h (h ++ ext) b (proto reg)) as [Hpo' Hpr'];
    [intros l q; apply pawn_at_app|done|].
  split; auto using lookup_app_l_Some.
  - eapply Forall2_impl; [exact Hrows|]. intros ??; apply lookup_app_l_Some.
  - intros k l Hk. destruct (Ht k l Hk) as [p Hpl]. exists p.
    by apply pawn_at_app.
  - rewrite Hp. apply map_eq. intros k. rewrite !lookup_omap.
    destruct (own reg !! k) as [l|] eqn:E; [|done]. simpl.
    destruct (Ht k l E) as [p Hpl]. rewrite Hpl. symmetry.
    by apply pawn_at_app.
  - by rewrite Hpr'.
Qed.

Lemma view_extend h h' board v :
  view h board = Some v → take (length h) h' = h → view h' board = Some v.
Proof.
  intros (b & reg & rows & R)%view_rep Htake. apply view_rep.
  exists b, reg, rows. rewrite <- (take_drop (length h) h'), Htake.
  by apply rep_app.
Qed.

(** *** The legal move set of a registered pawn *)

(** For a record found under [pawnId], what [movePawn] looks up and
    what it gets from [getPawnAllowedMoves]. *)
Lemma allowed_moves_computed h board v pawnId p :
  view h board = Some v → rows_present v →
  v_get v pawnId = Entry p →
  ∃ pawn, pawns_get board pawnId h = (Ok (Entry pawn), h) ∧
          pawn_at h pawn = Some p ∧
          getPawnAllowedMoves pawn board h = (Ok (allowed_moves v p), h).
Proof.
  intros (b & reg & rows & R)%view_rep Hrows Hk.
  destruct (pawns_get_entry R pawnId p Hk) as (pawn & Hget & Hp').
  apply pawn_at_Some in Hp'. exists pawn.
  split; [done|]. split; [done|]. by eapply getPawnAllowedMoves_rep.
Qed.

(** A well-formed registry has no own entry [__proto__]. *)
Lemma view_no_own_proto h board v :
  view h board = Some v → v_pawns v !! "__proto__" = None.
Proof.
  intros (b & reg & rows & R)%view_rep.
  rewrite (rep_pawns _ _ _ _ _ _ R), lookup_omap.
  by rewrite (rep_own _ _ _ _ _ _ R).
Qed.

(** *** A legal move of a pawn that stands on its cell *)

Lemma legal_move_runs h board v pawnId p target :
  view h board = Some v → rows_present v →
  v_pawns v !! pawnId = Some p → id p = pawnId →
  cell v (position p) = VStr pawnId →
  target ∈ allowed_moves v p →
  ∃ newBoard updatedPawn h',
    movePawn board pawnId target h = (Ok (newBoard, updatedPawn), h') ∧
    view h' newBoard = Some (move_view v p target) ∧
    cell (move_view v p target) target = VStr pawnId.
Proof.
  intros Hv Hrows Hk Hid Hsrc Hlegal.
  pose proof Hv as (b & reg & rows & R)%view_rep.
  destruct (movePawn_ok R Hrows pawnId p target (v_get_own _ _ _ Hk) Hlegal)
    as (nb & up & h' & b' & reg' & rows' & Hrun & _ & R' & _).
  { apply cell_row_present. by rewrite Hsrc. }
  exists nb, up, h'. split; [done|]. split; [apply view_rep; eauto|].
  rewrite move_view_cell.
  - rewrite decide_True by done. by rewrite Hid.
  - by rewrite Hsrc.
  - destruct (allowed_moves_target _ _ _ Hlegal) as [->|(X & -> & _)];
      done.
  - by apply allowed_moves_not_source in Hlegal.
Qed.

(** *** Small facts used below *)

Lemma placePawn_not_a_pawn board pawn h :
  pawn_at h pawn = None → placePawn board pawn h = (Throw TypeError, h).
Proof.
  intros Hp. unfold placePawn, get_pawn, deref, mbind, M_bind.
  unfold pawn_at in Hp. by destruct (h !! pawn) as [[]|].
Qed.

Lemma initial_view_start : initial_view = Some v_start.
Proof. vm_compute. reflexivity. Qed.

(** Settling a decidable statement about concrete data by evaluation. *)
Ltac by_decide :=
  match goal with
  | |- ?P => apply (bool_decide_eq_true_1 P); vm_compute; reflexivity
  end.

(** Checking a statement for every integer of a short interval. *)
Lemma for_all_in_range (P : Z → Prop) `{∀ k, Decision (P k)} lo n :
  bool_decide (Forall P (seqZ lo n)) = true →
  ∀ k, lo ≤ k < lo + n → P k.
Proof.
  intros HF%bool_decide_eq_true k Hk.
  eapply Forall_forall; [exact HF|]. apply elem_of_seqZ. lia.
Qed.

Ltac by_range := eapply for_all_in_range; vm_compute; reflexivity.

(** *** Two runs of the rule engine *)

(** The concrete scenario of the specification (section 8): on an empty
    8 by 8 board a white pawn on (1,3) that has not moved may go to
    (2,3) and (3,3). *)
Example light_pawn_on_empty_board :
  (board ← createEmptyBoard 8 8;
   pawn ← alloc (OPawn {| id := "W1"; color := "white";
                          position := mkPosition 1 3; hasMoved := false |});
   _ ← placePawn board pawn;
   getPawnAllowedMoves pawn board) [] =
  (Ok [mkPosition 2 3; mkPosition 3 3],
   ((board ← createEmptyBoard 8 8;
     pawn ← alloc (OPawn {| id := "W1"; color := "white";
                            position := mkPosition 1 3; hasMoved := false |});
     placePawn board pawn) []).2).
Proof. vm_compute. reflexivity. Qed.

(** On the board [skirmish] the white pawn on (1,0) is blocked by the
    white pawn on (2,0) and can only capture on (2,1). *)
Example skirmish_moves :
  getPawnAllowedMoves 11%nat 10%nat h_skirmish =
    (Ok [mkPosition 2 1], h_skirmish).
Proof. vm_compute. reflexivity. Qed.


(** *** Lookups on a registry whose prototype is [Object.prototype] *)

Lemma v_get_entry_own v k p :
  v_proto v = None → v_get v k = Entry p → v_pawns v !! k = Some p.
Proof.
  unfold v_get. intros ->. destruct (v_pawns v !! k); [congruence|].
  unfold from_Object_prototype.
  by repeat (match goal with |- context [if ?c then _ else _] => destruct c end).
Qed.

Lemma v_get_inherited_false v k :
  v_proto v = None → v_get v k ≠ Inherited false.
Proof.
  unfold v_get. intros ->. destruct (v_pawns v !! k); [done|].
  unfold from_Object_prototype.
  by repeat (match goal with |- context [if ?c then _ else _] => destruct c end).
Qed.

(** *** The ids addPawn generates *)

Lemma pretty_N_char_digit x : sign_or_digit (pretty_N_char x) = true.
Proof. unfold pretty_N_char. by repeat case_match. Qed.

Lemma pretty_N_go_head x : ∀ s, (0 < x)%N →
  ∃ d s', pretty_N_go x s = String d s' ∧ sign_or_digit d = true.
Proof.
  induction (N.lt_wf_0 x) as [x _ IH]. intros s Hx.
  rewrite pretty_N_go_step by done.
  destruct (decide (x `div` 10 = 0)%N) as [E|E].
  - rewrite E, pretty_N_go_0. eauto using pretty_N_char_digit.
  - apply IH; [by apply N.div_lt|by apply N.neq_0_lt_0].
Qed.

(** An integer printed in decimal starts with a digit or with the
    minus sign. *)
Lemma pretty_Z_head (x : Z) :
  ∃ d s, pretty x = String d s ∧ sign_or_digit d = true.
Proof.
  destruct x as [|x|x].
  - by exists "0"%char, EmptyString.
  - unfold pretty, pretty_Z, pretty, pretty_positive, pretty, pretty_N.
    rewrite decide_False by done. by apply pretty_N_go_head.
  - by exists "-"%char, (pretty x).
Qed.

Lemma separator_not_in_proto u d r :
  sign_or_digit d = true → (u ++ String "_" (String d r))%string ≠ "__proto__".
Proof.
  intros Hd.
  do 10 (destruct u as [|? u]; [simpl; intros [= -> ?]; discriminate Hd|];
         simpl; intros [= ? H]; revert H; try done).
Qed.

(** Whatever the colour, the clock and the random digits are, the id
    [addPawn] generates is not [__proto__]: in it an underscore is
    followed by the first character of a printed integer. *)
Lemma new_id_not_proto up c0 now rnd : new_id up c0 now rnd ≠ "__proto__".
Proof.
  unfold new_id.
  destruct (pretty_Z_head now) as (d & s & -> & Hd).
  change ("_" ++ String d s ++ "_" ++ rnd)%string
    with (String "_" (String d (s ++ "_" ++ rnd)))%string.
  by apply separator_not_in_proto.
Qed.

(** Where a record that [pawns[k]] answers comes from: it is the own
    entry of [k], or [k] is [__proto__] and the record is the prototype
    of the registry. *)
Lemma v_get_entry v k p :
  v_get v k = Entry p →
  v_pawns v !! k = Some p ∨
  (v_pawns v !! k = None ∧ k = "__proto__" ∧ v_proto v = Some p).
Proof.
  unfold v_get. destruct (v_pawns v !! k) as [q|]; [left; congruence|].
  intros H. right. split; [done|].
  destruct (v_proto v) as [q|].
  - destruct (String.eqb k "__proto__") eqn:E.
    + apply String.eqb_eq in E. split; congruence.
    + exfalso. revert H. unfold from_record, from_Object_prototype.
      by repeat (match goal with
                 | |- context [if ?c then _ else _] => destruct c
                 end).
  - exfalso. revert H. unfold from_Object_prototype.
    by repeat (match goal with
               | |- context [if ?c then _ else _] => destruct c
               end).
Qed.

(** The record that is the prototype of a well-formed registry has its
    position on the board. *)
Lemma view_proto_in_bounds h board v q :
  view h board = Some v → v_proto v = Some q →
  in_bounds v (position q) = true.
Proof.
  intros (b & reg & rows & R)%view_rep Hq.
  pose proof (proto_lookup_view R) as Hl.
  destruct (proto reg) as [l|]; [|congruence].
  destruct Hl as (q' & _ & Hq' & Hin). congruence.
Qed.
(** * Properties of the specification, C1 to C10 *)

(** ** C1: the rule engine against the specification's algorithm *)

(** C1.  The specification's algorithm adds a diagonal cell whenever it
    is in bounds and occupied by a pawn of the opposite colour.  Here
    the white pawn "W1" of the board [anonymous] stands on (1,0) and a
    registered black pawn stands on (2,1); that pawn's id is the empty
    string.  The specification's moves are (2,0), (3,0) and the capture
    (2,1); [getPawnAllowedMoves] returns only (2,0) and (3,0), because
    its test [!targetId] takes the empty id for an empty cell.  The
    store is left untouched, as the claim says. *)
Theorem C1_empty_id_capture_missed :
  anonymous [] = (Ok 10%nat, h_anonymous) ∧
  view h_anonymous 10%nat = Some v_anonymous ∧
  pawn_at h_anonymous 11%nat = Some pawn_W1 ∧
  v_pawns v_anonymous !! EmptyString = Some pawn_anon ∧
  cell v_anonymous (mkPosition 2 1) = VStr EmptyString ∧
  spec_moves v_anonymous pawn_W1 =
    [mkPosition 2 0; mkPosition 3 0; mkPosition 2 1] ∧
  getPawnAllowedMoves 11%nat 10%nat h_anonymous =
    (Ok [mkPosition 2 0; mkPosition 3 0], h_anonymous).
Proof. repeat split; vm_compute; reflexivity. Qed.

(** ** C2: the consistency invariant *)

(** C2, as stated, fails for [placePawn]: it stores the record under
    its id without looking whether that id is already registered.  On
    the board [same_id] the pawn "X" stands on (0,0) and the board is
    consistent; placing a second record with id "X" on (1,1) succeeds,
    and afterwards cell (0,0) still holds "X" while the pawn registered
    under "X" is at (1,1). *)
Lemma C2_counterexample :
  view h_same_id 10%nat = Some v_same_id ∧
  consistent v_same_id ∧
  pawn_at h_same_id 12%nat = Some pawn_X2 ∧
  placePawn 10%nat 12%nat h_same_id = (Ok tt, h_same_id_placed) ∧
  view h_same_id_placed 10%nat = Some v_same_id_placed ∧
  cell v_same_id_placed (mkPosition 0 0) = VStr "X" ∧
  v_pawns v_same_id_placed !! "X" = Some pawn_X2 ∧
  ¬ consistent v_same_id_placed.
Proof.
  split; [vm_compute; reflexivity|].
  split; [apply consistentb_sound; vm_compute; reflexivity|].
  split; [vm_compute; reflexivity|].
  split; [vm_compute; reflexivity|].
  split; [vm_compute; reflexivity|].
  split; [vm_compute; reflexivity|].
  split; [vm_compute; reflexivity|].
  intros (Ha & _).
  destruct (Ha (mkPosition 0 0) "X") as (P & HP & Hpos);
    [vm_compute; reflexivity|].
  assert (v_pawns v_same_id_placed !! "X" = Some pawn_X2) as HX
    by (vm_compute; reflexivity).
  rewrite HX in HP. injection HP as <-. discriminate Hpos.
Qed.

(** C2, amended.  Let the board be well formed, with a row array for
    every row index below the height, consistent, and let the prototype
    of its registry be [Object.prototype] (as on every board on which
    no record with the id [__proto__] has been placed).
    - [placePawn] of a record whose id is not yet in the registry and is
      not [__proto__], and [addPawn] when the id it generates is not yet
      in the registry, either throw and leave the store as it was, or
      succeed and leave the board consistent.
    - [removePawn] either throws a [TypeError] and leaves the store as
      it was, which happens only for an id that is not registered, or
      returns and leaves the board consistent.
    - [movePawn] either throws and leaves the store as it was, or
      returns a consistent board, and the input board still reads as
      before.
    In every case the prototype of the registry is [Object.prototype]
    afterwards as well. *)
Theorem C2_consistency_preserved h board v :
  view h board = Some v → rows_present v → consistent v → v_proto v = None →
  (∀ pawn p, pawn_at h pawn = Some p →
     v_pawns v !! id p = None → id p ≠ "__proto__" →
     (∃ e, placePawn board pawn h = (Throw e, h)) ∨
     (∃ h' v', placePawn board pawn h = (Ok tt, h') ∧
        view h' board = Some v' ∧ rows_present v' ∧ consistent v' ∧
        v_proto v' = None)) ∧
  (∀ now rnd up color r c,
     (∀ c0 rest, color = String c0 rest →
                 v_pawns v !! new_id up c0 now rnd = None) →
     (∃ e, addPawn now rnd up board color r c h = (Throw e, h)) ∨
     (∃ pawn h' v', addPawn now rnd up board color r c h = (Ok pawn, h') ∧
        view h' board = Some v' ∧ rows_present v' ∧ consistent v' ∧
        v_proto v' = None)) ∧
  (∀ pawnId,
     (v_pawns v !! pawnId = None ∧
      removePawn board pawnId h = (Throw TypeError, h)) ∨
     (∃ h' v', removePawn board pawnId h = (Ok tt, h') ∧
        view h' board = Some v' ∧ rows_present v' ∧ consistent v' ∧
        v_proto v' = None)) ∧
  (∀ pawnId target,
     (∃ e, movePawn board pawnId target h = (Throw e, h)) ∨
     (∃ newBoard updatedPawn h' v',
        movePawn board pawnId target h = (Ok (newBoard, updatedPawn), h') ∧
        view h' newBoard = Some v' ∧ rows_present v' ∧ consistent v' ∧
        v_proto v' = None ∧
        view h' board = Some v)).
Proof.
  intros Hv Hrows Hcons Hproto.
  pose proof Hv as (b & reg & rows & R)%view_rep.
  pose proof (view_no_own_proto _ _ _ Hv) as Hown.
  split; [|split; [|split]].
  - intros pawn p Hp Hfresh Hne.
    destruct (placePawn_cases R pawn p Hp) as [E|[E|[E|[Hin Hnull]]]];
      [left; eauto..|].
    destruct (placePawn_ok R pawn p Hp Hin Hnull) as (h' & E & _ & R' & _).
    right. exists h', (place_view v p).
    split; [done|]. split; [apply view_rep; eauto|].
    split; [by apply place_view_rows_present|].
    split; [by apply place_view_consistent|].
    by rewrite place_view_proto.
  - intros now rnd up color r c Hfresh.
    destruct (addPawn_cases R now rnd up color r c)
      as [E|[E|[E|(Hin & Hnull & Hcol)]]]; [left; eauto..|].
    destruct color as [|c0 rest]; [done|].
    destruct (addPawn_ok R now rnd up c0 rest r c Hin Hnull)
      as (h' & E & _ & _ & R' & _).
    right. eexists _, h', _.
    split; [exact E|]. split; [apply view_rep; eauto|].
    split; [by apply place_view_rows_present|]. split.
    + apply place_view_consistent;
        [done|apply new_id_not_proto|by apply (Hfresh c0 rest)|done].
    + rewrite place_view_proto; [done|apply new_id_not_proto].
  - intros pawnId.
    destruct (v_get v pawnId) as [|p|[|]] eqn:Hget.
    + right. exists h, v. split; [|done].
      apply (removePawn_absent R). by left.
    + pose proof (v_get_entry_own _ _ _ Hproto Hget) as Hk.
      pose proof Hcons as (_ & Hb & _).
      destruct (removePawn_present R pawnId p Hget) as (h' & E & _ & R').
      { apply cell_row_present. by rewrite (Hb _ _ Hk). }
      right. exists h', (remove_view v pawnId p).
      split; [done|]. split; [apply view_rep; eauto|].
      split; [by apply (set_cell_rows_present v)|].
      split; [by apply remove_view_consistent|done].
    + left. split; [|by apply (removePawn_inherited R)].
      destruct (v_pawns v !! pawnId) as [q|] eqn:Hk; [|done].
      by rewrite (v_get_own _ _ _ Hk) in Hget.
    + right. exists h, v. split; [|done].
      apply (removePawn_absent R). by right.
  - intros pawnId target.
    destruct (v_get v pawnId) as [|p|[|]] eqn:Hget.
    + left. eexists. apply (movePawn_not_found R). by left.
    + pose proof (v_get_entry_own _ _ _ Hproto Hget) as Hk.
      destruct (decide (target ∈ allowed_moves v p)) as [Hin|Hout].
      * pose proof Hcons as (_ & Hb & _).
        destruct (movePawn_ok R Hrows pawnId p target Hget Hin)
          as (nb & up & h' & b' & reg' & rows' & Hrun & Htake & R' & _).
        { apply cell_row_present. by rewrite (Hb _ _ Hk). }
        right. exists nb, up, h', (move_view v p target).
        split; [done|]. split; [apply view_rep; eauto|].
        split; [by apply move_view_rows_present|].
        split; [by eapply move_view_consistent|].
        split; [|by eapply view_extend].
        apply move_view_proto.
        rewrite (consistent_key _ _ _ Hcons Hk). intros ->. congruence.
      * left. eexists. by eapply movePawn_illegal.
    + left. eexists. by apply (movePawn_inherited R).
    + left. eexists. apply (movePawn_not_found R). by right.
Qed.

(** On the initial board with the new record "N1" (reference 43) at
    hand: "N1" is placed on (3,3); a black pawn is added on (4,4);
    "W2" is removed; "W2" is moved to (3,0). *)
Lemma C2_witness :
  view h_ready b_start = Some v_start ∧ rows_present v_start ∧
  consistent v_start ∧ v_proto v_start = None ∧
  pawn_at h_ready 43%nat = Some pawn_N1 ∧
  v_pawns v_start !! "N1" = None ∧
  v_pawns v_start !! "B_1700000000000_3f9a" = None ∧
  (∃ h' v', placePawn b_start 43%nat h_ready = (Ok tt, h') ∧
     view h' b_start = Some v' ∧ consistent v') ∧
  (∃ pawn h' v',
     addPawn 1700000000000 "3f9a" EmptyString b_start "black" 4 4 h_ready =
       (Ok pawn, h') ∧
     view h' b_start = Some v' ∧ consistent v') ∧
  (∃ h' v', removePawn b_start "W2" h_ready = (Ok tt, h') ∧
     view h' b_start = Some v' ∧ consistent v') ∧
  (∃ newBoard updatedPawn h' v',
     movePawn b_start "W2" (mkPosition 3 0) h_ready =
       (Ok (newBoard, updatedPawn), h') ∧
     view h' newBoard = Some v' ∧ consistent v').
Proof.
  assert (view h_ready b_start = Some v_start) as Hv
    by (vm_compute; reflexivity).
  assert (rows_present v_start) as Hr by (vm_compute; discriminate).
  assert (consistent v_start) as Hc
    by (apply consistentb_sound; vm_compute; reflexivity).
  assert (v_proto v_start = None) as Hpr by (vm_compute; reflexivity).
  assert (pawn_at h_ready 43%nat = Some pawn_N1) as Hp
    by (vm_compute; reflexivity).
  assert (v_pawns v_start !! id pawn_N1 = None) as Hn
    by (vm_compute; reflexivity).
  assert (id pawn_N1 ≠ "__proto__") as Hne by discriminate.
  assert (v_pawns v_start !! "B_1700000000000_3f9a" = None) as Hb
    by (vm_compute; reflexivity).
  destruct (C2_consistency_preserved h_ready b_start v_start Hv Hr Hc Hpr)
    as (Hplace & Hadd & Hremove & Hmove).
  split; [exact Hv|]. split; [exact Hr|]. split; [exact Hc|].
  split; [exact Hpr|].
  split; [exact Hp|]. split; [exact Hn|]. split; [exact Hb|].
  split; [|split; [|split]].
  - destruct (Hplace 43%nat pawn_N1 Hp Hn Hne)
      as [[e E]|(h' & v' & E & Hv' & _ & Hc' & _)].
    + vm_compute in E. discriminate E.
    + exists h', v'. split; [exact E|]. split; [exact Hv'|exact Hc'].
  - destruct (Hadd 1700000000000 "3f9a" EmptyString "black" 4 4)
      as [[e E]|(pawn & h' & v' & E & Hv' & _ & Hc' & _)].
    + intros c0 rest [= <- <-]. exact Hb.
    + vm_compute in E. discriminate E.
    + exists pawn, h', v'. split; [exact E|]. split; [exact Hv'|exact Hc'].
  - destruct (Hremove "W2") as [[_ E]|(h' & v' & E & Hv' & _ & Hc' & _)].
    + vm_compute in E. discriminate E.
    + exists h', v'. split; [exact E|]. split; [exact Hv'|exact Hc'].
  - destruct (Hmove "W2" (mkPosition 3 0))
      as [[e E]|(nb & up & h' & v' & E & Hv' & _ & Hc' & _)].
    + vm_compute in E. discriminate E.
    + exists nb, up, h', v'. split; [exact E|]. split; [exact Hv'|exact Hc'].
Defined.

(** ** C3: movePawn works on a copy *)

(** C3.  On a well-formed board (every reference of the board leads to
    an object of the right kind, the rows are distinct arrays, and
    there is one for every row below the height), let the pawn
    registered under [pawnId] carry that id and stand on its cell (as
    every pawn does on a board built with the functions of index.js
    without the id [__proto__], see [standing]), and let [target] be in
    its legal move set [allowed_moves v p], the list
    [getPawnAllowedMoves] returns for it.
    Then [movePawn] returns a board and a pawn record such that
    - every object of the store before the call is still there,
      unchanged ([take (length h) h' = h]), so the input board reads
      exactly as before;
    - the returned board, its registry, its grid array and every row
      of it are objects created by the call;
    - in the returned board the registry holds, under [pawnId], the
      record with the same id and colour, position [target] and
      [hasMoved = true] (this is also the returned record), the source
      cell holds [null] and the target cell holds [pawnId]. *)
Theorem C3_movePawn_copies h board v pawnId p target :
  view h board = Some v → rows_present v →
  v_pawns v !! pawnId = Some p → id p = pawnId →
  cell v (position p) = VStr pawnId →
  target ∈ allowed_moves v p →
  (∃ pawn, pawns_get board pawnId h = (Ok (Entry pawn), h) ∧
           getPawnAllowedMoves pawn board h = (Ok (allowed_moves v p), h)) ∧
  ∃ newBoard updatedPawn h' v' b' rows',
    movePawn board pawnId target h = (Ok (newBoard, updatedPawn), h') ∧
    take (length h) h' = h ∧
    view h' board = Some v ∧
    board_at h' newBoard = Some b' ∧ grid_at h' (grid b') = Some rows' ∧
    (length h ≤ newBoard)%nat ∧ (length h ≤ pawns b')%nat ∧
    (length h ≤ grid b')%nat ∧ Forall (λ l, length h ≤ l)%nat rows' ∧
    (length h ≤ updatedPawn)%nat ∧
    view h' newBoard = Some v' ∧
    v_width v' = v_width v ∧ v_height v' = v_height v ∧
    pawn_at h' updatedPawn = Some (moved p target) ∧
    v_pawns v' !! pawnId =
      Some {| id := pawnId; color := color p; position := target;
              hasMoved := true |} ∧
    moved p target = {| id := pawnId; color := color p; position := target;
                        hasMoved := true |} ∧
    cell v' (position p) = VNull ∧
    cell v' target = VStr pawnId.
Proof.
  intros Hv Hrows Hk Hid Hsrc Hlegal.
  pose proof Hv as (b & reg & rows & R)%view_rep.
  pose proof (v_get_own _ _ _ Hk) as Hget.
  assert (id p ≠ "__proto__") as Hproto.
  { rewrite Hid. intros ->.
    pose proof (view_no_own_proto _ _ _ Hv). congruence. }
  destruct (movePawn_ok R Hrows pawnId p target Hget Hlegal)
    as (nb & up & h' & b' & reg' & rows' & Hrun & Htake & R' & Hup &
        Hnb & Hupl & Hpb & Hgb & Hrs).
  { apply cell_row_present. by rewrite Hsrc. }
  assert (moved p target = {| id := pawnId; color := color p;
            position := target; hasMoved := true |}) as Hmoved.
  { unfold moved. by rewrite Hid, Position_eta. }
  assert (cell v (position p) ≠ VUndefined) as Hs by (by rewrite Hsrc).
  assert (cell v target ≠ VUndefined) as Ht.
  { destruct (allowed_moves_target _ _ _ Hlegal) as [->|(X & -> & _)];
      done. }
  pose proof (allowed_moves_not_source _ _ _ Hlegal) as Hne.
  split.
  { destruct (allowed_moves_computed h board v pawnId p Hv Hrows Hget)
      as (pawn & ? & _ & ?). eauto. }
  exists nb, up, h', (move_view v p target), b', rows'.
  split; [done|]. split; [done|]. split; [by eapply view_extend|].
  split; [unfold board_at; by rewrite (rep_board _ _ _ _ _ _ R')|].
  split; [unfold grid_at; by rewrite (rep_grid _ _ _ _ _ _ R')|].
  do 5 (split; [done|]).
  split; [apply view_rep; eauto|].
  split; [apply move_view_width|]. split; [apply move_view_height|].
  split; [done|].
  split.
  { rewrite <- Hmoved, <- Hid. rewrite move_view_pawns by done.
    by rewrite lookup_insert_eq. }
  split; [done|]. split.
  - rewrite move_view_cell by done.
    rewrite decide_False by auto. by rewrite decide_True.
  - rewrite move_view_cell by done. rewrite decide_True by done.
    by rewrite Hid.
Qed.

(** "W2" of the initial board goes from (1,0) to (3,0). *)
Lemma C3_witness :
  view h_start b_start = Some v_start ∧ rows_present v_start ∧
  v_pawns v_start !! "W2" =
    Some {| id := "W2"; color := "white"; position := mkPosition 1 0;
            hasMoved := false |} ∧
  cell v_start (mkPosition 1 0) = VStr "W2" ∧
  mkPosition 3 0 ∈ allowed_moves v_start
    {| id := "W2"; color := "white"; position := mkPosition 1 0;
       hasMoved := false |} ∧
  ∃ newBoard updatedPawn h' v',
    movePawn b_start "W2" (mkPosition 3 0) h_start =
      (Ok (newBoard, updatedPawn), h') ∧
    take (length h_start) h' = h_start ∧
    view h' b_start = Some v_start ∧
    view h' newBoard = Some v' ∧
    v_pawns v' !! "W2" =
      Some {| id := "W2"; color := "white"; position := mkPosition 3 0;
              hasMoved := true |} ∧
    cell v' (mkPosition 1 0) = VNull ∧
    cell v' (mkPosition 3 0) = VStr "W2".
Proof.
  set (p := {| id := "W2"; color := "white"; position := mkPosition 1 0;
               hasMoved := false |}).
  assert (view h_start b_start = Some v_start) as Hv
    by (vm_compute; reflexivity).
  assert (rows_present v_start) as Hr by (vm_compute; discriminate).
  assert (v_pawns v_start !! "W2" = Some p) as Hk by (vm_compute; reflexivity).
  assert (cell v_start (position p) = VStr "W2") as Hc
    by (vm_compute; reflexivity).
  assert (mkPosition 3 0 ∈ allowed_moves v_start p) as Hin.
  { apply some_equal_elem. vm_compute. reflexivity. }
  split; [exact Hv|]. split; [exact Hr|]. split; [exact Hk|].
  split; [exact Hc|]. split; [exact Hin|].
  destruct (C3_movePawn_copies h_start b_start v_start "W2" p (mkPosition 3 0)
              Hv Hr Hk eq_refl Hc Hin)
    as (_ & nb & up & h' & v' & b' & rows' & H1 & H2 & H3 & _ & _ & _ & _ & _ &
        _ & _ & H4 & _ & _ & _ & H5 & _ & H6 & H7).
  exists nb, up, h', v'. repeat split; assumption.
Defined.

(** ** C4: captures, and no landing on one's own colour *)

(** C4.  On a well-formed board whose grid has a row array for every
    row index below the height, let [p] be registered under [pawnId]
    and let the target cell hold the id [X] of a registered pawn [q].
    The legal move set of [p] is [allowed_moves v p], the list
    [getPawnAllowedMoves] returns for it.  If [q] has another colour
    than [p], [p] carries its key as id and stands on its cell, and the
    target is in the legal move set, then [movePawn] returns a board
    whose registry has no entry [X] any more and whose target cell
    holds the moving pawn's id.  If [q] has the colour of [p], the
    target is not in the legal move set and [movePawn] throws "Illegal
    move", leaving the store as it was. *)
Theorem C4_capture_and_own_colour h board v pawnId p target X q :
  view h board = Some v → rows_present v →
  v_pawns v !! pawnId = Some p →
  cell v target = VStr X → v_pawns v !! X = Some q →
  (∃ pawn, pawns_get board pawnId h = (Ok (Entry pawn), h) ∧
           getPawnAllowedMoves pawn board h = (Ok (allowed_moves v p), h)) ∧
  (color q ≠ color p → id p = pawnId →
   cell v (position p) = VStr pawnId → target ∈ allowed_moves v p →
     ∃ newBoard updatedPawn h' v',
       movePawn board pawnId target h = (Ok (newBoard, updatedPawn), h') ∧
       view h' newBoard = Some v' ∧
       v_pawns v' !! X = None ∧
       cell v' target = VStr pawnId) ∧
  (color q = color p →
     (target ∉ allowed_moves v p) ∧
     movePawn board pawnId target h =
       (Throw (IllegalMove pawnId (row target) (col target)), h)).
Proof.
  intros Hv Hrows Hk HX Hq.
  pose proof Hv as (b & reg & rows & R)%view_rep.
  pose proof (v_get_own _ _ _ Hk) as Hget.
  split; [|split].
  - destruct (allowed_moves_computed h board v pawnId p Hv Hrows Hget)
      as (pawn & ? & _ & ?). eauto.
  - intros Hcol Hid Hsrc Hlegal.
    destruct (legal_move_runs h board v pawnId p target
                Hv Hrows Hk Hid Hsrc Hlegal)
      as (nb & up & h' & Hrun & Hv' & Hcell).
    exists nb, up, h', (move_view v p target).
    split; [done|]. split; [done|]. split; [|done].
    assert (X ≠ pawnId) as HneX.
    { intros ->. congruence. }
    destruct (allowed_moves_target _ _ _ Hlegal)
      as [Hnull|(X' & HX' & Htr & _)]; [congruence|].
    assert (X' = X) as -> by congruence.
    rewrite move_view_pawns.
    + rewrite Htr. rewrite lookup_insert_ne by congruence.
      apply lookup_delete_eq.
    + rewrite Hid. intros ->.
      pose proof (view_no_own_proto _ _ _ Hv). congruence.
    + by apply allowed_moves_not_source in Hlegal.
  - intros Hcol.
    assert (target ∉ allowed_moves v p) as Hnot.
    { intros Hlegal.
      destruct (allowed_moves_target _ _ _ Hlegal)
        as [Hnull|(X' & HX' & _ & Hq' & _)]; [congruence|].
      assert (X' = X) as -> by congruence.
      by rewrite (v_get_own _ _ _ Hq) in Hq'. }
    split; [done|]. by eapply movePawn_illegal.
Qed.

(** On the board [skirmish]: "W1" on (1,0) captures the black "B2" on
    (2,1), and cannot step onto the white "W3" on (2,0). *)
Lemma C4_witness :
  view h_skirmish 10%nat = Some v_skirmish ∧ rows_present v_skirmish ∧
  v_pawns v_skirmish !! "W1" = Some pawn_W1 ∧
  cell v_skirmish (mkPosition 1 0) = VStr "W1" ∧
  cell v_skirmish (mkPosition 2 1) = VStr "B2" ∧
  v_pawns v_skirmish !! "B2" = Some pawn_B2 ∧
  cell v_skirmish (mkPosition 2 0) = VStr "W3" ∧
  v_pawns v_skirmish !! "W3" = Some pawn_W3 ∧
  mkPosition 2 1 ∈ allowed_moves v_skirmish pawn_W1 ∧
  (∃ newBoard updatedPawn h' v',
     movePawn 10%nat "W1" (mkPosition 2 1) h_skirmish =
       (Ok (newBoard, updatedPawn), h') ∧
     view h' newBoard = Some v' ∧
     v_pawns v' !! "B2" = None ∧
     cell v' (mkPosition 2 1) = VStr "W1") ∧
  ((mkPosition 2 0 ∉ allowed_moves v_skirmish pawn_W1) ∧
   movePawn 10%nat "W1" (mkPosition 2 0) h_skirmish =
     (Throw (IllegalMove "W1" 2 0), h_skirmish)).
Proof.
  assert (view h_skirmish 10%nat = Some v_skirmish) as Hv
    by (vm_compute; reflexivity).
  assert (rows_present v_skirmish) as Hr by (vm_compute; discriminate).
  assert (v_pawns v_skirmish !! "W1" = Some pawn_W1) as Hk
    by (vm_compute; reflexivity).
  assert (cell v_skirmish (position pawn_W1) = VStr "W1") as Hc
    by (vm_compute; reflexivity).
  assert (cell v_skirmish (mkPosition 2 1) = VStr "B2") as HcB
    by (vm_compute; reflexivity).
  assert (v_pawns v_skirmish !! "B2" = Some pawn_B2) as HB
    by (vm_compute; reflexivity).
  assert (cell v_skirmish (mkPosition 2 0) = VStr "W3") as HcW
    by (vm_compute; reflexivity).
  assert (v_pawns v_skirmish !! "W3" = Some pawn_W3) as HW
    by (vm_compute; reflexivity).
  assert (mkPosition 2 1 ∈ allowed_moves v_skirmish pawn_W1) as Hin.
  { apply some_equal_elem. vm_compute. reflexivity. }
  split; [exact Hv|]. split; [exact Hr|]. split; [exact Hk|].
  split; [exact Hc|]. split; [exact HcB|]. split; [exact HB|].
  split; [exact HcW|]. split; [exact HW|]. split; [exact Hin|].
  split.
  - apply (proj1 (proj2 (C4_capture_and_own_colour h_skirmish 10%nat
                    v_skirmish "W1" pawn_W1 (mkPosition 2 1) "B2" pawn_B2
                    Hv Hr Hk HcB HB)));
      [discriminate|reflexivity|exact Hc|exact Hin].
  - apply (proj2 (proj2 (C4_capture_and_own_colour h_skirmish 10%nat
                    v_skirmish "W1" pawn_W1 (mkPosition 2 0) "W3" pawn_W3
                    Hv Hr Hk HcW HW))). reflexivity.
Defined.

(** ** C5: how movePawn fails *)

(** C5.  On the board [createInitialBoard()] returns, no pawn is
    registered under "toString".  Still [board.pawns["toString"]] is
    not [undefined]: the registry is a plain object and answers with
    the function every object inherits under that name.  The guard
    [if (!pawn)] of [movePawn] lets it through, no "Pawn not found" is
    thrown, and the call ends in [getPawnAllowedMoves] with a
    [TypeError] on [pawn.position.row].  With an id that no object
    inherits, such as "X9", the error is "Pawn not found".  The store is
    left as it was in both cases. *)
Theorem C5_inherited_name_passes_guard :
  createInitialBoard [] = (Ok b_start, h_start) ∧
  view h_start b_start = Some v_start ∧
  v_pawns v_start !! "toString" = None ∧
  pawns_get b_start "toString" h_start = (Ok (Inherited true), h_start) ∧
  movePawn b_start "toString" (mkPosition 2 0) h_start =
    (Throw TypeError, h_start) ∧
  v_pawns v_start !! "X9" = None ∧
  movePawn b_start "X9" (mkPosition 2 0) h_start =
    (Throw (PawnNotFound "X9"), h_start).
Proof. repeat split; vm_compute; reflexivity. Qed.

(** ** C6: every move is on the board, every diagonal move is a capture *)

(** C6.  On the board [stray] the white pawn "W1" stands on (1,0), it
    is the only registered pawn, and cell (2,1) holds the id "toString"
    under which no pawn is registered.  [board.pawns["toString"]] is the
    function every object inherits; the guard [if (!targetPawn)] lets it
    through, its [color] is [undefined], which differs from "white", and
    [getPawnAllowedMoves] returns the diagonal (2,1) although no pawn of
    the opposite colour stands there.  The specification's algorithm
    gives (2,0) and (3,0) only. *)
Theorem C6_stray_id_captured :
  stray [] = (Ok 10%nat, h_stray) ∧
  view h_stray 10%nat = Some v_stray ∧
  pawn_at h_stray 11%nat = Some pawn_W1 ∧
  map_to_list (v_pawns v_stray) = [("W1", pawn_W1)] ∧
  cell v_stray (mkPosition 2 1) = VStr "toString" ∧
  v_pawns v_stray !! "toString" = None ∧
  pawns_get 10%nat "toString" h_stray = (Ok (Inherited true), h_stray) ∧
  spec_moves v_stray pawn_W1 = [mkPosition 2 0; mkPosition 3 0] ∧
  getPawnAllowedMoves 11%nat 10%nat h_stray =
    (Ok [mkPosition 2 0; mkPosition 3 0; mkPosition 2 1], h_stray).
Proof. repeat split; vm_compute; reflexivity. Qed.

(** ** C7: failures leave the board alone; addPawn adds one pawn *)

(** C7, as stated, fails for [addPawn]: the id it generates is made of
    the first letter of the colour, the clock and random digits, and
    [placePawn] stores the record under it without looking whether that
    id is already registered.  On the board [added_once] one black pawn
    has been added on (3,3); a second [addPawn] for (4,4), for which the
    clock and the random digits are the same again, succeeds, and the
    registry has one entry afterwards as it had before, while two cells
    hold the id. *)
Lemma C7_counterexample :
  added_once [] = (Ok 10%nat, h_added) ∧
  view h_added 10%nat = Some v_added ∧
  size (v_pawns v_added) = 1%nat ∧
  addPawn 1700000000000 "3f9a" EmptyString 10%nat "black" 4 4 h_added =
    (Ok 12%nat, h_added_twice) ∧
  view h_added_twice 10%nat = Some v_added_twice ∧
  size (v_pawns v_added_twice) = 1%nat ∧
  cell v_added_twice (mkPosition 3 3) = VStr "B_1700000000000_3f9a" ∧
  cell v_added_twice (mkPosition 4 4) = VStr "B_1700000000000_3f9a".
Proof. repeat split; vm_compute; reflexivity. Qed.

(** C7, amended.  On a well-formed board:
    - when [placePawn] throws "Invalid position to place pawn" or
      "Position is already occupied", the store is exactly what it was;
    - the same holds when [addPawn] throws "Cannot add pawn out of
      bounds" or "Square already occupied";
    - [addPawn] on a cell that is in bounds and empty, with a colour of
      at least one character, returns; it creates one pawn record, with
      the given colour and position and [hasMoved = false], registers
      it under the generated id and writes that id into the cell, and
      changes no other cell; the registry has grown by exactly one
      entry if the generated id was not registered, and has as many
      entries as before if it was. *)
Theorem C7_failures_and_addPawn h board v :
  view h board = Some v →
  (∀ pawn e h', placePawn board pawn h = (Throw e, h') →
     is_OutOfBounds e || is_OccupiedSquare e = true → h' = h) ∧
  (∀ now rnd up color r c e h',
     addPawn now rnd up board color r c h = (Throw e, h') →
     is_OutOfBounds e || is_OccupiedSquare e = true → h' = h) ∧
  (∀ now rnd up c0 rest r c,
     in_bounds v (mkPosition r c) = true → cell v (mkPosition r c) = VNull →
     let p := {| id := new_id up c0 now rnd; color := String c0 rest;
                 position := mkPosition r c; hasMoved := false |} in
     ∃ pawn h' v',
       addPawn now rnd up board (String c0 rest) r c h = (Ok pawn, h') ∧
       length h' = S (length h) ∧ pawn = length h ∧
       pawn_at h' pawn = Some p ∧
       view h' board = Some v' ∧
       v_pawns v' = <[id p := p]> (v_pawns v) ∧
       v_proto v' = v_proto v ∧
       cell v' (mkPosition r c) = VStr (id p) ∧
       (∀ pos, pos ≠ mkPosition r c → cell v' pos = cell v pos) ∧
       (v_pawns v !! id p = None → size (v_pawns v') = S (size (v_pawns v))) ∧
       (is_Some (v_pawns v !! id p) → size (v_pawns v') = size (v_pawns v))).
Proof.
  intros (b & reg & rows & R)%view_rep. split; [|split].
  - intros pawn e h' Hrun He.
    destruct (pawn_at h pawn) as [p|] eqn:Hp.
    + destruct (placePawn_cases R pawn p Hp) as [E|[E|[E|[Hin Hnull]]]];
        try (rewrite E in Hrun; by simplify_eq).
      destruct (placePawn_ok R pawn p Hp Hin Hnull) as (h1 & E & _).
      rewrite E in Hrun. done.
    + rewrite placePawn_not_a_pawn in Hrun by done. by simplify_eq.
  - intros now rnd up color r c e h' Hrun He.
    destruct (addPawn_cases R now rnd up color r c)
      as [E|[E|[E|(Hin & Hnull & Hcol)]]];
      try (rewrite E in Hrun; by simplify_eq).
    destruct color as [|c0 rest]; [done|].
    destruct (addPawn_ok R now rnd up c0 rest r c Hin Hnull) as (h1 & E & _).
    rewrite E in Hrun. done.
  - intros now rnd up c0 rest r c Hin Hnull p.
    destruct (addPawn_ok R now rnd up c0 rest r c Hin Hnull)
      as (h' & Hrun & Hlen & Hp & R' & _).
    assert (id p ≠ "__proto__") as Hne by apply new_id_not_proto.
    exists (length h), h', (place_view v p).
    split; [done|]. split; [done|]. split; [done|]. split; [done|].
    split; [apply view_rep; eauto|].
    split; [by apply place_view_pawns|].
    split; [by apply place_view_proto|].
    split; [by apply (place_view_cell_eq v p)|].
    split; [intros pos Hpos; by apply place_view_cell_ne|].
    rewrite place_view_pawns by done. split.
    + intros Hfresh. by apply map_size_insert_None.
    + intros [q Hq]. by eapply map_size_insert_Some.
Qed.

(** On the initial board: a pawn for (0,0) or for (9,9) is refused; a
    black pawn is added on (3,3), as the demo at the end of index.js
    does. *)
Lemma C7_witness :
  view h_start b_start = Some v_start ∧
  placePawn b_start 11%nat h_start =
    (Throw (PositionOccupied 0 0), h_start) ∧
  addPawn 1700000000000 "3f9a" EmptyString b_start "black" 9 9 h_start =
    (Throw AddOutOfBounds, h_start) ∧
  in_bounds v_start (mkPosition 3 3) = true ∧
  cell v_start (mkPosition 3 3) = VNull ∧
  v_pawns v_start !! "B_1700000000000_3f9a" = None ∧
  (∃ pawn h' v',
     addPawn 1700000000000 "3f9a" EmptyString b_start "black" 3 3 h_start =
       (Ok pawn, h') ∧
     pawn_at h' pawn =
       Some {| id := "B_1700000000000_3f9a"; color := "black";
               position := mkPosition 3 3; hasMoved := false |} ∧
     view h' b_start = Some v' ∧
     cell v' (mkPosition 3 3) = VStr "B_1700000000000_3f9a" ∧
     size (v_pawns v') = S (size (v_pawns v_start))).
Proof.
  assert (view h_start b_start = Some v_start) as Hv
    by (vm_compute; reflexivity).
  assert (placePawn b_start 11%nat h_start =
            (Throw (PositionOccupied 0 0), h_start)) as Hp
    by (vm_compute; reflexivity).
  assert (addPawn 1700000000000 "3f9a" EmptyString b_start "black" 9 9 h_start =
            (Throw AddOutOfBounds, h_start)) as Ha
    by (vm_compute; reflexivity).
  assert (in_bounds v_start (mkPosition 3 3) = true) as Hin
    by (vm_compute; reflexivity).
  assert (cell v_start (mkPosition 3 3) = VNull) as Hnull
    by (vm_compute; reflexivity).
  assert (v_pawns v_start !! "B_1700000000000_3f9a" = None) as Hfresh
    by (vm_compute; reflexivity).
  destruct (C7_failures_and_addPawn h_start b_start v_start Hv)
    as (Hplace & Hadd & Hok).
  split; [exact Hv|].
  split; [exact Hp|]. split; [exact Ha|].
  split; [exact Hin|]. split; [exact Hnull|]. split; [exact Hfresh|].
  destruct (Hok 1700000000000 "3f9a" EmptyString "b"%char "lack" 3 3 Hin Hnull)
    as (pawn & h' & v' & H1 & _ & _ & H2 & H3 & _ & _ & H4 & _ & H5 & _).
  exists pawn, h', v'.
  split; [exact H1|]. split; [exact H2|]. split; [exact H3|].
  split; [exact H4|]. exact (H5 Hfresh).
Defined.

(** ** C8: the initial board *)

(** C8.  From any store, [createInitialBoard()] returns a board and
    leaves every earlier object untouched.  The board is 8 by 8; its
    registry has exactly 32 entries, 16 with colour "white" and 16 with
    colour "black", none with [hasMoved]; the counter [k] runs from 1
    to 32 over both colours: "W" + k for k = 1..16 stands on row
    (k-1) mod 2, column (k-1) / 2, and "B" + k for k = 17..32 on row
    6 + (k-17) mod 2, column (k-17) / 2; every cell of rows 0, 1, 6 and
    7 holds the id of the pawn standing there and every cell of rows 2
    to 5 is empty. *)
Theorem C8_createInitialBoard h :
  ∃ board h' v,
    createInitialBoard h = (Ok board, h') ∧
    take (length h) h' = h ∧
    view h' board = Some v ∧
    v_width v = 8 ∧ v_height v = 8 ∧
    length (v_grid v) = 8%nat ∧ Forall (λ cells, length cells = 8%nat) (v_grid v) ∧
    size (v_pawns v) = 32%nat ∧
    size (filter (λ kp, color kp.2 = "white") (v_pawns v)) = 16%nat ∧
    size (filter (λ kp, color kp.2 = "black") (v_pawns v)) = 16%nat ∧
    map_Forall (λ _ p, hasMoved p = false) (v_pawns v) ∧
    (∀ k, 1 ≤ k < 1 + 16 →
       v_pawns v !! pawn_name "W" k =
         Some {| id := pawn_name "W" k; color := "white";
                 position := mkPosition ((k - 1) mod 2) ((k - 1) / 2);
                 hasMoved := false |}) ∧
    (∀ k, 17 ≤ k < 17 + 16 →
       v_pawns v !! pawn_name "B" k =
         Some {| id := pawn_name "B" k; color := "black";
                 position := mkPosition (6 + (k - 17) mod 2) ((k - 17) / 2);
                 hasMoved := false |}) ∧
    (∀ c, 0 ≤ c < 0 + 8 →
       cell v (mkPosition 0 c) = VStr (pawn_name "W" (2 * c + 1)) ∧
       cell v (mkPosition 1 c) = VStr (pawn_name "W" (2 * c + 2)) ∧
       cell v (mkPosition 6 c) = VStr (pawn_name "B" (2 * c + 17)) ∧
       cell v (mkPosition 7 c) = VStr (pawn_name "B" (2 * c + 18)) ∧
       cell v (mkPosition 2 c) = VNull ∧ cell v (mkPosition 3 c) = VNull ∧
       cell v (mkPosition 4 c) = VNull ∧ cell v (mkPosition 5 c) = VNull).
Proof.
  destruct (createInitialBoard_rep h v_start initial_view_start)
    as (board & h' & b & reg & rows & Hrun & Htake & R).
  exists board, h', v_start.
  split; [done|]. split; [done|]. split; [apply view_rep; eauto|].
  split; [reflexivity|]. split; [reflexivity|].
  split; [vm_compute; reflexivity|].
  split; [by_decide|].
  split; [vm_compute; reflexivity|].
  split; [vm_compute; reflexivity|].
  split; [vm_compute; reflexivity|].
  split; [by_decide|].
  split; [by_range|].
  split; [by_range|].
  by_range.
Qed.

(** At program start the store is empty and the board is object 10. *)
Lemma C8_witness :
  createInitialBoard [] = (Ok b_start, h_start) ∧
  view h_start b_start = Some v_start ∧
  ∃ board h' v,
    createInitialBoard [] = (Ok board, h') ∧
    view h' board = Some v ∧
    size (v_pawns v) = 32%nat ∧
    v_pawns v !! "W16" =
      Some {| id := "W16"; color := "white"; position := mkPosition 1 7;
              hasMoved := false |} ∧
    v_pawns v !! "B17" =
      Some {| id := "B17"; color := "black"; position := mkPosition 6 0;
              hasMoved := false |} ∧
    cell v (mkPosition 7 7) = VStr "B32".
Proof.
  split; [vm_compute; reflexivity|]. split; [vm_compute; reflexivity|].
  destruct (C8_createInitialBoard [])
    as (board & h' & v & H1 & _ & H2 & _ & _ & _ & _ & H3 & _ & _ & _ &
        HW & HB & Hcells).
  exists board, h', v.
  split; [exact H1|]. split; [exact H2|]. split; [exact H3|].
  split; [exact (HW 16 ltac:(lia))|].
  split; [exact (HB 17 ltac:(lia))|].
  exact (proj1 (proj2 (proj2 (proj2 (Hcells 7 ltac:(lia)))))).
Defined.

(** ** C9: removePawn *)

(** C9.  On the board [createInitialBoard()] returns, no pawn is
    registered under "constructor".  Still
    [board.pawns["constructor"]] is not [undefined]: the registry is a
    plain object and answers with the function every object inherits
    under that name.  The guard [if (!pawn) return] of [removePawn] lets
    it through and the call ends with a [TypeError] on
    [pawn.position.row] instead of returning.  With an id that no
    object inherits, such as "X9", the call returns and the store is as
    it was. *)
Theorem C9_inherited_name_not_ignored :
  createInitialBoard [] = (Ok b_start, h_start) ∧
  view h_start b_start = Some v_start ∧
  v_pawns v_start !! "constructor" = None ∧
  pawns_get b_start "constructor" h_start = (Ok (Inherited true), h_start) ∧
  removePawn b_start "constructor" h_start = (Throw TypeError, h_start) ∧
  v_pawns v_start !! "X9" = None ∧
  removePawn b_start "X9" h_start = (Ok tt, h_start).
Proof. repeat split; vm_compute; reflexivity. Qed.

(** ** C10: nothing is offered from the far edge row *)

(** C10.  On a well-formed board, when the forward row of a pawn lies
    outside the board, [getPawnAllowedMoves] returns the empty
    sequence: the forward cell and both diagonal cells share that row,
    and the two-step cell is only tried after the one-step cell.  A
    white pawn on row [height - 1] and a pawn of another colour (black)
    on row 0 are the two cases in which this happens for a pawn that
    stands on the board. *)
Theorem C10_no_moves_from_far_edge h board v pawn p :
  view h board = Some v → pawn_at h pawn = Some p →
  (¬ (0 ≤ forwardRow p < v_height v) →
     getPawnAllowedMoves pawn board h = (Ok [], h)) ∧
  (color p = "white" → row (position p) = v_height v - 1 →
     getPawnAllowedMoves pawn board h = (Ok [], h)) ∧
  (color p ≠ "white" → row (position p) = 0 →
     getPawnAllowedMoves pawn board h = (Ok [], h)).
Proof.
  intros (b & reg & rows & R)%view_rep Hp.
  split; [|split].
  - intros Hout. by eapply getPawnAllowedMoves_edge.
  - intros Hc Hr. eapply getPawnAllowedMoves_edge; [done..|].
    unfold forwardRow, direction. rewrite Hc. simpl. lia.
  - intros Hc Hr. eapply getPawnAllowedMoves_edge; [done..|].
    unfold forwardRow, direction.
    apply String.eqb_neq in Hc. rewrite Hc. lia.
Qed.

(** The two pawns of the board [edge]. *)
Lemma C10_witness :
  view h_edge 10%nat = Some v_edge ∧
  pawn_at h_edge 11%nat = Some pawn_far_white ∧
  pawn_at h_edge 12%nat = Some pawn_far_black ∧
  row (position pawn_far_white) = v_height v_edge - 1 ∧
  row (position pawn_far_black) = 0 ∧
  getPawnAllowedMoves 11%nat 10%nat h_edge = (Ok [], h_edge) ∧
  getPawnAllowedMoves 12%nat 10%nat h_edge = (Ok [], h_edge).
Proof.
  assert (view h_edge 10%nat = Some v_edge) as Hv by (vm_compute; reflexivity).
  assert (pawn_at h_edge 11%nat = Some pawn_far_white) as Hw
    by (vm_compute; reflexivity).
  assert (pawn_at h_edge 12%nat = Some pawn_far_black) as Hb
    by (vm_compute; reflexivity).
  split; [exact Hv|]. split; [exact Hw|]. split; [exact Hb|].
  split; [reflexivity|]. split; [reflexivity|]. split.
  - apply (proj1 (proj2 (C10_no_moves_from_far_edge h_edge 10%nat v_edge
             11%nat pawn_far_white Hv Hw))); reflexivity.
  - apply (proj2 (proj2 (C10_no_moves_from_far_edge h_edge 10%nat v_edge
             12%nat pawn_far_black Hv Hb))); [discriminate|reflexivity].
Defined.

(** * Further properties of index.js *)

(** ** printBoard *)

Lemma Con_bind_ok {A B} (m : Con A) (k : A → Con B) s a s' :
  m s = (Ok a, s') → (m ≫= k) s = k a s'.
Proof. intros E. unfold mbind, Con_bind. by rewrite E. Qed.

Lemma Con_bind_throw {A B} (m : Con A) (k : A → Con B) s e s' :
  m s = (Throw e, s') → (m ≫= k) s = (Throw e, s').
Proof. intros E. unfold mbind, Con_bind. by rewrite E. Qed.

Lemma lift_run {A} (m : M A) h out r h' :
  m h = (r, h') → lift m (h, out) = (r, (h', out)).
Proof. intros E. unfold lift. simpl. by rewrite E. Qed.

Lemma seqZ_to_nat m w : seqZ m (Z.of_nat (Z.to_nat w)) = seqZ m w.
Proof. unfold seqZ. by rewrite Nat2Z.id. Qed.

Lemma reads_only_print_cells n : ∀ board r c line,
  reads_only (print_cells n board r c line).
Proof.
  induction n as [|n IH]; intros board r c line; simpl.
  - apply reads_only_ret.
  - apply reads_only_bind; [apply reads_only_grid_get|]. intros x.
    apply reads_only_bind; [|intros ?; apply IH].
    destruct (truthy x); [|apply reads_only_ret].
    apply reads_only_bind; [apply reads_only_pawns_get|]. intros [|l|t].
    + apply reads_only_throw.
    + apply reads_only_bind; [apply reads_only_get_pawn|].
      intros ?. apply reads_only_ret.
    + apply reads_only_ret.
Qed.

Lemma throws_only_pawns_get board k :
  throws_only is_TypeError (pawns_get board k).
Proof.
  unfold pawns_get.
  apply throws_only_bind; [apply throws_only_get_board|]. intros ?.
  apply throws_only_bind; [apply throws_only_get_registry|]. intros reg.
  destruct (own reg !! k); [apply throws_only_ret|].
  destruct (proto reg) as [l|]; [|apply throws_only_ret].
  destruct (String.eqb k "__proto__"); [apply throws_only_ret|].
  apply throws_only_bind; [apply throws_only_get_pawn|]. intros ?.
  apply throws_only_ret.
Qed.

Lemma throws_only_print_cells n : ∀ board r c line,
  throws_only is_TypeError (print_cells n board r c line).
Proof.
  induction n as [|n IH]; intros board r c line; simpl.
  - apply throws_only_ret.
  - apply throws_only_bind; [apply throws_only_grid_get|]. intros x.
    apply throws_only_bind; [|intros ?; apply IH].
    destruct (truthy x); [|apply throws_only_ret].
    apply throws_only_bind; [apply throws_only_pawns_get|]. intros [|l|t].
    + by apply throws_only_throw.
    + apply throws_only_bind; [apply throws_only_get_pawn|].
      intros ?. apply throws_only_ret.
    + apply throws_only_ret.
Qed.

(** Whatever the store holds, a run of the row loop leaves it alone,
    only appends to the console, and ends normally or with a
    [TypeError]. *)
Lemma print_rows_any n : ∀ board r h out,
  ∃ res new, print_rows n board r (h, out) = (res, (h, out ++ new)) ∧
             (length new ≤ n)%nat ∧
             (res = Ok tt ∨ res = Throw TypeError).
Proof.
  induction n as [|n IH]; intros board r h out; simpl.
  - exists (Ok tt), []. rewrite app_nil_r. split; [done|]. split; [simpl; lia|by left].
  - destruct (get_board board h) as [[b|e] h1] eqn:Hb.
    + assert (h1 = h) as -> by (eapply reads_only_run; [apply reads_only_get_board|done]).
      rewrite (Con_bind_ok _ _ _ _ _ (lift_run _ _ out _ _ Hb)).
      destruct (print_cells (Z.to_nat (width b)) board r 0 EmptyString h)
        as [[line|e] h1] eqn:Hc.
      * assert (h1 = h) as ->
          by (eapply reads_only_run; [apply reads_only_print_cells|done]).
        rewrite (Con_bind_ok _ _ _ _ _ (lift_run _ _ out _ _ Hc)).
        unfold mbind at 1, Con_bind at 1, console_log at 1. simpl.
        destruct (IH board (r - 1) h (out ++ [(pretty r ++ " - " ++ line)%string]))
          as (res & new & -> & Hlen & Hres).
        exists res, ((pretty r ++ " - " ++ line)%string :: new).
        split; [by rewrite <- app_assoc|]. split; [simpl; lia|done].
      * assert (h1 = h) as ->
          by (eapply reads_only_run; [apply reads_only_print_cells|done]).
        rewrite (Con_bind_throw _ _ _ _ _ (lift_run _ _ out _ _ Hc)).
        exists (Throw e), []. rewrite app_nil_r. split; [|split; [simpl; lia|right]].
        -- done.
        -- f_equal. eapply throws_only_print_cells. exact Hc.
    + assert (h1 = h) as -> by (eapply reads_only_run; [apply reads_only_get_board|done]).
      rewrite (Con_bind_throw _ _ _ _ _ (lift_run _ _ out _ _ Hb)).
      exists (Throw e), []. rewrite app_nil_r. split; [|split; [simpl; lia|right]].
      * done.
      * f_equal. eapply throws_only_get_board. exact Hb.
Qed.

Section print.
Context {h : heap} {board : loc} {b : Board} {reg : Registry}
  {rows : list loc} {v : BoardView} (R : rep h board b reg rows v).
Hypothesis rows_ok : rows_present v.

Lemma grid_get_row_present r c :
  0 ≤ r < v_height v →
  grid_get board r c h = (Ok (cell v (mkPosition r c)), h).
Proof.
  intros Hr. rewrite (grid_get_rep R). unfold cell. simpl.
  destruct (arr_get (v_grid v) r) as [cells|] eqn:E; [done|].
  exfalso. unfold arr_get in E. destruct (r <? 0) eqn:E0; [lia|].
  apply lookup_ge_None in E. unfold rows_present in rows_ok. lia.
Qed.

(** The body of the inner loop on a cell for whose id, if any,
    [pawns[id]] is not [undefined]. *)
Lemma print_glyph_run r c line :
  resolved_cell v r c →
  (match truthy (cell v (mkPosition r c)) with
   | None => mret (line ++ ". ")%string
   | Some id =>
       pawn ← pawns_get board id;
       match pawn with
       | Absent => throw TypeError
       | Entry pawn =>
           q ← get_pawn pawn;
           mret (line ++ if String.eqb (color q) "white"
                         then "W " else "B ")%string
       | Inherited _ => mret (line ++ "B ")%string
       end
   end) h = (Ok (line ++ glyph v (mkPosition r c))%string, h).
Proof.
  intros Hreg. unfold glyph.
  unfold resolved_cell in Hreg.
  destruct (truthy (cell v (mkPosition r c))) as [id|]; [|done].
  specialize (Hreg id eq_refl).
  destruct (pawns_get_rep R id) as (m & Hget & Hm).
  rewrite (bind_ok _ _ _ _ _ Hget).
  destruct m as [|l|t], (v_get v id) as [|q|t']; try done.
  by rewrite (bind_ok _ _ _ _ _
                (get_pawn_ok _ _ _ (proj2 (pawn_at_Some _ _ _) Hm))).
Qed.

(** The body of the inner loop throws on a truthy id for which
    [pawns[id]] is [undefined]. *)
Lemma print_glyph_throw r c line id :
  truthy (cell v (mkPosition r c)) = Some id → v_get v id = Absent →
  (match truthy (cell v (mkPosition r c)) with
   | None => mret (line ++ ". ")%string
   | Some id =>
       pawn ← pawns_get board id;
       match pawn with
       | Absent => throw TypeError
       | Entry pawn =>
           q ← get_pawn pawn;
           mret (line ++ if String.eqb (color q) "white"
                         then "W " else "B ")%string
       | Inherited _ => mret (line ++ "B ")%string
       end
   end) h = (Throw TypeError, h).
Proof.
  intros -> Hnone.
  by rewrite (bind_ok _ _ _ _ _ (pawns_get_absent R id Hnone)).
Qed.

Lemma print_cells_run n : ∀ r c line,
  0 ≤ r < v_height v →
  (∀ c', c ≤ c' < c + Z.of_nat n → resolved_cell v r c') →
  print_cells n board r c line h =
    (Ok (foldl String.append line
           ((λ c, glyph v (mkPosition r c)) <$> seqZ c (Z.of_nat n))), h).
Proof.
  induction n as [|n IH]; intros r c line Hr Hreg; [done|].
  cbn [print_cells].
  rewrite (bind_ok _ _ _ _ _ (grid_get_row_present r c Hr)).
  rewrite (bind_ok _ _ _ _ _ (print_glyph_run r c line (Hreg c ltac:(lia)))).
  rewrite IH; [|done|intros; apply Hreg; lia].
  rewrite (seqZ_cons c (Z.of_nat (S n))) by lia.
  replace (Z.pred (Z.of_nat (S n))) with (Z.of_nat n) by lia.
  done.
Qed.

(** When the inner loop returns, every cell it went over was
    registered. *)
Lemma print_cells_ok_inv n : ∀ r c line res h',
  0 ≤ r < v_height v →
  print_cells n board r c line h = (Ok res, h') →
  ∀ c', c ≤ c' < c + Z.of_nat n → resolved_cell v r c'.
Proof.
  induction n as [|n IH]; intros r c line res h' Hr Hrun c' Hc'; [lia|].
  cbn [print_cells] in Hrun.
  rewrite (bind_ok _ _ _ _ _ (grid_get_row_present r c Hr)) in Hrun.
  assert (resolved_cell v r c) as Hreg.
  { intros id Hid E.
    by rewrite (bind_throw _ _ _ _ _ (print_glyph_throw r c line id Hid E))
      in Hrun. }
  destruct (decide (c' = c)) as [->|Hne]; [done|].
  rewrite (bind_ok _ _ _ _ _ (print_glyph_run r c line Hreg)) in Hrun.
  eapply IH; [done|exact Hrun|lia].
Qed.

Lemma print_rows_run n : ∀ out,
  Z.of_nat n ≤ v_height v →
  (∀ r c, 0 ≤ r < Z.of_nat n → 0 ≤ c < v_width v → resolved_cell v r c) →
  print_rows n board (Z.of_nat n - 1) (h, out) =
    (Ok tt, (h, out ++ (row_line v <$> reverse (seqZ 0 (Z.of_nat n))))).
Proof.
  induction n as [|n IH]; intros out Hn Hreg.
  - simpl. by rewrite app_nil_r.
  - cbn [print_rows].
    rewrite (Con_bind_ok _ _ _ _ _ (lift_run _ _ out _ _ (get_board_rep R))).
    rewrite <- (rep_width _ _ _ _ _ _ R).
    erewrite (Con_bind_ok _ _ (h, out)); last first.
    { apply lift_run. apply print_cells_run; [lia|].
      intros c' Hc'. apply Hreg; lia. }
    unfold mbind at 1, Con_bind at 1, console_log at 1. cbn [fst snd].
    replace (Z.of_nat (S n) - 1 - 1) with (Z.of_nat n - 1) by lia.
    rewrite IH; [|lia|intros; apply Hreg; lia].
    rewrite seqZ_S, reverse_app, <- app_assoc. simpl.
    unfold row_line. rewrite seqZ_to_nat.
    replace (Z.of_nat (S n) - 1) with (0 + Z.of_nat n) by lia. done.
Qed.

(** When the row loop returns, every cell of the rows it printed was
    registered. *)
Lemma print_rows_ok_inv n : ∀ out s,
  Z.of_nat n ≤ v_height v →
  print_rows n board (Z.of_nat n - 1) (h, out) = (Ok tt, s) →
  ∀ r c, 0 ≤ r < Z.of_nat n → 0 ≤ c < v_width v → resolved_cell v r c.
Proof.
  induction n as [|n IH]; intros out s Hn Hrun r c Hr Hc; [lia|].
  cbn [print_rows] in Hrun.
  rewrite (Con_bind_ok _ _ _ _ _ (lift_run _ _ out _ _ (get_board_rep R))) in Hrun.
  rewrite <- (rep_width _ _ _ _ _ _ R) in Hrun.
  destruct (print_cells (Z.to_nat (v_width v)) board (Z.of_nat (S n) - 1) 0
              EmptyString h) as [[line|e] h1] eqn:Hcells.
  - assert (h1 = h) as ->
      by (eapply reads_only_run; [apply reads_only_print_cells|done]).
    destruct (decide (r = Z.of_nat (S n) - 1)) as [->|Hne].
    + eapply print_cells_ok_inv; [|exact Hcells|]; lia.
    + rewrite (Con_bind_ok _ _ _ _ _ (lift_run _ _ out _ _ Hcells)) in Hrun.
      unfold mbind at 1, Con_bind at 1, console_log at 1 in Hrun.
      cbn [fst snd] in Hrun.
      replace (Z.of_nat (S n) - 1 - 1) with (Z.of_nat n - 1) in Hrun by lia.
      eapply IH; [|exact Hrun| |done]; lia.
  - by rewrite (Con_bind_throw _ _ _ _ _ (lift_run _ _ out _ _ Hcells)) in Hrun.
Qed.

Lemma resolvable_cells :
  resolvable v ↔
  ∀ r c, 0 ≤ r < v_height v → 0 ≤ c < v_width v → resolved_cell v r c.
Proof.
  unfold resolvable, resolved_cell, in_bounds. split.
  - intros HP r c Hr Hc id. apply HP. simpl. lia.
  - intros HP [r c] id Hin. simpl in Hin. apply HP; lia.
Qed.

Lemma printBoard_unfold out :
  printBoard board (h, out) =
    (_ ← print_rows (Z.to_nat (v_height v)) board (v_height v - 1);
     console_log "    0 1 2 3 4 5 6 7 (cols)")
      (h, out ++ ["Board - top row to bottom raw:"]).
Proof.
  unfold printBoard.
  unfold mbind at 1, Con_bind at 1, console_log at 1. cbn [fst snd].
  rewrite (Con_bind_ok _ _ _ _ _ (lift_run _ _ _ _ _ (get_board_rep R))).
  by rewrite (rep_height _ _ _ _ _ _ R).
Qed.

Lemma printBoard_rep out :
  resolvable v →
  printBoard board (h, out) = (Ok tt, (h, out ++ board_lines v)).
Proof.
  intros HP0. pose proof (proj1 resolvable_cells HP0) as HP.
  rewrite printBoard_unfold.
  unfold board_lines.
  destruct (decide (0 ≤ v_height v)) as [Hh|Hh].
  - replace (v_height v - 1) with (Z.of_nat (Z.to_nat (v_height v)) - 1) by lia.
    rewrite (Con_bind_ok _ _ _ _ _
               (print_rows_run (Z.to_nat (v_height v)) _ ltac:(lia)
                  ltac:(intros; apply HP; lia))).
    unfold console_log. cbn [fst snd]. rewrite seqZ_to_nat.
    by rewrite <- !app_assoc.
  - replace (Z.to_nat (v_height v)) with 0%nat by lia.
    rewrite seqZ_nil by lia. simpl.
    unfold mbind, Con_bind, mret, Con_ret, console_log. cbn [fst snd].
    by rewrite <- app_assoc.
Qed.

Lemma printBoard_ok_inv out s :
  printBoard board (h, out) = (Ok tt, s) → resolvable v.
Proof.
  rewrite printBoard_unfold. intros Hrun. apply resolvable_cells.
  intros r c Hr Hc.
  destruct (print_rows (Z.to_nat (v_height v)) board (v_height v - 1)
              (h, out ++ ["Board - top row to bottom raw:"]))
    as [[[]|e] s1] eqn:Hrows.
  - replace (v_height v - 1) with (Z.of_nat (Z.to_nat (v_height v)) - 1)
      in Hrows by lia.
    eapply print_rows_ok_inv; [|exact Hrows| |done]; lia.
  - by rewrite (Con_bind_throw _ _ _ _ _ Hrows) in Hrun.
Qed.
End print.

Lemma printable_resolvable v : printable v → resolvable v.
Proof.
  intros HP pos id Hin Ht. destruct (HP pos id Hin Ht) as [q Hq].
  by rewrite (v_get_own _ _ _ Hq).
Qed.

Lemma consistent_printable v : consistent v → printable v.
Proof.
  intros (Hcell & _ & _) pos id _ Ht.
  destruct (cell v pos) as [| |X] eqn:E; try done.
  destruct (Hcell pos X E) as (P & HP & _).
  destruct X; simplify_eq/=. by exists P.
Qed.

Lemma board_lines_length v :
  length (board_lines v) = (Z.to_nat (v_height v) + 2)%nat.
Proof.
  unfold board_lines. simpl.
  rewrite length_app, length_fmap, length_reverse, length_seqZ. simpl. lia.
Qed.

(** X1.  On a well-formed board with a row array for every row below
    the height, on which every truthy id found in a cell of the board is
    a key of the registry, [printBoard] returns, leaves the store as it
    was and appends to the console exactly [height + 2] lines: the
    header, then one line per row from row [height - 1] down to row 0,
    made of the row number, " - " and two characters per column (". "
    for a cell holding [null], [undefined] or the empty string, "W "
    for a pawn whose colour is "white", "B " for a pawn of any other
    colour), then the footer. *)
Theorem X1_printBoard_output h board v out :
  view h board = Some v → rows_present v → printable v →
  printBoard board (h, out) = (Ok tt, (h, out ++ board_lines v)) ∧
  length (board_lines v) = (Z.to_nat (v_height v) + 2)%nat ∧
  (∀ r, 0 ≤ r < v_height v →
     board_lines v !! S (Z.to_nat (v_height v - 1 - r)) = Some (row_line v r)).
Proof.
  intros Hv Hrows HP. apply view_rep in Hv as (b & reg & rows & R).
  split; [exact (printBoard_rep R Hrows out (printable_resolvable _ HP))|].
  split; [apply board_lines_length|].
  intros r Hr. unfold board_lines.
  rewrite lookup_cons_ne_0 by lia. simpl.
  rewrite lookup_app_l
    by (rewrite length_fmap, length_reverse, length_seqZ; lia).
  rewrite list_lookup_fmap, reverse_lookup by (rewrite length_seqZ; lia).
  rewrite length_seqZ.
  replace (Z.to_nat (v_height v) - S (Z.to_nat (v_height v - 1 - r)))%nat
    with (Z.to_nat r) by lia.
  rewrite lookup_seqZ_lt by lia. simpl. f_equal. f_equal. lia.
Qed.

Lemma X1_witness :
  view h_start b_start = Some v_start ∧ rows_present v_start ∧
  printBoard b_start (h_start, []) =
    (Ok tt, (h_start,
       ["Board - top row to bottom raw:";
        "7 - B B B B B B B B "; "6 - B B B B B B B B ";
        "5 - . . . . . . . . "; "4 - . . . . . . . . ";
        "3 - . . . . . . . . "; "2 - . . . . . . . . ";
        "1 - W W W W W W W W "; "0 - W W W W W W W W ";
        "    0 1 2 3 4 5 6 7 (cols)"])).
Proof.
  assert (view h_start b_start = Some v_start) as Hv by (vm_compute; reflexivity).
  assert (rows_present v_start) as Hrows by by_decide.
  assert (printable v_start) as HP.
  { apply consistent_printable, consistentb_sound. vm_compute. reflexivity. }
  split; [exact Hv|]. split; [exact Hrows|].
  exact (proj1 (X1_printBoard_output h_start b_start v_start [] Hv Hrows HP)).
Defined.

(** X2.  Whatever the store holds and whatever [board] refers to,
    [printBoard] never changes the store; it writes the header first,
    only appends to the console, and ends either normally or with a
    [TypeError]. *)
Theorem X2_printBoard_reads_only board h out :
  ∃ res new,
    printBoard board (h, out) =
      (res, (h, out ++ "Board - top row to bottom raw:" :: new)) ∧
    (res = Ok tt ∨ res = Throw TypeError).
Proof.
  unfold printBoard.
  unfold mbind at 1, Con_bind at 1, console_log at 1. cbn [fst snd].
  destruct (get_board board h) as [[b|e] h1] eqn:Hb.
  - assert (h1 = h) as ->
      by (eapply reads_only_run; [apply reads_only_get_board|done]).
    rewrite (Con_bind_ok _ _ _ _ _ (lift_run _ _ _ _ _ Hb)).
    destruct (print_rows_any (Z.to_nat (height b)) board (height b - 1) h
                (out ++ ["Board - top row to bottom raw:"]))
      as (res & new & Hrun & _ & Hres).
    destruct Hres as [-> | ->].
    + rewrite (Con_bind_ok _ _ _ _ _ Hrun). unfold console_log. cbn [fst snd].
      exists (Ok tt), (new ++ ["    0 1 2 3 4 5 6 7 (cols)"]).
      split; [|by left]. by rewrite <- !app_assoc.
    + rewrite (Con_bind_throw _ _ _ _ _ Hrun).
      exists (Throw TypeError), new. split; [|by right].
      by rewrite <- !app_assoc.
  - assert (h1 = h) as ->
      by (eapply reads_only_run; [apply reads_only_get_board|done]).
    rewrite (Con_bind_throw _ _ _ _ _ (lift_run _ _ _ _ _ Hb)).
    exists (Throw e), []. split; [done|right].
    f_equal. eapply throws_only_get_board. exact Hb.
Qed.

(** X3.  On a well-formed board with a row array for every row below
    the height, [printBoard] returns exactly when, for every truthy id
    found in a cell of the board, [board.pawns[id]] is not [undefined];
    it has then written the lines [board_lines], in which a cell shows
    as "B " when its id is not registered but names a property that the
    registry inherits.  When some cell of the board holds a truthy id
    for which [board.pawns[id]] is [undefined], the property read
    [pawn.color] fails: [printBoard] ends with a [TypeError], the store
    is as before and the footer has not been written. *)
Theorem X3_printBoard_unregistered_id h board v out :
  view h board = Some v → rows_present v →
  ((∃ s, printBoard board (h, out) = (Ok tt, s)) ↔ resolvable v) ∧
  (resolvable v →
     printBoard board (h, out) = (Ok tt, (h, out ++ board_lines v))) ∧
  (∀ pos id t, truthy (cell v pos) = Some id → v_get v id = Inherited t →
     glyph v pos = "B ") ∧
  (∀ pos id, in_bounds v pos = true → truthy (cell v pos) = Some id →
     v_get v id = Absent →
     ∃ new, printBoard board (h, out) = (Throw TypeError, (h, out ++ new)) ∧
            (length new ≤ S (Z.to_nat (v_height v)))%nat).
Proof.
  intros Hv Hrows. apply view_rep in Hv as (b & reg & rows & R).
  split; [|split; [|split]].
  - split.
    + intros [s Hs]. exact (printBoard_ok_inv R Hrows out s Hs).
    + intros HP. eexists. exact (printBoard_rep R Hrows out HP).
  - intros HP. exact (printBoard_rep R Hrows out HP).
  - intros pos id t Ht Hget. unfold glyph. by rewrite Ht, Hget.
  - intros pos id Hin Ht Hnone.
    rewrite (printBoard_unfold R).
    destruct (print_rows_any (Z.to_nat (v_height v)) board (v_height v - 1) h
                (out ++ ["Board - top row to bottom raw:"]))
      as (res & new & Hrun & Hlen & [-> | ->]).
    + exfalso.
      assert (resolvable v) as HP.
      { eapply (printBoard_ok_inv R Hrows out).
        rewrite (printBoard_unfold R), (Con_bind_ok _ _ _ _ _ Hrun). done. }
      by destruct (HP pos id Hin Ht).
    + rewrite (Con_bind_throw _ _ _ _ _ Hrun).
      exists ("Board - top row to bottom raw:" :: new).
      split; [by rewrite <- app_assoc|simpl; lia].
Qed.

(** On the board [h_dangling] cell (0,0) holds "X", which is not
    registered and names nothing the registry inherits; on the board
    [stray] cell (2,1) holds "toString". *)
Lemma X3_witness :
  view h_dangling 10%nat = Some v_dangling ∧ rows_present v_dangling ∧
  cell v_dangling (mkPosition 0 0) = VStr "X" ∧
  v_get v_dangling "X" = Absent ∧
  (∃ new, printBoard 10%nat (h_dangling, []) =
            (Throw TypeError, (h_dangling, [] ++ new)) ∧
          (length new ≤ S (Z.to_nat (v_height v_dangling)))%nat) ∧
  printBoard 10%nat (h_dangling, []) =
    (Throw TypeError, (h_dangling,
       ["Board - top row to bottom raw:";
        "7 - . . . . . . . . "; "6 - . . . . . . . . ";
        "5 - . . . . . . . . "; "4 - . . . . . . . . ";
        "3 - . . . . . . . . "; "2 - . . . . . . . . ";
        "1 - . . . . . . . . "])) ∧
  view h_stray 10%nat = Some v_stray ∧
  cell v_stray (mkPosition 2 1) = VStr "toString" ∧
  v_get v_stray "toString" = Inherited true ∧
  printBoard 10%nat (h_stray, []) =
    (Ok tt, (h_stray,
       ["Board - top row to bottom raw:";
        "7 - . . . . . . . . "; "6 - . . . . . . . . ";
        "5 - . . . . . . . . "; "4 - . . . . . . . . ";
        "3 - . . . . . . . . "; "2 - . B . . . . . . ";
        "1 - W . . . . . . . "; "0 - . . . . . . . . ";
        "    0 1 2 3 4 5 6 7 (cols)"])).
Proof.
  assert (view h_dangling 10%nat = Some v_dangling) as Hv
    by (vm_compute; reflexivity).
  assert (rows_present v_dangling) as Hrows by by_decide.
  split; [exact Hv|]. split; [exact Hrows|].
  split; [vm_compute; reflexivity|]. split; [vm_compute; reflexivity|].
  split.
  - apply (proj2 (proj2 (proj2 (X3_printBoard_unregistered_id h_dangling
                    10%nat v_dangling [] Hv Hrows))) (mkPosition 0 0) "X");
      vm_compute; reflexivity.
  - repeat split; vm_compute; reflexivity.
Defined.

(** ** createEmptyGrid and createEmptyBoard *)

Lemma empty_view_cell width height pos :
  in_bounds (empty_view width height) pos = true →
  cell (empty_view width height) pos = VNull.
Proof.
  unfold in_bounds, cell, arr_get, read_slot, arr_get. simpl. intros Hin.
  destruct (row pos <? 0) eqn:E0; [lia|].
  rewrite (lookup_replicate_2 _ _ (Z.to_nat (row pos))) by lia.
  destruct (col pos <? 0) eqn:E1; [lia|].
  by rewrite (lookup_replicate_2 _ _ (Z.to_nat (col pos))) by lia.
Qed.

(** X4.  For a width that is a valid array length, [createEmptyBoard]
    returns a new board object and leaves every earlier object
    untouched.  The board has the given dimensions, an empty registry
    and [height] rows (none for a height below 1), which are distinct
    arrays of [width] cells; every cell of the board holds [null].  The
    board satisfies the consistency invariant. *)
Theorem X4_createEmptyBoard width height h :
  0 ≤ width < 2 ^ 32 →
  ∃ board h' v,
    createEmptyBoard width height h = (Ok board, h') ∧
    take (length h) h' = h ∧ (length h ≤ board)%nat ∧
    view h' board = Some v ∧
    v_width v = width ∧ v_height v = height ∧ v_pawns v = ∅ ∧
    length (v_grid v) = Z.to_nat height ∧
    Forall (λ cells, length cells = Z.to_nat width) (v_grid v) ∧
    (∀ pos, in_bounds v pos = true → cell v pos = VNull) ∧
    rows_present v ∧ consistent v.
Proof.
  intros Hw.
  pose proof (createEmptyBoard_run width height h Hw) as Hrun.
  destruct (createEmptyBoard_rep width height h Hw)
    as (board & h' & b & reg & rows & Hrun' & Htake & R & _).
  exists board, h', (empty_view width height).
  split; [done|]. split; [done|]. split.
  { cbv zeta in Hrun. rewrite Hrun in Hrun'. injection Hrun' as <- _. lia. }
  split; [apply view_rep; eauto|].
  split; [done|]. split; [done|]. split; [done|].
  split; [simpl; by rewrite length_replicate|].
  split.
  { simpl. apply Forall_replicate. by rewrite length_replicate. }
  split; [apply empty_view_cell|].
  split; [apply empty_view_rows_present|apply empty_view_consistent].
Qed.

Lemma X4_witness :
  ∃ board h' v,
    createEmptyBoard 3 2 [] = (Ok board, h') ∧
    view h' board = Some v ∧
    v_grid v = [[VNull; VNull; VNull]; [VNull; VNull; VNull]] ∧
    v_pawns v = ∅.
Proof.
  destruct (X4_createEmptyBoard 3 2 [] ltac:(lia))
    as (board & h' & v & Hrun & _ & _ & Hv & _ & _ & Hp & _).
  exists board, h', v. split; [exact Hrun|]. split; [exact Hv|].
  split; [|exact Hp].
  assert ((createEmptyBoard 3 2 []).1 = Ok 4%nat) as E1 by (vm_compute; reflexivity).
  rewrite Hrun in E1. simpl in E1. injection E1 as ->.
  assert (view (createEmptyBoard 3 2 []).2 4%nat =
          Some (empty_view 3 2)) as E2 by (vm_compute; reflexivity).
  rewrite Hrun in E2. simpl in E2. rewrite Hv in E2. by injection E2 as ->.
Defined.

Lemma push_rows_range n g width h :
  (width < 0 ∨ 2 ^ 32 ≤ width) →
  push_rows (S n) g width h = (Throw RangeError, h).
Proof.
  intros Hw. cbn [push_rows]. unfold new_row.
  replace ((width <? 0) || (2 ^ 32 <=? width)) with true; [done|].
  symmetry. apply orb_true_iff. lia.
Qed.

(** X5.  With a width that is not a valid array length (negative, or
    2^32 and above) and a height of at least 1, [createEmptyBoard]
    throws a [RangeError] when it creates the first row, and no earlier
    object has been touched.  With a height below 1 no row is created,
    so the call returns a board without rows for any width. *)
Theorem X5_createEmptyBoard_bad_width width height h :
  (width < 0 ∨ 2 ^ 32 ≤ width → 1 ≤ height →
     ∃ h', createEmptyBoard width height h = (Throw RangeError, h') ∧
           take (length h) h' = h) ∧
  (height ≤ 0 →
     ∃ board h' v,
       createEmptyBoard width height h = (Ok board, h') ∧
       take (length h) h' = h ∧
       view h' board = Some v ∧
       v_width v = width ∧ v_height v = height ∧
       v_grid v = [] ∧ v_pawns v = ∅).
Proof.
  split.
  - intros Hw Hh. unfold createEmptyBoard, createEmptyGrid.
    destruct (Z.to_nat height) as [|n] eqn:En; [lia|].
    unfold mbind, M_bind, alloc.
    rewrite (push_rows_range n _ width _ Hw).
    eexists. split; [reflexivity|].
    rewrite <- app_assoc. apply take_app_length.
  - intros Hh. unfold createEmptyBoard, createEmptyGrid.
    replace (Z.to_nat height) with 0%nat by lia.
    set (b := {| width := width; height := height; pawns := length h;
                 grid := S (length h) |}).
    exists (S (S (length h))),
      (h ++ [ORegistry {| own := ∅; proto := None |}; OGrid []; OBoard b]),
      {| v_width := width; v_height := height; v_pawns := ∅;
         v_proto := None; v_grid := [] |}.
    split.
    { unfold mbind, M_bind, alloc. cbn [push_rows]. unfold mret, M_ret.
      rewrite !length_app. simpl. rewrite <- !app_assoc. simpl.
      unfold b. repeat f_equal; lia. }
    split; [apply take_app_length|].
    split; [|done].
    apply view_rep. exists b, {| own := ∅; proto := None |}, [].
    split; simpl; try done.
    + rewrite lookup_app_r by lia.
      by replace (S (S (length h)) - length h)%nat with 2%nat by lia.
    + by rewrite lookup_app_r, Nat.sub_diag by lia.
    + rewrite lookup_app_r by lia.
      by replace (S (length h) - length h)%nat with 1%nat by lia.
    + constructor.
Qed.

Lemma X5_witness :
  (∃ h', createEmptyBoard (-1) 8 [] = (Throw RangeError, h') ∧
         take (length (@nil obj)) h' = []) ∧
  (∃ board h' v,
     createEmptyBoard (-1) 0 [] = (Ok board, h') ∧
     take (length (@nil obj)) h' = [] ∧
     view h' board = Some v ∧
     v_width v = -1 ∧ v_height v = 0 ∧ v_grid v = [] ∧ v_pawns v = ∅).
Proof.
  split.
  - apply (proj1 (X5_createEmptyBoard_bad_width (-1) 8 [])); lia.
  - apply (proj2 (X5_createEmptyBoard_bad_width (-1) 0 [])); lia.
Defined.

(** ** placePawn and addPawn *)

(** X6.  On a well-formed board with a row array for every row below
    the height, the outcome of [placePawn] is decided by the position
    of the record alone: it throws "Invalid position to place pawn"
    exactly when the position is off the board, "Position is already
    occupied" exactly when the position is on the board and its cell
    does not hold [null], and it returns exactly when the position is on
    the board and its cell holds [null].  Whether the id is already in
    use plays no part. *)
Theorem X6_placePawn_outcomes h board v pawn p :
  view h board = Some v → rows_present v → pawn_at h pawn = Some p →
  (in_bounds v (position p) = false ↔
     placePawn board pawn h = (Throw InvalidPosition, h)) ∧
  (in_bounds v (position p) = true ∧ cell v (position p) ≠ VNull ↔
     placePawn board pawn h =
       (Throw (PositionOccupied (row (position p)) (col (position p))), h)) ∧
  (in_bounds v (position p) = true ∧ cell v (position p) = VNull ↔
     ∃ h', placePawn board pawn h = (Ok tt, h')).
Proof.
  intros Hv Hrows Hp. apply view_rep in Hv as (b & reg & rows & R).
  destruct (in_bounds v (position p)) eqn:Hin.
  - destruct (decide (cell v (position p) = VNull)) as [Hnull|Hocc].
    + destruct (placePawn_ok R pawn p Hp Hin Hnull) as (h' & E & _).
      rewrite E. split; [split; intros; simplify_eq|].
      split; [split; [intros [_ ?]; done|intros; simplify_eq]|].
      split; eauto.
    + rewrite (placePawn_occupied R pawn p Hp Hin
                 (in_bounds_row_present _ _ Hrows Hin) Hocc).
      split; [split; intros; simplify_eq|].
      split; [done|]. split; [intros [_ ?]; done|intros [? ?]; simplify_eq].
  - rewrite (placePawn_out_of_bounds R pawn p Hp Hin).
    split; [done|].
    split; [split; [intros [? _]; done|intros; simplify_eq]|].
    split; [intros [? _]; done|intros [? ?]; simplify_eq].
Qed.

Lemma X6_witness :
  view h_ready b_start = Some v_start ∧ rows_present v_start ∧
  pawn_at h_ready 43%nat = Some pawn_N1 ∧
  in_bounds v_start (mkPosition 3 3) = true ∧
  cell v_start (mkPosition 3 3) = VNull ∧
  ∃ h', placePawn b_start 43%nat h_ready = (Ok tt, h').
Proof.
  assert (view h_ready b_start = Some v_start) as Hv by (vm_compute; reflexivity).
  assert (rows_present v_start) as Hrows by by_decide.
  assert (pawn_at h_ready 43%nat = Some pawn_N1) as Hp by (vm_compute; reflexivity).
  split; [exact Hv|]. split; [exact Hrows|]. split; [exact Hp|].
  split; [vm_compute; reflexivity|]. split; [vm_compute; reflexivity|].
  apply (proj1 (proj2 (proj2 (X6_placePawn_outcomes h_ready b_start v_start
                               43%nat pawn_N1 Hv Hrows Hp)))).
  split; vm_compute; reflexivity.
Defined.

(** What [pawns[k]] answers after the assignment [pawns[k] = pawn]. *)
Lemma pawns_get_reg_set h board b reg rows v k pawn :
  rep h board b (reg_set k pawn reg) rows v →
  own reg !! "__proto__" = None →
  pawns_get board k h = (Ok (Entry pawn), h).
Proof.
  intros R Hown. unfold pawns_get.
  rewrite (bind_ok _ _ _ _ _ (get_board_rep R)).
  rewrite (bind_ok _ _ _ _ _ (get_registry_rep R)).
  unfold reg_set. destruct (String.eqb k "__proto__") eqn:E.
  - apply String.eqb_eq in E as ->.
    rewrite bool_decide_eq_true_2 by done. simpl. by rewrite Hown.
  - simpl. by rewrite lookup_insert_eq.
Qed.

(** X7.  When [placePawn] succeeds on a well-formed board, it creates no
    object and leaves the record it was given as it is;
    [board.pawns[id]] then answers the very reference that was passed
    in, the cell of the position holds the id, and every other cell and
    the dimensions are as before.  For an id other than [__proto__] the
    registry has the record as its entry under that id (replacing
    whatever was registered under it) and its prototype is what it was;
    for the id [__proto__] the entries are as before and the record has
    become the prototype of the registry.  A second [placePawn] of any
    record on that position throws "Position is already occupied" and
    leaves the store alone. *)
Theorem X7_placePawn_effect h board v pawn p :
  view h board = Some v → rows_present v → pawn_at h pawn = Some p →
  in_bounds v (position p) = true → cell v (position p) = VNull →
  ∃ h' v',
    placePawn board pawn h = (Ok tt, h') ∧
    length h' = length h ∧
    pawn_at h' pawn = Some p ∧
    pawns_get board (id p) h' = (Ok (Entry pawn), h') ∧
    view h' board = Some v' ∧
    v_width v' = v_width v ∧ v_height v' = v_height v ∧
    (id p ≠ "__proto__" →
       v_pawns v' = <[id p := p]> (v_pawns v) ∧ v_proto v' = v_proto v) ∧
    (id p = "__proto__" →
       v_pawns v' = v_pawns v ∧ v_proto v' = Some p) ∧
    cell v' (position p) = VStr (id p) ∧
    (∀ pos, pos ≠ position p → cell v' pos = cell v pos) ∧
    (∀ other q, pawn_at h' other = Some q → position q = position p →
       placePawn board other h' =
         (Throw (PositionOccupied (row (position p)) (col (position p))), h')).
Proof.
  intros Hv Hrows Hp Hin Hnull. apply view_rep in Hv as (b & reg & rows & R).
  destruct (placePawn_ok R pawn p Hp Hin Hnull)
    as (h' & Hrun & Hlen & R' & Hkeep & _).
  exists h', (place_view v p).
  split; [done|]. split; [done|]. split; [by apply Hkeep|].
  split.
  { eapply pawns_get_reg_set; [exact R'|]. exact (rep_own _ _ _ _ _ _ R). }
  split; [apply view_rep; eauto|].
  split; [apply place_view_width|]. split; [apply place_view_height|].
  split.
  { intros Hne. by rewrite place_view_pawns, place_view_proto. }
  split; [apply place_view_pawns_proto|].
  split; [by apply place_view_cell_eq|].
  split; [intros; by apply place_view_cell_ne|].
  intros other q Hq Hpos. rewrite <- Hpos.
  apply (placePawn_occupied R' other q Hq).
  - by rewrite place_view_in_bounds, Hpos.
  - apply in_bounds_row_present; [by apply place_view_rows_present|].
    by rewrite place_view_in_bounds, Hpos.
  - rewrite Hpos, place_view_cell_eq by done. done.
Qed.

(** On the initial board, the record "N1" for (3,3), and in its place a
    record with the id [__proto__]. *)
Lemma X7_witness :
  view h_ready b_start = Some v_start ∧ rows_present v_start ∧
  pawn_at h_ready 43%nat = Some pawn_N1 ∧
  in_bounds v_start (mkPosition 3 3) = true ∧
  cell v_start (mkPosition 3 3) = VNull ∧
  (∃ h' v',
     placePawn b_start 43%nat h_ready = (Ok tt, h') ∧
     pawns_get b_start "N1" h' = (Ok (Entry 43%nat), h') ∧
     view h' b_start = Some v' ∧
     cell v' (mkPosition 3 3) = VStr "N1" ∧
     placePawn b_start 43%nat h' = (Throw (PositionOccupied 3 3), h')) ∧
  view h_proto_ready b_start = Some v_start ∧
  pawn_at h_proto_ready 43%nat = Some pawn_proto ∧
  (∃ h' v',
     placePawn b_start 43%nat h_proto_ready = (Ok tt, h') ∧
     view h' b_start = Some v' ∧
     v_pawns v' = v_pawns v_start ∧ v_proto v' = Some pawn_proto ∧
     cell v' (mkPosition 3 3) = VStr "__proto__").
Proof.
  assert (view h_ready b_start = Some v_start) as Hv by (vm_compute; reflexivity).
  assert (rows_present v_start) as Hrows by by_decide.
  assert (pawn_at h_ready 43%nat = Some pawn_N1) as Hp by (vm_compute; reflexivity).
  assert (in_bounds v_start (position pawn_N1) = true) as Hin
    by (vm_compute; reflexivity).
  assert (cell v_start (position pawn_N1) = VNull) as Hnull
    by (vm_compute; reflexivity).
  assert (view h_proto_ready b_start = Some v_start) as Hv2
    by (vm_compute; reflexivity).
  assert (pawn_at h_proto_ready 43%nat = Some pawn_proto) as Hp2
    by (vm_compute; reflexivity).
  split; [exact Hv|]. split; [exact Hrows|]. split; [exact Hp|].
  split; [exact Hin|]. split; [exact Hnull|].
  split; [|split; [exact Hv2|split; [exact Hp2|]]].
  - destruct (X7_placePawn_effect h_ready b_start v_start 43%nat pawn_N1
                Hv Hrows Hp Hin Hnull)
      as (h' & v' & Hrun & _ & Hp' & Hget & Hv' & _ & _ & _ & _ & Hcell & _ &
          Hocc).
    exists h', v'. split; [exact Hrun|]. split; [exact Hget|].
    split; [exact Hv'|]. split; [exact Hcell|].
    exact (Hocc 43%nat pawn_N1 Hp' eq_refl).
  - destruct (X7_placePawn_effect h_proto_ready b_start v_start 43%nat
                pawn_proto Hv2 Hrows Hp2 Hin Hnull)
      as (h' & v' & Hrun & _ & _ & _ & Hv' & _ & _ & _ & Hpr & Hcell & _).
    destruct (Hpr eq_refl) as [Hps Hproto].
    exists h', v'. split; [exact Hrun|]. split; [exact Hv'|].
    split; [exact Hps|]. split; [exact Hproto|exact Hcell].
Defined.

(** X8.  On a well-formed board with a row array for every row below
    the height, [addPawn] checks in this order: a position off the
    board gives "Cannot add pawn out of bounds", whatever the colour; a
    position on the board whose cell does not hold [null] gives "Square
    already occupied", whatever the colour; on a free cell an empty
    colour string gives a [TypeError] (there is no first character to
    build the id from).  In each of these cases the store is left as it
    was.  In the remaining case, and only then, [addPawn] returns, and
    the record it returns is the one [board.pawns] answers under the new
    id; that id starts with the upper-case form of the first character
    of the colour ([up] when that character is not an ASCII one). *)
Theorem X8_addPawn_outcomes h board v now rnd up color r c :
  view h board = Some v → rows_present v →
  (in_bounds v (mkPosition r c) = false ↔
     addPawn now rnd up board color r c h = (Throw AddOutOfBounds, h)) ∧
  (in_bounds v (mkPosition r c) = true ∧ cell v (mkPosition r c) ≠ VNull ↔
     addPawn now rnd up board color r c h = (Throw (SquareOccupied r c), h)) ∧
  (in_bounds v (mkPosition r c) = true ∧ cell v (mkPosition r c) = VNull ∧
   color = EmptyString ↔
     addPawn now rnd up board color r c h = (Throw TypeError, h)) ∧
  (in_bounds v (mkPosition r c) = true ∧ cell v (mkPosition r c) = VNull ∧
   color ≠ EmptyString ↔
     ∃ pawn h', addPawn now rnd up board color r c h = (Ok pawn, h')) ∧
  (∀ pawn h', addPawn now rnd up board color r c h = (Ok pawn, h') →
     ∃ c0 rest, color = String c0 rest ∧
       pawns_get board (new_id up c0 now rnd) h' = (Ok (Entry pawn), h') ∧
       pawn_at h' pawn =
         Some {| id := new_id up c0 now rnd; color := color;
                 position := mkPosition r c; hasMoved := false |}).
Proof.
  intros Hv Hrows. apply view_rep in Hv as (b & reg & rows & R).
  destruct (in_bounds v (mkPosition r c)) eqn:Hin.
  - destruct (decide (cell v (mkPosition r c) = VNull)) as [Hnull|Hocc].
    + destruct color as [|c0 rest].
      * rewrite (addPawn_no_colour R now rnd up r c Hin Hnull).
        split; [split; intros; simplify_eq|].
        split; [split; [intros [_ ?]; done|intros; simplify_eq]|].
        split; [done|].
        split; [split; [intros (_ & _ & ?); done|intros (? & ? & ?); simplify_eq]|].
        intros; simplify_eq.
      * destruct (addPawn_ok R now rnd up c0 rest r c Hin Hnull)
          as (h' & E & _ & Hp' & R' & _).
        rewrite E.
        split; [split; intros; simplify_eq|].
        split; [split; [intros [_ ?]; done|intros; simplify_eq]|].
        split; [split; [intros (_ & _ & ?); done|intros; simplify_eq]|].
        split; [split; eauto|].
        intros pawn h'' [= <- <-]. exists c0, rest. split; [done|].
        split; [|exact Hp'].
        eapply pawns_get_reg_set; [exact R'|]. exact (rep_own _ _ _ _ _ _ R).
    + assert (addPawn now rnd up board color r c h = (Throw (SquareOccupied r c), h))
        as E.
      { apply (addPawn_occupied R); [done| |done].
        exact (in_bounds_row_present v (mkPosition r c) Hrows Hin). }
      rewrite E.
      split; [split; intros; simplify_eq|].
      split; [done|].
      split; [split; [intros (_ & ? & _); done|intros; simplify_eq]|].
      split; [split; [intros (_ & ? & _); done|intros (? & ? & ?); simplify_eq]|].
      intros; simplify_eq.
  - rewrite (addPawn_out_of_bounds R now rnd up color r c Hin).
    split; [done|].
    split; [split; [intros [? _]; done|intros; simplify_eq]|].
    split; [split; [intros [? _]; done|intros; simplify_eq]|].
    split; [split; [intros [? _]; done|intros (? & ? & ?); simplify_eq]|].
    intros; simplify_eq.
Qed.

Lemma X8_witness :
  view h_start b_start = Some v_start ∧ rows_present v_start ∧
  addPawn 1700000000000 "3f9a" EmptyString b_start EmptyString 9 9 h_start =
    (Throw AddOutOfBounds, h_start) ∧
  addPawn 1700000000000 "3f9a" EmptyString b_start EmptyString 0 0 h_start =
    (Throw (SquareOccupied 0 0), h_start) ∧
  addPawn 1700000000000 "3f9a" EmptyString b_start EmptyString 3 3 h_start =
    (Throw TypeError, h_start) ∧
  ∃ pawn h', addPawn 1700000000000 "3f9a" EmptyString b_start "red" 3 3 h_start =
               (Ok pawn, h').
Proof.
  assert (view h_start b_start = Some v_start) as Hv by (vm_compute; reflexivity).
  assert (rows_present v_start) as Hrows by by_decide.
  split; [exact Hv|]. split; [exact Hrows|].
  split.
  { apply (proj1 (X8_addPawn_outcomes h_start b_start v_start 1700000000000
                    "3f9a" EmptyString EmptyString 9 9 Hv Hrows)).
    vm_compute; reflexivity. }
  split.
  { apply (proj1 (proj2 (X8_addPawn_outcomes h_start b_start v_start
                           1700000000000 "3f9a" EmptyString EmptyString 0 0 Hv Hrows))).
    split; [vm_compute; reflexivity|]. vm_compute. discriminate. }
  split.
  { apply (proj1 (proj2 (proj2 (X8_addPawn_outcomes h_start b_start v_start
                           1700000000000 "3f9a" EmptyString EmptyString 3 3 Hv Hrows)))).
    split; [vm_compute; reflexivity|]. split; vm_compute; reflexivity. }
  apply (proj1 (proj2 (proj2 (proj2 (X8_addPawn_outcomes h_start b_start v_start
                           1700000000000 "3f9a" EmptyString "red" 3 3 Hv Hrows))))).
  split; [vm_compute; reflexivity|]. split; [vm_compute; reflexivity|].
  discriminate.
Defined.

(** ** getPawnAllowedMoves *)

Lemma direction_white p : color p = "white" → direction p = 1.
Proof. intros E. unfold direction. by rewrite E. Qed.

Lemma direction_other p : color p ≠ "white" → direction p = -1.
Proof.
  intros E. unfold direction.
  destruct (String.eqb (color p) "white") eqn:E'; [|done].
  by apply String.eqb_eq in E'.
Qed.

Lemma allowed_moves_sublist v p :
  allowed_moves v p `sublist_of`
    [forward_one p; forward_two p; diagonal_left p; diagonal_right p].
Proof.
  unfold allowed_moves.
  destruct (forward_ok v (forward_one p));
    [destruct (negb (hasMoved p) && forward_ok v (forward_two p))|];
    destruct (capture_ok v p (diagonal_left p));
    destruct (capture_ok v p (diagonal_right p)); simpl;
    repeat first [apply sublist_nil | apply sublist_skip | apply sublist_cons].
Qed.

Lemma candidates_NoDup p :
  NoDup [forward_one p; forward_two p; diagonal_left p; diagonal_right p].
Proof.
  pose proof (direction_nonzero p) as Hd.
  unfold forward_one, forward_two, diagonal_left, diagonal_right,
    forwardRow, twoForwardRow.
  rewrite !NoDup_cons, !elem_of_cons, !elem_of_nil.
  repeat split; [..|apply NoDup_nil_2]; intros Hx;
    decompose [or] Hx; try contradiction;
    match goal with
    | E : mkPosition _ _ = mkPosition _ _ |- _ => injection E; lia
    end.
Qed.

Lemma forward_ok_iff v pos :
  forward_ok v pos = true ↔ in_bounds v pos = true ∧ cell v pos = VNull.
Proof.
  unfold forward_ok. rewrite andb_true_iff.
  destruct (cell v pos); simpl; split; intros [? ?]; done.
Qed.

Lemma forward_one_allowed v p :
  forward_one p ∈ allowed_moves v p ↔ forward_ok v (forward_one p) = true.
Proof.
  pose proof (direction_nonzero p) as Hd. split.
  - intros [[_ H]|[[E _]|[[E _]|[E _]]]]%allowed_moves_cases; [done|..];
      exfalso; revert E;
      unfold forward_one, forward_two, diagonal_left, diagonal_right,
        forwardRow, twoForwardRow; intros [= ?]; lia.
  - intros H. unfold allowed_moves. rewrite H.
    apply elem_of_app. left. apply elem_of_cons. by left.
Qed.

Lemma forward_two_allowed v p :
  forward_two p ∈ allowed_moves v p ↔
  hasMoved p = false ∧ forward_ok v (forward_one p) = true ∧
  forward_ok v (forward_two p) = true.
Proof.
  pose proof (direction_nonzero p) as Hd. split.
  - intros [[E _]|[(_ & ? & ? & ?)|[[E _]|[E _]]]]%allowed_moves_cases;
      [|done|..];
      exfalso; revert E;
      unfold forward_one, forward_two, diagonal_left, diagonal_right,
        forwardRow, twoForwardRow; intros [= ?]; lia.
  - intros (Hm & H1 & H2). unfold allowed_moves. rewrite H1, H2, Hm. simpl.
    apply elem_of_cons. right. apply elem_of_cons. by left.
Qed.

(** X9.  On a well-formed board with a row array for every row below
    the height, the list [getPawnAllowedMoves] returns is made of at
    most four positions, in this order and without repetition: one step
    forward, two steps forward, the forward diagonal to the lower
    column, the forward diagonal to the higher column.  Forward means
    one row up for a pawn whose colour is "white" and one row down for
    a pawn of any other colour; no returned position is the pawn's own,
    none lies behind it or beside it, and none is more than one column
    away. *)
Theorem X9_moves_shape h board v pawn p :
  view h board = Some v → rows_present v → pawn_at h pawn = Some p →
  ∃ moves,
    getPawnAllowedMoves pawn board h = (Ok moves, h) ∧
    moves `sublist_of`
      [forward_one p; forward_two p; diagonal_left p; diagonal_right p] ∧
    NoDup moves ∧ (length moves ≤ 4)%nat ∧
    ∀ pos, pos ∈ moves →
      pos ≠ position p ∧
      col (position p) - 1 ≤ col pos ≤ col (position p) + 1 ∧
      (color p = "white" →
         row pos = row (position p) + 1 ∨ row pos = row (position p) + 2) ∧
      (color p ≠ "white" →
         row pos = row (position p) - 1 ∨ row pos = row (position p) - 2).
Proof.
  intros Hv Hrows Hp. exists (allowed_moves v p).
  split; [by apply getPawnAllowedMoves_view|].
  pose proof (allowed_moves_sublist v p) as Hsub.
  split; [done|].
  split; [eapply sublist_NoDup; [apply candidates_NoDup|exact Hsub]|].
  split; [exact (sublist_length _ _ Hsub)|].
  intros pos Hpos. split; [by eapply allowed_moves_not_source|].
  assert (pos ∈ [forward_one p; forward_two p; diagonal_left p;
                 diagonal_right p]) as Hin
    by (eapply elem_of_sublist; [exact Hpos|exact Hsub]).
  rewrite !elem_of_cons, elem_of_nil in Hin.
  unfold forward_one, forward_two, diagonal_left, diagonal_right,
    forwardRow, twoForwardRow in Hin.
  split; [destruct Hin as [->|[->|[->|[->|[]]]]]; simpl; lia|].
  split; intros Hc.
  - rewrite (direction_white p Hc) in Hin.
    destruct Hin as [->|[->|[->|[->|[]]]]]; simpl; lia.
  - rewrite (direction_other p Hc) in Hin.
    destruct Hin as [->|[->|[->|[->|[]]]]]; simpl; lia.
Qed.

Lemma X9_witness :
  view h_skirmish 10%nat = Some v_skirmish ∧ rows_present v_skirmish ∧
  pawn_at h_skirmish 11%nat = Some pawn_W1 ∧
  ∃ moves,
    getPawnAllowedMoves 11%nat 10%nat h_skirmish = (Ok moves, h_skirmish) ∧
    NoDup moves ∧ (length moves ≤ 4)%nat.
Proof.
  assert (view h_skirmish 10%nat = Some v_skirmish) as Hv
    by (vm_compute; reflexivity).
  assert (rows_present v_skirmish) as Hrows by by_decide.
  assert (pawn_at h_skirmish 11%nat = Some pawn_W1) as Hp
    by (vm_compute; reflexivity).
  split; [exact Hv|]. split; [exact Hrows|]. split; [exact Hp|].
  destruct (X9_moves_shape h_skirmish 10%nat v_skirmish 11%nat pawn_W1
              Hv Hrows Hp) as (moves & Hrun & _ & Hnd & Hlen & _).
  exists moves. split; [exact Hrun|]. split; [exact Hnd|exact Hlen].
Defined.

(** X10.  On a well-formed board with a row array for every row below
    the height, the straight moves [getPawnAllowedMoves] returns are
    exactly these: the cell one step forward is offered when and only
    when it is on the board and holds [null]; the cell two steps forward
    is offered when and only when the pawn has not moved yet and both
    the cell one step forward and the cell two steps forward are on the
    board and hold [null], so a pawn never jumps over another and a
    pawn that has moved advances one row at a time.  A returned
    position in the pawn's own column always names a cell holding
    [null]: a pawn never captures straight ahead. *)
Theorem X10_forward_moves h board v pawn p :
  view h board = Some v → rows_present v → pawn_at h pawn = Some p →
  ∃ moves,
    getPawnAllowedMoves pawn board h = (Ok moves, h) ∧
    (forward_one p ∈ moves ↔
       in_bounds v (forward_one p) = true ∧ cell v (forward_one p) = VNull) ∧
    (forward_two p ∈ moves ↔
       hasMoved p = false ∧
       (in_bounds v (forward_one p) = true ∧ cell v (forward_one p) = VNull) ∧
       (in_bounds v (forward_two p) = true ∧ cell v (forward_two p) = VNull)) ∧
    (∀ pos, pos ∈ moves → col pos = col (position p) → cell v pos = VNull).
Proof.
  intros Hv Hrows Hp. exists (allowed_moves v p).
  split; [by apply getPawnAllowedMoves_view|].
  split; [by rewrite forward_one_allowed, forward_ok_iff|].
  split; [by rewrite forward_two_allowed, !forward_ok_iff|].
  intros pos Hpos Hcol.
  destruct (allowed_moves_cases v p pos Hpos)
    as [[_ H]|[(_ & _ & _ & H)|[[E _]|[E _]]]].
  - exact (proj2 (proj1 (forward_ok_iff v pos) H)).
  - exact (proj2 (proj1 (forward_ok_iff v pos) H)).
  - subst pos. simpl in Hcol. lia.
  - subst pos. simpl in Hcol. lia.
Qed.

Lemma X10_witness :
  view h_start b_start = Some v_start ∧ rows_present v_start ∧
  pawn_at h_start 12%nat =
    Some {| id := "W2"; color := "white"; position := mkPosition 1 0;
            hasMoved := false |} ∧
  getPawnAllowedMoves 12%nat b_start h_start =
    (Ok [mkPosition 2 0; mkPosition 3 0], h_start) ∧
  ∃ moves,
    getPawnAllowedMoves 12%nat b_start h_start = (Ok moves, h_start) ∧
    mkPosition 3 0 ∈ moves.
Proof.
  assert (view h_start b_start = Some v_start) as Hv by (vm_compute; reflexivity).
  assert (rows_present v_start) as Hrows by by_decide.
  split; [exact Hv|]. split; [exact Hrows|].
  split; [vm_compute; reflexivity|]. split; [vm_compute; reflexivity|].
  destruct (X10_forward_moves h_start b_start v_start 12%nat
              {| id := "W2"; color := "white"; position := mkPosition 1 0;
                 hasMoved := false |} Hv Hrows ltac:(vm_compute; reflexivity))
    as (moves & Hrun & _ & Htwo & _).
  exists moves. split; [exact Hrun|].
  apply Htwo. vm_compute. repeat split; reflexivity.
Defined.

Lemma throws_only_isValidPosition board r c :
  throws_only is_TypeError (isValidPosition board r c).
Proof.
  unfold isValidPosition.
  apply throws_only_bind; [apply throws_only_get_board|].
  intros ?. apply throws_only_ret.
Qed.

Lemma throws_only_valid_and_empty board r c :
  throws_only is_TypeError (valid_and_empty board r c).
Proof.
  unfold valid_and_empty.
  apply throws_only_bind; [apply throws_only_isValidPosition|].
  intros [|]; [|apply throws_only_ret].
  apply throws_only_bind; [apply throws_only_grid_get|].
  intros ?. apply throws_only_ret.
Qed.

Lemma throws_only_try_capture p board r c moves :
  throws_only is_TypeError (try_capture p board r c moves).
Proof.
  unfold try_capture.
  apply throws_only_bind; [apply throws_only_isValidPosition|].
  intros [|]; simpl; [|apply throws_only_ret].
  apply throws_only_bind; [apply throws_only_grid_get|]. intros x.
  destruct (truthy x); [|apply throws_only_ret].
  apply throws_only_bind; [apply throws_only_pawns_get|].
  intros [|l|[|]]; try apply throws_only_ret.
  apply throws_only_bind; [apply throws_only_get_pawn|].
  intros q. destruct (negb _); apply throws_only_ret.
Qed.

Lemma throws_only_for_each {A S} P (body : S → A → M S) l s :
  (∀ s x, throws_only P (body s x)) → throws_only P (for_each body l s).
Proof.
  intros Hb. revert s. induction l as [|x l IH]; intros s; simpl.
  - apply throws_only_ret.
  - apply throws_only_bind; [apply Hb|]. intros ?. apply IH.
Qed.

Lemma throws_only_getPawnAllowedMoves pawn board :
  throws_only is_TypeError (getPawnAllowedMoves pawn board).
Proof.
  unfold getPawnAllowedMoves.
  apply throws_only_bind; [apply throws_only_get_pawn|]. intros p.
  apply throws_only_bind; [apply throws_only_valid_and_empty|]. intros one.
  apply throws_only_bind.
  - destruct one; [|apply throws_only_ret].
    destruct (negb (hasMoved p)); [|apply throws_only_ret].
    apply throws_only_bind; [apply throws_only_valid_and_empty|].
    intros [|]; apply throws_only_ret.
  - intros moves. apply throws_only_for_each.
    intros ??. apply throws_only_try_capture.
Qed.

(** X11.  Whatever the store holds and whatever the two arguments refer
    to, [getPawnAllowedMoves] and [isValidPosition] write nothing: the
    store after the call is the store before it, also when the call
    fails, and the only failure there can be is a [TypeError] (a
    property read on something that is not there). *)
Theorem X11_rule_engine_writes_nothing pawn board h r c :
  (∃ res, getPawnAllowedMoves pawn board h = (res, h) ∧
          ∀ e, res = Throw e → e = TypeError) ∧
  (∃ res, isValidPosition board r c h = (res, h) ∧
          ∀ e, res = Throw e → e = TypeError).
Proof.
  split.
  - destruct (getPawnAllowedMoves pawn board h) as [res h'] eqn:E.
    assert (h' = h) as ->
      by (eapply reads_only_run; [apply reads_only_getPawnAllowedMoves|done]).
    exists res. split; [done|]. intros e ->.
    exact (throws_only_getPawnAllowedMoves pawn board h e h E).
  - destruct (isValidPosition board r c h) as [res h'] eqn:E.
    assert (h' = h) as ->
      by (eapply reads_only_run; [apply reads_only_isValidPosition|done]).
    exists res. split; [done|]. intros e ->.
    exact (throws_only_isValidPosition board r c h e h E).
Qed.

(** ** What the in-place operations write *)

Lemma changed_within_refl ls h : changed_within ls h h.
Proof. split; [lia|done]. Qed.

Lemma changed_within_trans ls h1 h2 h3 :
  changed_within ls h1 h2 → changed_within ls h2 h3 → changed_within ls h1 h3.
Proof.
  intros [L1 H1] [L2 H2]. split; [lia|].
  intros l Hl Hn. rewrite H2 by (done || lia). by apply H1.
Qed.

Lemma changed_within_insert ls h l o :
  l ∈ ls → changed_within ls h (<[l := o]> h).
Proof.
  intros Hl. split; [by rewrite length_insert|].
  intros l' _ Hn. apply list_lookup_insert_ne. by intros ->.
Qed.

Lemma changed_within_app ls h ext : changed_within ls h (h ++ ext).
Proof.
  split; [rewrite length_app; lia|].
  intros l Hl _. by apply lookup_app_l.
Qed.

Lemma changed_within_lookup ls h h' l o :
  changed_within ls h h' → h !! l = Some o → l ∉ ls → h' !! l = Some o.
Proof.
  intros [_ H] Hl Hn. rewrite H; [done| |done].
  by apply lookup_lt_Some in Hl.
Qed.

(** A board reads the same after a change that stays away from its
    board object, its registry, its grid array, its rows and its pawn
    records. *)
Lemma rep_changed_within ls h h' board b reg rows v :
  rep h board b reg rows v → changed_within ls h h' →
  board ∉ ls → pawns b ∉ ls → grid b ∉ ls →
  (∀ l, l ∈ rows → l ∉ ls) →
  (∀ k l, own reg !! k = Some l → l ∉ ls) →
  (∀ l, proto reg = Some l → l ∉ ls) →
  rep h' board b reg rows v.
Proof.
  intros [Hb Hr Hg Hrows Ht Hn Hw Hh Hp Ho Hpo Hpr] Hch ? ? ? Hrs Hps Hprs.
  assert (∀ l q, pawn_at h l = Some q → l ∉ ls → pawn_at h' l = Some q)
    as Hkeep.
  { intros l q Hq Hl. apply pawn_at_Some in Hq. apply pawn_at_Some.
    eapply changed_within_lookup; eauto. }
  assert (∀ k l, own reg !! k = Some l → pawn_at h' l = pawn_at h l) as Hsame.
  { intros k l Hk. destruct (Ht k l Hk) as [q Hq].
    rewrite Hq. eapply Hkeep; eauto. }
  assert (proto_ok h' b (proto reg) = true ∧
          proto reg ≫= pawn_at h' = proto reg ≫= pawn_at h) as [Hpo' Hpr'].
  { destruct (proto reg) as [l|] eqn:E; [|done]. simpl in *.
    destruct (pawn_at h l) as [q|] eqn:Hq; [|done].
    by rewrite (Hkeep l q Hq (Hprs l eq_refl)). }
  split; try done.
  - eapply changed_within_lookup; eauto.
  - eapply changed_within_lookup; eauto.
  - eapply changed_within_lookup; eauto.
  - apply Forall2_same_length_lookup. split; [by eapply Forall2_length|].
    intros i l cells Hl Hc.
    eapply changed_within_lookup; [exact Hch| |].
    + exact (Forall2_lookup_lr _ _ _ _ _ _ Hrows Hl Hc).
    + apply Hrs. by eapply list_elem_of_lookup_2.
  - intros k l Hk. rewrite (Hsame k l Hk). by eapply Ht.
  - rewrite Hp. apply map_eq. intros k. rewrite !lookup_omap.
    destruct (own reg !! k) as [l|] eqn:Hk; [|done]. simpl.
    symmetry. by eapply Hsame.
  - by rewrite Hpr'.
Qed.

Section footprint_grid.
Context {h : heap} {board : loc} {b : Board} {reg : Registry}
  {rows : list loc} {v : BoardView} (R : rep h board b reg rows v).

Lemma arr_get_elem_of {A} (l : list A) i x : arr_get l i = Some x → x ∈ l.
Proof.
  unfold arr_get. destruct (i <? 0); [done|]. apply list_elem_of_lookup_2.
Qed.

Lemma grid_set_frame r c x res h' :
  grid_set board r c x h = (res, h') →
  changed_within (pawns b :: rows) h h' ∧ length h' = length h.
Proof.
  destruct (arr_get (v_grid v) r) as [cells|] eqn:Hcells.
  - destruct (grid_set_rep R r c x cells Hcells) as (rl & Hrl & Hgs & _).
    rewrite Hgs. intros [= <- <-]. split; [|by rewrite length_insert].
    apply changed_within_insert. apply elem_of_cons. right.
    by eapply arr_get_elem_of.
  - unfold grid_set.
    rewrite (bind_ok _ _ _ _ _ (get_board_rep R)).
    rewrite (bind_ok _ _ _ _ _ (get_grid_rep R)).
    pose proof (rows_lookup_view R r) as Hl. rewrite Hcells in Hl.
    destruct (arr_get rows r); [done|].
    intros [= <- <-]. split; [apply changed_within_refl|done].
Qed.

End footprint_grid.

Section footprint.
Context {h : heap} {board : loc} {b : Board} {reg : Registry}
  {rows : list loc} {v : BoardView} (R : rep h board b reg rows v).

Lemma placePawn_frame pawn res h' :
  placePawn board pawn h = (res, h') →
  changed_within (pawns b :: rows) h h' ∧ length h' = length h.
Proof.
  destruct (pawn_at h pawn) as [p|] eqn:Hp.
  - destruct (placePawn_cases R pawn p Hp) as [E|[E|[E|[Hin Hnull]]]];
      try (rewrite E; intros [= <- <-];
           split; [apply changed_within_refl|done]).
    unfold placePawn.
    rewrite (bind_ok _ _ _ _ _ (get_pawn_ok _ _ _ Hp)).
    rewrite (bind_ok _ _ _ _ _ (get_board_rep R)).
    pose proof Hin as Hin'. unfold in_bounds in Hin'.
    rewrite (rep_width _ _ _ _ _ _ R), (rep_height _ _ _ _ _ _ R) in Hin'.
    replace (_ || _ || _ || _) with false by (symmetry; lia).
    destruct (cell_row_present v (position p)) as [cells Hcells];
      [by rewrite Hnull|].
    unfold mbind at 1, M_bind at 1. rewrite (grid_get_rep R), Hcells.
    unfold cell in Hnull. rewrite Hcells in Hnull. rewrite Hnull. simpl.
    destruct (pawns_set_rep R pawn p Hp Hin) as [Hset R1].
    rewrite (bind_ok _ _ _ _ _ Hset).
    intros Hgs. destruct (grid_set_frame R1 _ _ _ _ _ Hgs) as [Hc Hlen].
    split; [|by rewrite Hlen, length_insert].
    eapply changed_within_trans; [|exact Hc].
    apply changed_within_insert. apply elem_of_cons. by left.
  - rewrite (placePawn_not_a_pawn board pawn h Hp). intros [= <- <-].
    split; [apply changed_within_refl|done].
Qed.

Lemma removePawn_frame pawnId res h' :
  removePawn board pawnId h = (res, h') →
  changed_within (pawns b :: rows) h h' ∧ length h' = length h.
Proof.
  destruct (removePawn_cases R pawnId) as [E|[E|(p & Hget & cells & Hcells)]];
    try (rewrite E; intros [= <- <-];
         split; [apply changed_within_refl|done]).
  unfold removePawn.
  destruct (pawns_get_entry R pawnId p Hget) as (pawn & Hrun & Hp).
  rewrite (bind_ok _ _ _ _ _ Hrun).
  rewrite (bind_ok _ _ _ _ _
             (get_pawn_ok _ _ _ (proj2 (pawn_at_Some _ _ _) Hp))).
  destruct (grid_set_rep R (row (position p)) (col (position p)) VNull
              cells Hcells) as (rl & Hrl & Hgs & R1).
  destruct (grid_set_frame R _ _ _ _ _ Hgs) as [Hc Hlen].
  rewrite (bind_ok _ _ _ _ _ Hgs).
  destruct (pawns_delete_rep R1 pawnId) as [Hdel _]. rewrite Hdel.
  intros [= <- <-]. split; [|by rewrite !length_insert].
  eapply changed_within_trans; [exact Hc|].
  apply changed_within_insert. apply elem_of_cons. by left.
Qed.

End footprint.

Section footprint_add.
Context {h : heap} {board : loc} {b : Board} {reg : Registry}
  {rows : list loc} {v : BoardView} (R : rep h board b reg rows v).

Lemma addPawn_frame now rnd up color r c res h' :
  addPawn now rnd up board color r c h = (res, h') →
  changed_within (pawns b :: rows) h h' ∧
  (length h' ≤ S (length h))%nat.
Proof.
  destruct (addPawn_cases R now rnd up color r c)
    as [E|[E|[E|(Hin & Hnull & Hcol)]]];
    try (rewrite E; intros [= <- <-];
         split; [apply changed_within_refl|lia]).
  destruct color as [|c0 rest]; [done|].
  unfold addPawn.
  rewrite (bind_ok _ _ _ _ _ (isValidPosition_rep R r c)). rewrite Hin. simpl.
  destruct (cell_row_present v (mkPosition r c)) as [cells Hcells];
    [by rewrite Hnull|]. simpl in Hcells.
  unfold mbind at 1, M_bind at 1. rewrite (grid_get_rep R), Hcells.
  pose proof Hnull as Hnull'.
  unfold cell in Hnull'. simpl in Hnull'. rewrite Hcells in Hnull'.
  rewrite Hnull'. simpl.
  unfold mbind at 1, M_bind at 1, alloc at 1.
  pose proof (rep_alloc R (OPawn {| id := new_id up c0 now rnd;
                                    color := String c0 rest;
                                    position := mkPosition r c;
                                    hasMoved := false |})) as R1.
  set (h0 := h ++ [_]) in *.
  destruct (placePawn board (length h) h0) as [res1 h1] eqn:Hpl.
  destruct (placePawn_frame R1 _ _ _ Hpl) as [Hc Hlen].
  assert (changed_within (pawns b :: rows) h h1) as Hc'.
  { eapply changed_within_trans; [apply changed_within_app|exact Hc]. }
  unfold h0 in Hlen. rewrite length_app in Hlen. simpl in Hlen.
  unfold mbind, M_bind. rewrite Hpl.
  destruct res1; intros [= <- <-]; (split; [done|lia]).
Qed.
End footprint_add.

Lemma rep_footprint_typed h board b reg rows v l :
  rep h board b reg rows v → l ∈ pawns b :: rows →
  (∃ m, h !! l = Some (ORegistry m)) ∨ (∃ cells, h !! l = Some (ORow cells)).
Proof.
  intros R [->|Hl]%elem_of_cons.
  - left. eexists. exact (rep_reg _ _ _ _ _ _ R).
  - right. apply list_elem_of_lookup in Hl as [i Hi].
    destruct (Forall2_lookup_l _ _ _ _ _ (rep_rows _ _ _ _ _ _ R) Hi)
      as (cells & _ & Hc).
    by exists cells.
Qed.

(** Two boards in one store that have different registry objects and no
    row array in common: a change within the registry and the rows of
    the first leaves the second as it reads. *)
Lemma rep_separate h h' bd1 b1 reg1 rows1 v1 bd2 b2 reg2 rows2 v2 :
  rep h bd1 b1 reg1 rows1 v1 → rep h bd2 b2 reg2 rows2 v2 →
  pawns b1 ≠ pawns b2 → (∀ l, l ∈ rows1 → l ∉ rows2) →
  changed_within (pawns b1 :: rows1) h h' →
  rep h' bd2 b2 reg2 rows2 v2.
Proof.
  intros R1 R2 Hne Hdisj Hch.
  assert (∀ l o, h !! l = Some o →
            (∀ m, o ≠ ORegistry m) → (∀ cells, o ≠ ORow cells) →
            l ∉ pawns b1 :: rows1) as Htyped.
  { intros l o Hl Hnr Hnc Hin.
    destruct (rep_footprint_typed _ _ _ _ _ _ _ R1 Hin) as [[m E]|[cs E]];
      rewrite E in Hl; simplify_eq.
    - by eapply Hnr.
    - by eapply Hnc. }
  eapply rep_changed_within; [exact R2|exact Hch|..].
  - eapply Htyped; [exact (rep_board _ _ _ _ _ _ R2)|done..].
  - intros [E|Hin]%elem_of_cons; [done|].
    destruct (rep_footprint_typed _ _ _ _ _ _ (pawns b2) R1) as [[m E]|[cs E]].
    { apply elem_of_cons. by right. }
    + apply list_elem_of_lookup in Hin as [i Hi].
      destruct (Forall2_lookup_l _ _ _ _ _ (rep_rows _ _ _ _ _ _ R1) Hi)
        as (cells & _ & Hc).
      rewrite (rep_reg _ _ _ _ _ _ R2) in Hc. done.
    + rewrite (rep_reg _ _ _ _ _ _ R2) in E. done.
  - eapply Htyped; [exact (rep_grid _ _ _ _ _ _ R2)|done..].
  - intros l Hl [->|Hin]%elem_of_cons.
    + apply list_elem_of_lookup in Hl as [i Hi].
      destruct (Forall2_lookup_l _ _ _ _ _ (rep_rows _ _ _ _ _ _ R2) Hi)
        as (cells & _ & Hc).
      rewrite (rep_reg _ _ _ _ _ _ R1) in Hc. done.
    + by eapply Hdisj.
  - intros k l Hk. destruct (rep_typed _ _ _ _ _ _ R2 k l Hk) as [q Hq].
    apply pawn_at_Some in Hq. eapply Htyped; [exact Hq|done..].
  - intros l Hl. pose proof (rep_proto_ok _ _ _ _ _ _ R2) as Hok.
    rewrite Hl in Hok. simpl in Hok.
    destruct (pawn_at h l) as [q|] eqn:Hq; [|done].
    apply pawn_at_Some in Hq. eapply Htyped; [exact Hq|done..].
Qed.

Lemma rep_take h h' board b reg rows v :
  rep h board b reg rows v → take (length h) h' = h →
  rep h' board b reg rows v.
Proof.
  intros R Ht. rewrite <- (take_drop (length h) h'), Ht. by apply rep_app.
Qed.

Lemma rep_lookup_lt h board b reg rows v :
  rep h board b reg rows v →
  (pawns b < length h)%nat ∧ Forall (λ l, l < length h)%nat rows.
Proof.
  intros R. split.
  - eapply lookup_lt_Some. exact (rep_reg _ _ _ _ _ _ R).
  - apply Forall_forall. intros l [i Hi]%list_elem_of_lookup.
    destruct (Forall2_lookup_l _ _ _ _ _ (rep_rows _ _ _ _ _ _ R) Hi)
      as (cells & _ & Hc).
    by eapply lookup_lt_Some.
Qed.

(** X12.  On a well-formed board, [placePawn] and [removePawn] create
    no object and [addPawn] creates at most one (the new pawn record);
    whatever their outcome, the only objects of the store they change
    are the registry object of the board and the row arrays of its
    grid.  The board object, the array of rows, every pawn record, and
    every object that belongs to something else are left as they
    were. *)
Theorem X12_in_place_footprint h board v b rows :
  view h board = Some v →
  board_at h board = Some b → grid_at h (grid b) = Some rows →
  (∀ pawn res h', placePawn board pawn h = (res, h') →
     length h' = length h ∧ changed_within (pawns b :: rows) h h') ∧
  (∀ pawnId res h', removePawn board pawnId h = (res, h') →
     length h' = length h ∧ changed_within (pawns b :: rows) h h') ∧
  (∀ now rnd up color r c res h',
     addPawn now rnd up board color r c h = (res, h') →
     (length h' ≤ S (length h))%nat ∧
     changed_within (pawns b :: rows) h h') ∧
  (board ∉ pawns b :: rows) ∧ (grid b ∉ pawns b :: rows) ∧
  (∀ l p, pawn_at h l = Some p → l ∉ pawns b :: rows).
Proof.
  intros Hv Hb Hg. apply view_rep in Hv as (b0 & reg & rows0 & R).
  assert (b0 = b) as ->.
  { unfold board_at in Hb. rewrite (rep_board _ _ _ _ _ _ R) in Hb. congruence. }
  assert (rows0 = rows) as ->.
  { unfold grid_at in Hg. rewrite (rep_grid _ _ _ _ _ _ R) in Hg. congruence. }
  assert (∀ l o, h !! l = Some o →
            (∀ m, o ≠ ORegistry m) → (∀ cells, o ≠ ORow cells) →
            l ∉ pawns b :: rows) as Htyped.
  { intros l o Hl Hnr Hnc Hin.
    destruct (rep_footprint_typed _ _ _ _ _ _ _ R Hin) as [[m E]|[cs E]];
      rewrite E in Hl; simplify_eq.
    - by eapply Hnr.
    - by eapply Hnc. }
  split.
  { intros pawn res h' E. destruct (placePawn_frame R _ _ _ E). done. }
  split.
  { intros k res h' E. destruct (removePawn_frame R _ _ _ E). done. }
  split.
  { intros now rnd up color r c res h' E.
    destruct (addPawn_frame R _ _ _ _ _ _ _ _ E). done. }
  split; [eapply Htyped; [exact (rep_board _ _ _ _ _ _ R)|done..]|].
  split; [eapply Htyped; [exact (rep_grid _ _ _ _ _ _ R)|done..]|].
  intros l p Hp%pawn_at_Some. eapply Htyped; [exact Hp|done..].
Qed.

Lemma X12_witness :
  ∃ b rows,
    view h_ready b_start = Some v_start ∧
    board_at h_ready b_start = Some b ∧
    grid_at h_ready (grid b) = Some rows ∧
    ∃ h', placePawn b_start 43%nat h_ready = (Ok tt, h') ∧
          length h' = length h_ready ∧
          changed_within (pawns b :: rows) h_ready h'.
Proof.
  exists {| width := 8; height := 8; pawns := 0%nat; grid := 1%nat |},
    [2; 3; 4; 5; 6; 7; 8; 9]%nat.
  assert (view h_ready b_start = Some v_start) as Hv by (vm_compute; reflexivity).
  split; [exact Hv|].
  split; [vm_compute; reflexivity|]. split; [vm_compute; reflexivity|].
  eexists. split; [vm_compute; reflexivity|].
  apply (proj1 (X12_in_place_footprint h_ready b_start v_start
                  {| width := 8; height := 8; pawns := 0%nat; grid := 1%nat |}
                  [2; 3; 4; 5; 6; 7; 8; 9]%nat Hv
                  ltac:(vm_compute; reflexivity) ltac:(vm_compute; reflexivity))
           43%nat (Ok tt)).
  vm_compute. reflexivity.
Defined.

(** ** movePawn: what the copy shares with the original *)


Lemma truthy_Some x t : truthy x = Some t → x = VStr t.
Proof. destruct x as [| |[|a s]]; simpl; intros; simplify_eq; done. Qed.

(** X13.  After a successful [movePawn] the input board and the
    returned board are independent: whatever [placePawn], [removePawn]
    or [addPawn] later does to the returned board, and whether it
    succeeds or throws, the input board reads exactly as before the
    move; and whatever they do to the input board, the returned board
    reads exactly as [movePawn] left it. *)
Theorem X13_boards_independent h board v pawnId p target :
  view h board = Some v → rows_present v →
  v_pawns v !! pawnId = Some p → cell v (position p) = VStr pawnId →
  target ∈ allowed_moves v p →
  ∃ newBoard updatedPawn h' v',
    movePawn board pawnId target h = (Ok (newBoard, updatedPawn), h') ∧
    view h' board = Some v ∧ view h' newBoard = Some v' ∧
    (∀ pawn res h'', placePawn newBoard pawn h' = (res, h'') →
       view h'' board = Some v) ∧
    (∀ k res h'', removePawn newBoard k h' = (res, h'') →
       view h'' board = Some v) ∧
    (∀ now rnd up color r c res h'',
       addPawn now rnd up newBoard color r c h' = (res, h'') →
       view h'' board = Some v) ∧
    (∀ pawn res h'', placePawn board pawn h' = (res, h'') →
       view h'' newBoard = Some v') ∧
    (∀ k res h'', removePawn board k h' = (res, h'') →
       view h'' newBoard = Some v') ∧
    (∀ now rnd up color r c res h'',
       addPawn now rnd up board color r c h' = (res, h'') →
       view h'' newBoard = Some v').
Proof.
  intros Hv Hrows Hk Hsrc Hlegal.
  apply view_rep in Hv as (b & reg & rows & R).
  destruct (movePawn_registry R Hrows pawnId p target (v_get_own _ _ _ Hk)
              Hlegal)
    as (nb & upd & h' & b' & rows' & Hrun & Htake & R' & _ & _ & _ & Hpb & _ & Hrs).
  { apply cell_row_present. by rewrite Hsrc. }
  pose proof (rep_take _ _ _ _ _ _ _ R Htake) as R0.
  destruct (rep_lookup_lt _ _ _ _ _ _ R) as [Hlt Hrlt].
  assert (pawns b ≠ pawns b') as Hne by lia.
  assert (∀ l, l ∈ rows → l ∉ rows') as Hd1.
  { intros l H1 H2. rewrite Forall_forall in Hrlt, Hrs.
    specialize (Hrlt l H1). specialize (Hrs l H2). lia. }
  assert (∀ l, l ∈ rows' → l ∉ rows) as Hd2.
  { intros l H1 H2. by eapply Hd1. }
  exists nb, upd, h', (move_view v p target).
  split; [done|]. split; [apply view_rep; eauto|].
  split; [apply view_rep; eauto|].
  split.
  { intros pawn res h'' E. destruct (placePawn_frame R' _ _ _ E) as [Hc _].
    apply view_rep. exists b, reg, rows.
    eapply (rep_separate _ _ _ _ _ _ _ _ _ _ _ _ R' R0); eauto. }
  split.
  { intros k res h'' E. destruct (removePawn_frame R' _ _ _ E) as [Hc _].
    apply view_rep. exists b, reg, rows.
    eapply (rep_separate _ _ _ _ _ _ _ _ _ _ _ _ R' R0); eauto. }
  split.
  { intros now rnd up color r c res h'' E.
    destruct (addPawn_frame R' _ _ _ _ _ _ _ _ E) as [Hc _].
    apply view_rep. exists b, reg, rows.
    eapply (rep_separate _ _ _ _ _ _ _ _ _ _ _ _ R' R0); eauto. }
  split.
  { intros pawn res h'' E. destruct (placePawn_frame R0 _ _ _ E) as [Hc _].
    apply view_rep. eexists b', _, rows'.
    eapply (rep_separate _ _ _ _ _ _ _ _ _ _ _ _ R0 R'); eauto. }
  split.
  { intros k res h'' E. destruct (removePawn_frame R0 _ _ _ E) as [Hc _].
    apply view_rep. eexists b', _, rows'.
    eapply (rep_separate _ _ _ _ _ _ _ _ _ _ _ _ R0 R'); eauto. }
  intros now rnd up color r c res h'' E.
  destruct (addPawn_frame R0 _ _ _ _ _ _ _ _ E) as [Hc _].
  apply view_rep. eexists b', _, rows'.
  eapply (rep_separate _ _ _ _ _ _ _ _ _ _ _ _ R0 R'); eauto.
Qed.

Lemma X13_witness :
  view h_start b_start = Some v_start ∧ rows_present v_start ∧
  v_pawns v_start !! "W2" =
    Some {| id := "W2"; color := "white"; position := mkPosition 1 0;
            hasMoved := false |} ∧
  cell v_start (mkPosition 1 0) = VStr "W2" ∧
  mkPosition 3 0 ∈ allowed_moves v_start
    {| id := "W2"; color := "white"; position := mkPosition 1 0;
       hasMoved := false |} ∧
  ∃ newBoard updatedPawn h' v',
    movePawn b_start "W2" (mkPosition 3 0) h_start =
      (Ok (newBoard, updatedPawn), h') ∧
    view h' newBoard = Some v' ∧
    (∀ res h'', removePawn newBoard "B17" h' = (res, h'') →
       view h'' b_start = Some v_start) ∧
    (∀ res h'', removePawn b_start "B17" h' = (res, h'') →
       view h'' newBoard = Some v').
Proof.
  assert (view h_start b_start = Some v_start) as Hv by (vm_compute; reflexivity).
  assert (rows_present v_start) as Hrows by by_decide.
  assert (v_pawns v_start !! "W2" =
    Some {| id := "W2"; color := "white"; position := mkPosition 1 0;
            hasMoved := false |}) as Hk by (vm_compute; reflexivity).
  assert (cell v_start (mkPosition 1 0) = VStr "W2") as Hsrc
    by (vm_compute; reflexivity).
  assert (mkPosition 3 0 ∈ allowed_moves v_start
    {| id := "W2"; color := "white"; position := mkPosition 1 0;
       hasMoved := false |}) as Hlegal by by_decide.
  split; [exact Hv|]. split; [exact Hrows|]. split; [exact Hk|].
  split; [exact Hsrc|]. split; [exact Hlegal|].
  destruct (X13_boards_independent h_start b_start v_start "W2" _ _
              Hv Hrows Hk Hsrc Hlegal)
    as (nb & up & h' & v' & Hrun & _ & Hv' & _ & Hr1 & _ & _ & Hr2 & _).
  exists nb, up, h', v'. split; [exact Hrun|]. split; [exact Hv'|].
  split; [exact (Hr1 "B17")|exact (Hr2 "B17")].
Defined.

(** X14.  The copy [movePawn] makes is shallow.  In the registry of the
    returned board every id other than the moved pawn's is bound to the
    very same record object as in the input registry, and every id of
    the input registry other than the moved pawn's and the one found in
    the target cell is still there; the moved pawn's id is bound to a
    record created by the call.  The input registry object still holds
    what it held, and the record it has for the moved pawn is
    unchanged. *)
Theorem X14_movePawn_shares_records h board v b reg pawnId p target :
  view h board = Some v → rows_present v →
  board_at h board = Some b → registry_at h (pawns b) = Some reg →
  v_pawns v !! pawnId = Some p → id p = pawnId →
  cell v (position p) = VStr pawnId →
  target ∈ allowed_moves v p →
  ∃ newBoard updatedPawn h' b' reg',
    movePawn board pawnId target h = (Ok (newBoard, updatedPawn), h') ∧
    board_at h' newBoard = Some b' ∧
    registry_at h' (pawns b') = Some reg' ∧
    registry_at h' (pawns b) = Some reg ∧
    reg' !! pawnId = Some updatedPawn ∧
    (length h ≤ updatedPawn)%nat ∧
    pawn_at h' updatedPawn = Some (moved p target) ∧
    (∃ old, reg !! pawnId = Some old ∧ (old < length h)%nat ∧
            pawn_at h' old = Some p) ∧
    (∀ k l, k ≠ pawnId → reg' !! k = Some l → reg !! k = Some l) ∧
    (∀ k l, k ≠ pawnId → cell v target ≠ VStr k →
            reg !! k = Some l → reg' !! k = Some l).
Proof.
  intros Hv Hrows Hb Hreg Hk Hid Hsrc Hlegal.
  pose proof (view_no_own_proto _ _ _ Hv) as Hown.
  apply view_rep in Hv as (b0 & reg0 & rows & R).
  assert (b0 = b) as ->.
  { unfold board_at in Hb. rewrite (rep_board _ _ _ _ _ _ R) in Hb. congruence. }
  assert (own reg0 = reg) as Hreg0.
  { unfold registry_at in Hreg. rewrite (rep_reg _ _ _ _ _ _ R) in Hreg.
    congruence. }
  assert (pawnId ≠ "__proto__") as Hproto by (intros ->; congruence).
  destruct (movePawn_registry R Hrows pawnId p target (v_get_own _ _ _ Hk)
              Hlegal)
    as (nb & up & h' & b' & rows' & Hrun & Htake & R' & Hup & _ & Hfresh & _).
  { apply cell_row_present. by rewrite Hsrc. }
  pose proof (rep_take _ _ _ _ _ _ _ R Htake) as R0.
  pose proof (allowed_moves_not_source _ _ _ Hlegal) as Hne.
  rewrite cell_set_cell_ne, cell_set_proto in R' by done.
  rewrite Hid, (reg_assign_rep R) in R'.
  match type of R' with rep _ _ _ ?r _ _ => set (reg' := r) in R' end.
  assert (own reg' =
          <[pawnId := up]>
            (match truthy (cell v target) with
             | Some t => delete t reg
             | None => reg
             end)) as Hown'.
  { unfold reg', reg_set.
    rewrite (proj2 (String.eqb_neq _ _) Hproto). simpl.
    destruct (truthy (cell v target)); simpl; by rewrite Hreg0. }
  exists nb, up, h', b', (own reg').
  split; [done|].
  split; [unfold board_at; by rewrite (rep_board _ _ _ _ _ _ R')|].
  split; [unfold registry_at; by rewrite (rep_reg _ _ _ _ _ _ R')|].
  split; [unfold registry_at; by rewrite (rep_reg _ _ _ _ _ _ R0), Hreg0|].
  rewrite Hown'.
  split; [by rewrite lookup_insert_eq|].
  split; [done|]. split; [done|].
  split.
  { pose proof (registry_lookup_view R pawnId) as Hl. rewrite Hreg0 in Hl.
    destruct (reg !! pawnId) as [old|] eqn:Hold; [|congruence].
    destruct Hl as (q & Hq & Hq'). exists old. split; [done|].
    split; [by eapply lookup_lt_Some|].
    assert (q = p) as -> by congruence.
    apply pawn_at_Some. rewrite <- (take_drop (length h) h'), Htake.
    by apply lookup_app_l_Some. }
  split.
  - intros k l Hkne. rewrite lookup_insert_ne by done.
    destruct (truthy (cell v target)); [|done].
    by intros [_ ?]%lookup_delete_Some.
  - intros k l Hkne Hcell Hl. rewrite lookup_insert_ne by done.
    destruct (truthy (cell v target)) as [t|] eqn:Ht; [|done].
    apply lookup_delete_Some. split; [|done].
    intros ->. by apply truthy_Some in Ht.
Qed.

Lemma X14_witness :
  view h_skirmish 10%nat = Some v_skirmish ∧ rows_present v_skirmish ∧
  v_pawns v_skirmish !! "W1" = Some pawn_W1 ∧
  cell v_skirmish (mkPosition 1 0) = VStr "W1" ∧
  mkPosition 2 1 ∈ allowed_moves v_skirmish pawn_W1 ∧
  ∃ newBoard updatedPawn h' b' reg',
    movePawn 10%nat "W1" (mkPosition 2 1) h_skirmish =
      (Ok (newBoard, updatedPawn), h') ∧
    board_at h' newBoard = Some b' ∧
    registry_at h' (pawns b') = Some reg' ∧
    reg' !! "W1" = Some updatedPawn ∧
    reg' !! "W3" = Some 13%nat.
Proof.
  assert (view h_skirmish 10%nat = Some v_skirmish) as Hv
    by (vm_compute; reflexivity).
  assert (rows_present v_skirmish) as Hrows by by_decide.
  assert (v_pawns v_skirmish !! "W1" = Some pawn_W1) as Hk
    by (vm_compute; reflexivity).
  assert (cell v_skirmish (position pawn_W1) = VStr "W1") as Hsrc
    by (vm_compute; reflexivity).
  assert (mkPosition 2 1 ∈ allowed_moves v_skirmish pawn_W1) as Hlegal
    by by_decide.
  split; [exact Hv|]. split; [exact Hrows|]. split; [exact Hk|].
  split; [exact Hsrc|]. split; [exact Hlegal|].
  destruct (X14_movePawn_shares_records h_skirmish 10%nat v_skirmish
              {| width := 8; height := 8; pawns := 0%nat; grid := 1%nat |}
              {["W1" := 11%nat; "B2" := 12%nat; "W3" := 13%nat]}
              "W1" pawn_W1 (mkPosition 2 1) Hv Hrows
              ltac:(vm_compute; reflexivity) ltac:(vm_compute; reflexivity)
              Hk eq_refl Hsrc Hlegal)
    as (nb & up & h' & b' & reg' & Hrun & Hb' & Hreg' & _ & Hnew & _ & _ & _
        & _ & Hkeep).
  exists nb, up, h', b', reg'.
  split; [exact Hrun|]. split; [exact Hb'|]. split; [exact Hreg'|].
  split; [exact Hnew|].
  apply Hkeep; [discriminate|vm_compute; discriminate|vm_compute; reflexivity].
Defined.

(** ** movePawn: what changes on the returned board *)

(** X15.  Let a registered pawn that carries its key as id and stands
    on its cell make a legal move.  The returned board has the
    dimensions of the input board; its registry has as many entries as
    the input registry when the target cell held [null] or an id that
    is not registered, and exactly one entry less when the target cell
    held a registered id (a capture); every entry other than the moved
    pawn's is an entry of the input registry with the same record; and
    every cell other than the source and the target holds what it
    held. *)
Theorem X15_movePawn_changes h board v pawnId p target :
  view h board = Some v → rows_present v →
  v_pawns v !! pawnId = Some p → id p = pawnId →
  cell v (position p) = VStr pawnId →
  target ∈ allowed_moves v p →
  ∃ newBoard updatedPawn h' v',
    movePawn board pawnId target h = (Ok (newBoard, updatedPawn), h') ∧
    view h' newBoard = Some v' ∧
    v_width v' = v_width v ∧ v_height v' = v_height v ∧
    (cell v target = VNull ∨ (∃ X, cell v target = VStr X)) ∧
    (cell v target = VNull → size (v_pawns v') = size (v_pawns v)) ∧
    (∀ X, cell v target = VStr X → is_Some (v_pawns v !! X) →
       S (size (v_pawns v')) = size (v_pawns v)) ∧
    (∀ X, cell v target = VStr X → v_pawns v !! X = None →
       size (v_pawns v') = size (v_pawns v)) ∧
    (∀ k q, k ≠ pawnId → v_pawns v' !! k = Some q → v_pawns v !! k = Some q) ∧
    (∀ pos, pos ≠ position p → pos ≠ target → cell v' pos = cell v pos).
Proof.
  intros Hv Hrows Hk Hid Hsrc Hlegal.
  destruct (legal_move_runs h board v pawnId p target Hv Hrows Hk Hid Hsrc
              Hlegal) as (nb & up & h' & Hrun & Hv' & _).
  pose proof (allowed_moves_not_source _ _ _ Hlegal) as Hne.
  assert (id p ≠ "__proto__") as Hproto.
  { rewrite Hid. intros ->.
    pose proof (view_no_own_proto _ _ _ Hv). congruence. }
  exists nb, up, h', (move_view v p target).
  split; [done|]. split; [done|].
  split; [apply move_view_width|]. split; [apply move_view_height|].
  rewrite move_view_pawns by done. rewrite Hid.
  split; [|split; [|split; [|split; [|split]]]].
  - destruct (allowed_moves_target _ _ _ Hlegal) as [?|(X & ? & _)]; eauto.
  - intros Hnull. rewrite Hnull. simpl.
    apply map_size_insert_Some. by exists p.
  - intros X HX [q Hq].
    destruct (allowed_moves_target _ _ _ Hlegal)
      as [Hnull|(X' & HX' & Ht & Hget & _)]; [congruence|].
    assert (X' = X) as -> by congruence.
    rewrite Ht. rewrite (v_get_own _ _ _ Hq) in Hget.
    assert (X ≠ pawnId) as HXne by (intros ->; congruence).
    rewrite map_size_insert_Some
      by (rewrite lookup_delete_ne by done; by exists p).
    rewrite map_size_delete_Some by (by exists q).
    assert (size (v_pawns v) ≠ 0%nat); [|lia].
    intros Hz%map_size_empty_iff. rewrite Hz in Hk. done.
  - intros X HX Hnone.
    destruct (truthy (cell v target)) as [t|] eqn:Ht.
    + apply truthy_Some in Ht. assert (t = X) as -> by congruence.
      rewrite delete_id by done. apply map_size_insert_Some. by exists p.
    + apply map_size_insert_Some. by exists p.
  - intros k q Hkne. rewrite lookup_insert_ne by done.
    destruct (truthy (cell v target)); [|done].
    by intros [_ ?]%lookup_delete_Some.
  - intros pos Hp Ht. rewrite move_view_cell.
    + by rewrite !decide_False by done.
    + by rewrite Hsrc.
    + destruct (allowed_moves_target _ _ _ Hlegal) as [->|(X & -> & _)];
        done.
    + done.
Qed.

(** On the board [skirmish] "W1" captures the registered "B2"; on the
    board [stray] it moves onto the cell that holds "toString". *)
Lemma X15_witness :
  view h_skirmish 10%nat = Some v_skirmish ∧ rows_present v_skirmish ∧
  v_pawns v_skirmish !! "W1" = Some pawn_W1 ∧
  cell v_skirmish (mkPosition 1 0) = VStr "W1" ∧
  mkPosition 2 1 ∈ allowed_moves v_skirmish pawn_W1 ∧
  size (v_pawns v_skirmish) = 3%nat ∧
  (∃ newBoard updatedPawn h' v',
     movePawn 10%nat "W1" (mkPosition 2 1) h_skirmish =
       (Ok (newBoard, updatedPawn), h') ∧
     view h' newBoard = Some v' ∧
     S (size (v_pawns v')) = size (v_pawns v_skirmish)) ∧
  view h_stray 10%nat = Some v_stray ∧
  mkPosition 2 1 ∈ allowed_moves v_stray pawn_W1 ∧
  cell v_stray (mkPosition 2 1) = VStr "toString" ∧
  (∃ newBoard updatedPawn h' v',
     movePawn 10%nat "W1" (mkPosition 2 1) h_stray =
       (Ok (newBoard, updatedPawn), h') ∧
     view h' newBoard = Some v' ∧
     size (v_pawns v') = size (v_pawns v_stray)).
Proof.
  assert (view h_skirmish 10%nat = Some v_skirmish) as Hv
    by (vm_compute; reflexivity).
  assert (rows_present v_skirmish) as Hrows by by_decide.
  assert (v_pawns v_skirmish !! "W1" = Some pawn_W1) as Hk
    by (vm_compute; reflexivity).
  assert (cell v_skirmish (position pawn_W1) = VStr "W1") as Hsrc
    by (vm_compute; reflexivity).
  assert (mkPosition 2 1 ∈ allowed_moves v_skirmish pawn_W1) as Hlegal
    by by_decide.
  assert (view h_stray 10%nat = Some v_stray) as Hv2
    by (vm_compute; reflexivity).
  assert (rows_present v_stray) as Hrows2 by by_decide.
  assert (v_pawns v_stray !! "W1" = Some pawn_W1) as Hk2
    by (vm_compute; reflexivity).
  assert (cell v_stray (position pawn_W1) = VStr "W1") as Hsrc2
    by (vm_compute; reflexivity).
  assert (mkPosition 2 1 ∈ allowed_moves v_stray pawn_W1) as Hlegal2
    by by_decide.
  assert (cell v_stray (mkPosition 2 1) = VStr "toString") as Hcell2
    by (vm_compute; reflexivity).
  split; [exact Hv|]. split; [exact Hrows|]. split; [exact Hk|].
  split; [exact Hsrc|]. split; [exact Hlegal|].
  split; [vm_compute; reflexivity|].
  split; [|split; [exact Hv2|split; [exact Hlegal2|split; [exact Hcell2|]]]].
  - destruct (X15_movePawn_changes h_skirmish 10%nat v_skirmish "W1" pawn_W1
                (mkPosition 2 1) Hv Hrows Hk eq_refl Hsrc Hlegal)
      as (nb & up & h' & v' & Hrun & Hv' & _ & _ & _ & _ & Hcap & _).
    exists nb, up, h', v'. split; [exact Hrun|]. split; [exact Hv'|].
    apply (Hcap "B2"); vm_compute; eauto.
  - destruct (X15_movePawn_changes h_stray 10%nat v_stray "W1" pawn_W1
                (mkPosition 2 1) Hv2 Hrows2 Hk2 eq_refl Hsrc2 Hlegal2)
      as (nb & up & h' & v' & Hrun & Hv' & _ & _ & _ & _ & _ & Hstray & _).
    exists nb, up, h', v'. split; [exact Hrun|]. split; [exact Hv'|].
    apply (Hstray "toString"); vm_compute; reflexivity.
Defined.

Lemma allowed_moves_has_moved v p :
  hasMoved p = true →
  allowed_moves v p `sublist_of`
    [forward_one p; diagonal_left p; diagonal_right p].
Proof.
  intros Hm. unfold allowed_moves. rewrite Hm. simpl.
  destruct (forward_ok v (forward_one p));
    destruct (capture_ok v p (diagonal_left p));
    destruct (capture_ok v p (diagonal_right p)); simpl;
    repeat first [apply sublist_nil | apply sublist_skip | apply sublist_cons].
Qed.

(** X16.  The record [movePawn] returns can be handed to
    [getPawnAllowedMoves] together with the returned board: the call
    returns, and since the record has [hasMoved] set, the list holds at
    most three positions, all of them on the row next to the target row
    in the pawn's direction; the two-step move is never offered
    again. *)
Theorem X16_moved_pawn_moves_on h board v pawnId p target :
  view h board = Some v → rows_present v →
  v_pawns v !! pawnId = Some p → cell v (position p) = VStr pawnId →
  target ∈ allowed_moves v p →
  ∃ newBoard updatedPawn h' moves,
    movePawn board pawnId target h = (Ok (newBoard, updatedPawn), h') ∧
    getPawnAllowedMoves updatedPawn newBoard h' = (Ok moves, h') ∧
    (length moves ≤ 3)%nat ∧
    (∀ pos, pos ∈ moves → row pos = row target + direction p) ∧
    (mkPosition (row target + 2 * direction p) (col target) ∉ moves).
Proof.
  intros Hv Hrows Hk Hsrc Hlegal.
  apply view_rep in Hv as (b & reg & rows & R).
  destruct (movePawn_registry R Hrows pawnId p target (v_get_own _ _ _ Hk)
              Hlegal)
    as (nb & up & h' & b' & rows' & Hrun & _ & R' & Hup & _).
  { apply cell_row_present. by rewrite Hsrc. }
  pose proof (move_view_rows_present v p target Hrows) as Hrows'.
  exists nb, up, h', (allowed_moves (move_view v p target) (moved p target)).
  split; [done|].
  split; [exact (getPawnAllowedMoves_rep R' Hrows' up _ Hup)|].
  pose proof (allowed_moves_has_moved (move_view v p target) (moved p target)
                eq_refl) as Hsub.
  split; [exact (sublist_length _ _ Hsub)|].
  split.
  - intros pos Hpos.
    pose proof (elem_of_sublist _ _ _ Hpos Hsub) as Hin.
    rewrite !elem_of_cons, elem_of_nil in Hin.
    destruct Hin as [->|[->|[->|[]]]]; done.
  - intros Hin.
    change (mkPosition (row target + 2 * direction p) (col target))
      with (forward_two (moved p target)) in Hin.
    apply forward_two_allowed in Hin as [Hm _]. done.
Qed.

Lemma X16_witness :
  view h_start b_start = Some v_start ∧ rows_present v_start ∧
  v_pawns v_start !! "W2" =
    Some {| id := "W2"; color := "white"; position := mkPosition 1 0;
            hasMoved := false |} ∧
  cell v_start (mkPosition 1 0) = VStr "W2" ∧
  mkPosition 2 0 ∈ allowed_moves v_start
    {| id := "W2"; color := "white"; position := mkPosition 1 0;
       hasMoved := false |} ∧
  ∃ newBoard updatedPawn h' moves,
    movePawn b_start "W2" (mkPosition 2 0) h_start =
      (Ok (newBoard, updatedPawn), h') ∧
    getPawnAllowedMoves updatedPawn newBoard h' = (Ok moves, h') ∧
    (mkPosition 4 0 ∉ moves).
Proof.
  assert (view h_start b_start = Some v_start) as Hv by (vm_compute; reflexivity).
  assert (rows_present v_start) as Hrows by by_decide.
  assert (v_pawns v_start !! "W2" =
    Some {| id := "W2"; color := "white"; position := mkPosition 1 0;
            hasMoved := false |}) as Hk by (vm_compute; reflexivity).
  assert (cell v_start (mkPosition 1 0) = VStr "W2") as Hsrc
    by (vm_compute; reflexivity).
  assert (mkPosition 2 0 ∈ allowed_moves v_start
    {| id := "W2"; color := "white"; position := mkPosition 1 0;
       hasMoved := false |}) as Hlegal by by_decide.
  split; [exact Hv|]. split; [exact Hrows|]. split; [exact Hk|].
  split; [exact Hsrc|]. split; [exact Hlegal|].
  destruct (X16_moved_pawn_moves_on h_start b_start v_start "W2" _ _
              Hv Hrows Hk Hsrc Hlegal)
    as (nb & up & h' & moves & Hrun & Hmoves & _ & _ & Hno).
  exists nb, up, h', moves. split; [exact Hrun|]. split; [exact Hmoves|].
  exact Hno.
Defined.

(** ** Adding a pawn and taking it off again *)

Lemma arr_set_undo cells c x :
  read_slot cells c = VNull → arr_set (arr_set cells c x) c VNull = cells.
Proof.
  unfold read_slot, arr_get, arr_set. intros Hnull.
  destruct (c <? 0) eqn:E; [done|].
  destruct (cells !! Z.to_nat c) as [y|] eqn:Hc; [|done]. simpl in Hnull.
  subst y. pose proof (lookup_lt_Some _ _ _ Hc) as Hlt.
  apply Nat.ltb_lt in Hlt as Hlt'. rewrite Hlt'.
  rewrite length_insert, Hlt', list_insert_insert_eq.
  by apply list_insert_id.
Qed.

Lemma remove_place_view v p :
  id p ≠ "__proto__" →
  v_pawns v !! id p = None → cell v (position p) = VNull →
  remove_view (place_view v p) (id p) p = v.
Proof.
  intros Hne Hfresh Hnull. unfold place_view. rewrite register_other by done.
  destruct v as [w ht ps pr g]. simpl in *.
  unfold remove_view, set_cell, set_pawns, cell in *. simpl in *.
  destruct (arr_get g (row (position p))) as [cells|] eqn:Hrow; [|done].
  unfold arr_get in *.
  destruct (row (position p) <? 0) eqn:E; [done|].
  pose proof (lookup_lt_Some _ _ _ Hrow) as Hlt.
  rewrite list_lookup_insert_eq by done.
  rewrite list_insert_insert_eq, (arr_set_undo _ _ _ Hnull).
  rewrite list_insert_id by done.
  by rewrite delete_insert_id.
Qed.

(** X17.  On a well-formed board, [addPawn] on a free cell followed by
    [removePawn] of the id it generated gives back the board as it
    was: same dimensions, same registry, same cells.  (The id must not
    have been in use before; the pawn record stays in the store but the
    board no longer refers to it.)  The id is the one the program
    builds: [up] stands for the upper-case form of the first character
    of the colour when that character is not an ASCII one. *)
Theorem X17_addPawn_then_removePawn h board v now rnd up c0 rest r c :
  view h board = Some v →
  in_bounds v (mkPosition r c) = true → cell v (mkPosition r c) = VNull →
  v_pawns v !! new_id up c0 now rnd = None →
  ∃ pawn h1 v1 h2,
    addPawn now rnd up board (String c0 rest) r c h = (Ok pawn, h1) ∧
    view h1 board = Some v1 ∧
    v_pawns v1 !! new_id up c0 now rnd =
      Some {| id := new_id up c0 now rnd; color := String c0 rest;
              position := mkPosition r c; hasMoved := false |} ∧
    removePawn board (new_id up c0 now rnd) h1 = (Ok tt, h2) ∧
    view h2 board = Some v ∧
    length h2 = S (length h) ∧
    pawn_at h2 pawn =
      Some {| id := new_id up c0 now rnd; color := String c0 rest;
              position := mkPosition r c; hasMoved := false |}.
Proof.
  intros Hv Hin Hnull Hfresh. apply view_rep in Hv as (b & reg & rows & R).
  destruct (addPawn_ok R now rnd up c0 rest r c Hin Hnull)
    as (h1 & Hadd & Hlen1 & Hp1 & R1 & _).
  set (p := {| id := new_id up c0 now rnd; color := String c0 rest;
               position := mkPosition r c; hasMoved := false |}) in *.
  assert (id p ≠ "__proto__") as Hne by apply new_id_not_proto.
  assert (v_pawns (place_view v p) !! new_id up c0 now rnd = Some p) as Hk.
  { rewrite place_view_pawns by done. apply lookup_insert_eq. }
  destruct (removePawn_present R1 (new_id up c0 now rnd) p (v_get_own _ _ _ Hk))
    as (h2 & Hrem & Hlen2 & R2).
  { apply cell_row_present.
    rewrite (place_view_cell_eq v p Hnull). done. }
  exists (length h), h1, (place_view v p), h2.
  split; [done|]. split; [apply view_rep; eauto|]. split; [done|].
  split; [done|]. split.
  { apply view_rep. eexists b, _, rows.
    change (new_id up c0 now rnd) with (id p) in R2.
    rewrite (remove_place_view v p Hne Hfresh Hnull) in R2. exact R2. }
  split; [lia|].
  destruct (removePawn_frame R1 _ _ _ Hrem) as [Hch _].
  apply pawn_at_Some in Hp1. apply pawn_at_Some.
  eapply changed_within_lookup; [exact Hch|exact Hp1|].
  intros Hfoot.
  destruct (rep_footprint_typed _ _ _ _ _ _ _ R1 Hfoot) as [[m E]|[cs E]];
    rewrite E in Hp1; done.
Qed.

Lemma X17_witness :
  view h_start b_start = Some v_start ∧
  in_bounds v_start (mkPosition 3 3) = true ∧
  cell v_start (mkPosition 3 3) = VNull ∧
  v_pawns v_start !! "B_1700000000000_3f9a" = None ∧
  ∃ pawn h1 h2,
    addPawn 1700000000000 "3f9a" EmptyString b_start "black" 3 3 h_start =
      (Ok pawn, h1) ∧
    removePawn b_start "B_1700000000000_3f9a" h1 = (Ok tt, h2) ∧
    view h2 b_start = Some v_start.
Proof.
  assert (view h_start b_start = Some v_start) as Hv by (vm_compute; reflexivity).
  assert (in_bounds v_start (mkPosition 3 3) = true) as Hin
    by (vm_compute; reflexivity).
  assert (cell v_start (mkPosition 3 3) = VNull) as Hnull
    by (vm_compute; reflexivity).
  assert (v_pawns v_start !! new_id EmptyString "b" 1700000000000 "3f9a" = None)
    as Hfresh by (vm_compute; reflexivity).
  split; [exact Hv|]. split; [exact Hin|]. split; [exact Hnull|].
  split; [exact Hfresh|].
  destruct (X17_addPawn_then_removePawn h_start b_start v_start 1700000000000
              "3f9a" EmptyString "b" "lack" 3 3 Hv Hin Hnull Hfresh)
    as (pawn & h1 & v1 & h2 & Hadd & _ & _ & Hrem & Hv2 & _).
  exists pawn, h1, h2. split; [exact Hadd|]. split; [exact Hrem|exact Hv2].
Defined.

(** ** Every registered pawn stands on its cell, always *)

(** X18.  Call a board standing when every registry entry is keyed by
    its pawn's id and finds that id in the cell of the pawn's position.
    On a well-formed standing board with a row array for every row
    below the height, whose registry has [Object.prototype] as its
    prototype, whatever [placePawn], [addPawn] and [removePawn] do, and
    whether they succeed or throw, the board is standing afterwards;
    and every board [movePawn] returns is standing, while the input
    board reads as before.  The prototype of the registry is
    [Object.prototype] afterwards as well, unless [placePawn] was given
    a record with the id [__proto__].  No other assumption on ids is
    needed; the board [createEmptyBoard] returns is standing, so every
    board built from it with these four functions and without the id
    [__proto__] is standing. *)
Theorem X18_standing_preserved h board v :
  view h board = Some v → rows_present v → standing v → v_proto v = None →
  (∀ pawn res h', placePawn board pawn h = (res, h') →
     ∃ v', view h' board = Some v' ∧ rows_present v' ∧ standing v' ∧
           ((∀ p, pawn_at h pawn = Some p → id p ≠ "__proto__") →
            v_proto v' = None)) ∧
  (∀ now rnd up color r c res h',
     addPawn now rnd up board color r c h = (res, h') →
     ∃ v', view h' board = Some v' ∧ rows_present v' ∧ standing v' ∧
           v_proto v' = None) ∧
  (∀ pawnId res h', removePawn board pawnId h = (res, h') →
     ∃ v', view h' board = Some v' ∧ rows_present v' ∧ standing v' ∧
           v_proto v' = None) ∧
  (∀ pawnId target newBoard updatedPawn h',
     movePawn board pawnId target h = (Ok (newBoard, updatedPawn), h') →
     ∃ v', view h' newBoard = Some v' ∧ rows_present v' ∧ standing v' ∧
           v_proto v' = None ∧ view h' board = Some v).
Proof.
  intros Hv Hrows Hst Hproto. pose proof Hv as (b & reg & rows & R)%view_rep.
  pose proof (view_no_own_proto _ _ _ Hv) as Hown.
  split; [|split; [|split]].
  - intros pawn res h' E.
    destruct (pawn_at h pawn) as [p|] eqn:Hp.
    + destruct (placePawn_cases R pawn p Hp) as [E'|[E'|[E'|[Hin Hnull]]]];
        try (rewrite E' in E; injection E as <- <-; by exists v).
      destruct (placePawn_ok R pawn p Hp Hin Hnull) as (h1 & E' & _ & R' & _).
      rewrite E' in E. injection E as <- <-.
      exists (place_view v p). split; [apply view_rep; eauto|].
      split; [by apply place_view_rows_present|].
      split; [by apply place_view_standing|].
      intros Hne. rewrite place_view_proto; [done|by apply Hne].
    + rewrite (placePawn_not_a_pawn board pawn h Hp) in E.
      injection E as <- <-. by exists v.
  - intros now rnd up color r c res h' E.
    destruct (addPawn_cases R now rnd up color r c)
      as [E'|[E'|[E'|(Hin & Hnull & Hcol)]]];
      try (rewrite E' in E; injection E as <- <-; by exists v).
    destruct color as [|c0 rest]; [done|].
    destruct (addPawn_ok R now rnd up c0 rest r c Hin Hnull)
      as (h1 & E' & _ & _ & R' & _).
    rewrite E' in E. injection E as <- <-.
    eexists. split; [apply view_rep; eauto|].
    split; [by apply place_view_rows_present|].
    split; [by apply place_view_standing|].
    rewrite place_view_proto; [done|apply new_id_not_proto].
  - intros pawnId res h' E.
    destruct (removePawn_cases R pawnId) as [E'|[E'|(p & Hget & Hrow)]];
      try (rewrite E' in E; injection E as <- <-; by exists v).
    pose proof (v_get_entry_own _ _ _ Hproto Hget) as Hk.
    destruct (removePawn_present R pawnId p Hget Hrow) as (h1 & E' & _ & R').
    rewrite E' in E. injection E as <- <-.
    exists (remove_view v pawnId p). split; [apply view_rep; eauto|].
    split; [by apply (set_cell_rows_present v)|].
    split; [by apply remove_view_standing|done].
  - intros pawnId target nb up h' E.
    destruct (v_get v pawnId) as [|p|[|]] eqn:Hget.
    + rewrite (movePawn_not_found R pawnId target) in E by (by left). done.
    + pose proof (v_get_entry_own _ _ _ Hproto Hget) as Hk.
      destruct (decide (target ∈ allowed_moves v p)) as [Hlegal|Hout];
        [|by rewrite (movePawn_illegal R Hrows pawnId p target Hget Hout) in E].
      destruct (movePawn_ok R Hrows pawnId p target Hget Hlegal)
        as (nb' & up' & h1 & b' & reg' & rows' & E' & Htake & R' & _).
      { apply cell_row_present. by rewrite (proj2 (Hst _ _ Hk)). }
      rewrite E' in E. injection E as <- <- <-.
      exists (move_view v p target). split; [apply view_rep; eauto|].
      split; [by apply move_view_rows_present|].
      split; [by eapply move_view_standing|].
      split; [|by eapply view_extend].
      apply move_view_proto.
      rewrite (proj1 (Hst _ _ Hk)). intros ->. congruence.
    + by rewrite (movePawn_inherited R pawnId target Hget) in E.
    + rewrite (movePawn_not_found R pawnId target) in E by (by right). done.
Qed.

Lemma X18_witness :
  view h_same_id 10%nat = Some v_same_id ∧ rows_present v_same_id ∧
  standing v_same_id ∧ v_proto v_same_id = None ∧
  placePawn 10%nat 12%nat h_same_id = (Ok tt, h_same_id_placed) ∧
  ∃ v', view h_same_id_placed 10%nat = Some v' ∧ standing v'.
Proof.
  assert (view h_same_id 10%nat = Some v_same_id) as Hv
    by (vm_compute; reflexivity).
  assert (rows_present v_same_id) as Hrows by by_decide.
  assert (standing v_same_id) as Hst.
  { apply consistent_standing, consistentb_sound. vm_compute. reflexivity. }
  assert (v_proto v_same_id = None) as Hpr by (vm_compute; reflexivity).
  assert (placePawn 10%nat 12%nat h_same_id = (Ok tt, h_same_id_placed)) as E
    by (vm_compute; reflexivity).
  split; [exact Hv|]. split; [exact Hrows|]. split; [exact Hst|].
  split; [exact Hpr|]. split; [exact E|].
  destruct (proj1 (X18_standing_preserved h_same_id 10%nat v_same_id
                     Hv Hrows Hst Hpr) 12%nat (Ok tt) h_same_id_placed E)
    as (v' & Hv' & _ & Hst' & _).
  exists v'. split; [exact Hv'|exact Hst'].
Defined.

(** ** The initial board *)

(** X19.  From any store, the board [createInitialBoard] returns is
    well formed with a row array for every row, satisfies the
    consistency invariant, and can be printed.  In the opening position
    [getPawnAllowedMoves] returns, for each pawn of rows 1 and 6,
    exactly its one-step and its two-step move, and for each pawn of
    rows 0 and 7 the empty list: no capture is possible. *)
Theorem X19_initial_board_ready h :
  ∃ board h' v,
    createInitialBoard h = (Ok board, h') ∧
    view h' board = Some v ∧ rows_present v ∧
    consistent v ∧ standing v ∧ printable v ∧
    ∀ k p, v_pawns v !! k = Some p →
      ∃ pawn,
        pawns_get board k h' = (Ok (Entry pawn), h') ∧
        pawn_at h' pawn = Some p ∧
        getPawnAllowedMoves pawn board h' =
          (Ok (if (row (position p) =? 1) || (row (position p) =? 6)
               then [forward_one p; forward_two p] else []), h').
Proof.
  destruct (createInitialBoard_rep h v_start initial_view_start)
    as (board & h' & b & reg & rows & Hrun & _ & R).
  assert (view h' board = Some v_start) as Hv by (apply view_rep; eauto).
  assert (rows_present v_start) as Hrows by by_decide.
  assert (consistent v_start) as Hcons
    by (apply consistentb_sound; vm_compute; reflexivity).
  exists board, h', v_start.
  split; [done|]. split; [done|]. split; [done|]. split; [done|].
  split; [by apply consistent_standing|].
  split; [by apply consistent_printable|].
  intros k p Hk.
  destruct (allowed_moves_computed h' board v_start k p Hv Hrows
              (v_get_own _ _ _ Hk))
    as (pawn & Hget & Hp & Hmoves).
  exists pawn. split; [done|]. split; [done|].
  rewrite Hmoves. f_equal. f_equal.
  assert (map_Forall (λ _ p,
            allowed_moves v_start p =
              if (row (position p) =? 1) || (row (position p) =? 6)
              then [forward_one p; forward_two p] else [])
            (v_pawns v_start)) as Hall by by_decide.
  exact (Hall k p Hk).
Qed.

(** ** The grid keeps its shape *)

Lemma shaped_rows_present v : shaped v → rows_present v.
Proof. intros [Hl _]. unfold rows_present. lia. Qed.

Lemma set_cell_shaped v pos x :
  shaped v → col pos < v_width v → shaped (set_cell v pos x).
Proof.
  intros [Hl Hrows] Hcol. unfold shaped, set_cell. simpl.
  destruct (arr_get (v_grid v) (row pos)) as [cells|] eqn:Hrow; [|done].
  rewrite length_insert. split; [done|].
  unfold arr_get in Hrow. destruct (row pos <? 0); [done|].
  apply Forall_insert; [done|].
  pose proof (Forall_lookup_1 _ _ _ _ Hrows Hrow) as Hlen. simpl in Hlen.
  unfold arr_set. destruct (col pos <? 0) eqn:E; [done|].
  replace (Z.to_nat (col pos) <? length cells)%nat with true
    by (symmetry; apply Nat.ltb_lt; lia).
  by rewrite length_insert.
Qed.

Lemma shaped_cell_col v pos :
  shaped v → cell v pos ≠ VUndefined → col pos < v_width v.
Proof.
  intros [_ Hrows] Hdef. unfold cell in Hdef.
  destruct (arr_get (v_grid v) (row pos)) as [cells|] eqn:Hrow; [|done].
  unfold arr_get in Hrow. destruct (row pos <? 0); [done|].
  pose proof (Forall_lookup_1 _ _ _ _ Hrows Hrow) as Hlen. simpl in Hlen.
  unfold read_slot, arr_get in Hdef.
  destruct (col pos <? 0) eqn:E; [done|].
  destruct (cells !! Z.to_nat (col pos)) eqn:Hc; [|done].
  apply lookup_lt_Some in Hc. lia.
Qed.

Lemma in_bounds_col v pos : in_bounds v pos = true → col pos < v_width v.
Proof. unfold in_bounds. lia. Qed.

Lemma place_view_shaped v p :
  shaped v → in_bounds v (position p) = true → shaped (place_view v p).
Proof.
  intros Hs Hin. unfold place_view.
  apply set_cell_shaped.
  - unfold shaped. by rewrite register_grid, register_width, register_height.
  - rewrite register_width. exact (in_bounds_col v _ Hin).
Qed.

Lemma remove_view_shaped v k p :
  shaped v → col (position p) < v_width v → shaped (remove_view v k p).
Proof.
  intros Hs Hcol. unfold remove_view.
  by apply (set_cell_shaped v (position p) VNull Hs).
Qed.

Lemma move_view_shaped v p target :
  shaped v → col (position p) < v_width v →
  in_bounds v target = true → shaped (move_view v p target).
Proof.
  intros Hs Hcol Hin. unfold move_view.
  apply set_cell_shaped.
  - unfold shaped. rewrite register_grid, register_width, register_height.
    by apply (set_cell_shaped (set_proto v None) (position p) VNull Hs).
  - rewrite register_width. exact (in_bounds_col v _ Hin).
Qed.

(** The record [pawns[k]] answers on a well-formed standing board has
    its position in a cell of the grid. *)
Lemma entry_on_grid h board v k p :
  view h board = Some v → shaped v → standing v → v_get v k = Entry p →
  is_Some (arr_get (v_grid v) (row (position p))) ∧
  col (position p) < v_width v.
Proof.
  intros Hv Hs Hst Hget.
  destruct (v_get_entry v k p Hget) as [Hk|(_ & -> & Hq)].
  - assert (cell v (position p) ≠ VUndefined) as Hdef
      by (by rewrite (proj2 (Hst _ _ Hk))).
    split; [by apply cell_row_present|by apply shaped_cell_col].
  - pose proof (view_proto_in_bounds _ _ _ _ Hv Hq) as Hin.
    split; [|exact (in_bounds_col v _ Hin)].
    apply in_bounds_row_present; [by apply shaped_rows_present|done].
Qed.

(** X20.  Call a board shaped when its grid has exactly [height] rows
    of exactly [width] cells.  The board [createEmptyBoard] returns is
    shaped (for dimensions that are not negative), and on a well-formed
    board that is shaped and standing (every registry entry is keyed by
    its pawn's id and finds that id in the cell of the pawn's
    position), [placePawn], [addPawn] and
    [removePawn] leave the board shaped whatever their outcome, and
    every board [movePawn] returns is shaped: no write ever lands
    outside a row, so no row array grows and no cell is left
    [undefined]. *)
Theorem X20_shape_preserved h board v :
  view h board = Some v → shaped v → standing v →
  (∀ pawn res h', placePawn board pawn h = (res, h') →
     ∃ v', view h' board = Some v' ∧ shaped v') ∧
  (∀ now rnd up color r c res h',
     addPawn now rnd up board color r c h = (res, h') →
     ∃ v', view h' board = Some v' ∧ shaped v') ∧
  (∀ pawnId res h', removePawn board pawnId h = (res, h') →
     ∃ v', view h' board = Some v' ∧ shaped v') ∧
  (∀ pawnId target newBoard updatedPawn h',
     movePawn board pawnId target h = (Ok (newBoard, updatedPawn), h') →
     ∃ v', view h' newBoard = Some v' ∧ shaped v') ∧
  (∀ width height h0, 0 ≤ width < 2 ^ 32 → 0 ≤ height →
     ∃ board0 h1 v0, createEmptyBoard width height h0 = (Ok board0, h1) ∧
       view h1 board0 = Some v0 ∧ shaped v0 ∧ standing v0).
Proof.
  intros Hv Hs Hst. pose proof Hv as (b & reg & rows & R)%view_rep.
  pose proof (shaped_rows_present v Hs) as Hrows.
  split; [|split; [|split; [|split]]].
  - intros pawn res h' E.
    destruct (pawn_at h pawn) as [p|] eqn:Hp.
    + destruct (placePawn_cases R pawn p Hp) as [E'|[E'|[E'|[Hin Hnull]]]];
        try (rewrite E' in E; injection E as <- <-; by exists v).
      destruct (placePawn_ok R pawn p Hp Hin Hnull) as (h1 & E' & _ & R' & _).
      rewrite E' in E. injection E as <- <-.
      exists (place_view v p). split; [apply view_rep; eauto|].
      by apply place_view_shaped.
    + rewrite (placePawn_not_a_pawn board pawn h Hp) in E.
      injection E as <- <-. by exists v.
  - intros now rnd up color r c res h' E.
    destruct (addPawn_cases R now rnd up color r c)
      as [E'|[E'|[E'|(Hin & Hnull & Hcol)]]];
      try (rewrite E' in E; injection E as <- <-; by exists v).
    destruct color as [|c0 rest]; [done|].
    destruct (addPawn_ok R now rnd up c0 rest r c Hin Hnull)
      as (h1 & E' & _ & _ & R' & _).
    rewrite E' in E. injection E as <- <-.
    eexists. split; [apply view_rep; eauto|].
    by apply place_view_shaped.
  - intros pawnId res h' E.
    destruct (removePawn_cases R pawnId) as [E'|[E'|(p & Hget & Hrow)]];
      try (rewrite E' in E; injection E as <- <-; by exists v).
    destruct (entry_on_grid _ _ _ _ _ Hv Hs Hst Hget) as [_ Hcol].
    destruct (removePawn_present R pawnId p Hget Hrow) as (h1 & E' & _ & R').
    rewrite E' in E. injection E as <- <-.
    exists (remove_view v pawnId p). split; [apply view_rep; eauto|].
    by apply remove_view_shaped.
  - intros pawnId target nb up h' E.
    destruct (v_get v pawnId) as [|p|[|]] eqn:Hget.
    + rewrite (movePawn_not_found R pawnId target) in E by (by left). done.
    + destruct (decide (target ∈ allowed_moves v p)) as [Hlegal|Hout];
        [|by rewrite (movePawn_illegal R Hrows pawnId p target Hget Hout) in E].
      destruct (entry_on_grid _ _ _ _ _ Hv Hs Hst Hget) as [Hrow Hcol].
      destruct (movePawn_ok R Hrows pawnId p target Hget Hlegal Hrow)
        as (nb' & up' & h1 & b' & reg' & rows' & E' & Htake & R' & _).
      rewrite E' in E. injection E as <- <- <-.
      exists (move_view v p target). split; [apply view_rep; eauto|].
      apply move_view_shaped; [done..|].
      by eapply allowed_moves_in_bounds.
    + by rewrite (movePawn_inherited R pawnId target Hget) in E.
    + rewrite (movePawn_not_found R pawnId target) in E by (by right). done.
  - intros width height h0 Hw Hh.
    destruct (createEmptyBoard_rep width height h0 Hw)
      as (board0 & h1 & b0 & reg0 & rows0 & Hrun & _ & R0 & _).
    exists board0, h1, (empty_view width height).
    split; [done|]. split; [apply view_rep; eauto|].
    split; [|apply empty_view_standing].
    split; simpl; [by rewrite length_replicate|].
    apply Forall_replicate. by rewrite length_replicate.
Qed.

Lemma X20_witness :
  view h_start b_start = Some v_start ∧ shaped v_start ∧ standing v_start ∧
  ∃ newBoard updatedPawn h' v',
    movePawn b_start "W2" (mkPosition 3 0) h_start =
      (Ok (newBoard, updatedPawn), h') ∧
    view h' newBoard = Some v' ∧ shaped v'.
Proof.
  assert (view h_start b_start = Some v_start) as Hv by (vm_compute; reflexivity).
  assert (shaped v_start) as Hs by (unfold shaped; by_decide).
  assert (standing v_start) as Hst.
  { apply consistent_standing, consistentb_sound. vm_compute. reflexivity. }
  split; [exact Hv|]. split; [exact Hs|]. split; [exact Hst|].
  destruct (movePawn b_start "W2" (mkPosition 3 0) h_start)
    as [[[nb up]|e] h'] eqn:E; [|vm_compute in E; discriminate E].
  destruct (proj1 (proj2 (proj2 (proj2
              (X20_shape_preserved h_start b_start v_start Hv Hs Hst))))
              "W2" (mkPosition 3 0) nb up h' E) as (v' & Hv' & Hs').
  exists nb, up, h', v'. split; [reflexivity|]. split; [exact Hv'|exact Hs'].
Defined.

(** ** Ids that name inherited properties *)

(** X21.  On a well-formed board with a row array for every row below
    the height, what [movePawn(board, pawnId, target)] does is decided
    by what [board.pawns[pawnId]] answers.  It throws "Pawn not found"
    exactly when the answer is falsy; when the answer is something
    truthy that is no pawn record (an inherited function, say) it ends
    with a [TypeError]; when the answer is a pawn record, which it is
    for every registered id, [getPawnAllowedMoves] returns for that
    record and [movePawn] throws "Illegal move" exactly when [target]
    is not among the returned positions.  Whenever "Pawn not found" or
    "Illegal move" is thrown the store is what it was before the
    call. *)
Theorem X21_movePawn_outcomes h board v pawnId target :
  view h board = Some v → rows_present v →
  ((v_get v pawnId = Absent ∨ v_get v pawnId = Inherited false) ↔
     ∃ k h', movePawn board pawnId target h = (Throw (PawnNotFound k), h')) ∧
  (v_get v pawnId = Inherited true →
     movePawn board pawnId target h = (Throw TypeError, h)) ∧
  (∀ p, v_pawns v !! pawnId = Some p → v_get v pawnId = Entry p) ∧
  (∀ p, v_get v pawnId = Entry p →
     ∃ pawn moves,
       pawns_get board pawnId h = (Ok (Entry pawn), h) ∧
       getPawnAllowedMoves pawn board h = (Ok moves, h) ∧
       (target ∉ moves ↔
          ∃ k r c h', movePawn board pawnId target h =
                        (Throw (IllegalMove k r c), h'))) ∧
  (∀ e h', movePawn board pawnId target h = (Throw e, h') →
     (∃ k, e = PawnNotFound k) ∨ (∃ k r c, e = IllegalMove k r c) →
     h' = h).
Proof.
  intros Hv Hrows. pose proof Hv as (b & reg & rows & R)%view_rep.
  assert (∀ p, v_get v pawnId = Entry p → target ∈ allowed_moves v p →
            ∀ e h', movePawn board pawnId target h = (Throw e, h') →
                    e = TypeError) as Hlegal.
  { intros p Hk Hin e h' Hrun. by eapply (movePawn_legal_throws R). }
  split; [|split; [|split; [|split]]].
  - split.
    + intros Hk. exists pawnId, h. by eapply movePawn_not_found.
    + intros (k & h' & Hrun).
      destruct (v_get v pawnId) as [|p|[|]] eqn:Hk; [by left| | |by right].
      * destruct (decide (target ∈ allowed_moves v p)) as [Hin|Hout].
        -- by specialize (Hlegal p eq_refl Hin _ _ Hrun).
        -- rewrite (movePawn_illegal R Hrows pawnId p target Hk Hout) in Hrun.
           done.
      * by rewrite (movePawn_inherited R pawnId target Hk) in Hrun.
  - apply (movePawn_inherited R).
  - apply v_get_own.
  - intros p Hk.
    destruct (allowed_moves_computed h board v pawnId p Hv Hrows Hk)
      as (pawn & Hget & _ & Hmoves).
    exists pawn, (allowed_moves v p).
    split; [done|]. split; [done|]. split.
    + intros Hout. exists pawnId, (row target), (col target), h.
      by eapply movePawn_illegal.
    + intros (k & r & c & h' & Hrun) Hin.
      by specialize (Hlegal p Hk Hin _ _ Hrun).
  - intros e h' Hrun He.
    destruct (v_get v pawnId) as [|p|[|]] eqn:Hk.
    + rewrite (movePawn_not_found R pawnId target) in Hrun by (by left).
      congruence.
    + destruct (decide (target ∈ allowed_moves v p)) as [Hin|Hout].
      * specialize (Hlegal p eq_refl Hin _ _ Hrun). subst e.
        by destruct He as [[k ?]|(k & r & c & ?)].
      * rewrite (movePawn_illegal R Hrows pawnId p target Hk Hout) in Hrun.
        congruence.
    + rewrite (movePawn_inherited R pawnId target Hk) in Hrun. congruence.
    + rewrite (movePawn_not_found R pawnId target) in Hrun by (by right).
      congruence.
Qed.

(** On the initial board: "W2" stands on (1,0) and may go to (2,0) and
    (3,0) but not to (4,0); "X9" is not registered and names nothing;
    "valueOf" is not registered and names an inherited function. *)
Lemma X21_witness :
  view h_start b_start = Some v_start ∧ rows_present v_start ∧
  v_get v_start "X9" = Absent ∧
  (∃ k h', movePawn b_start "X9" (mkPosition 2 0) h_start =
             (Throw (PawnNotFound k), h')) ∧
  v_get v_start "valueOf" = Inherited true ∧
  movePawn b_start "valueOf" (mkPosition 2 0) h_start =
    (Throw TypeError, h_start) ∧
  is_Some (v_pawns v_start !! "W2") ∧
  (∃ pawn moves,
     pawns_get b_start "W2" h_start = (Ok (Entry pawn), h_start) ∧
     getPawnAllowedMoves pawn b_start h_start = (Ok moves, h_start) ∧
     (mkPosition 4 0 ∉ moves ↔
        ∃ k r c h', movePawn b_start "W2" (mkPosition 4 0) h_start =
                      (Throw (IllegalMove k r c), h'))).
Proof.
  assert (view h_start b_start = Some v_start) as Hv
    by (vm_compute; reflexivity).
  assert (rows_present v_start) as Hr by (vm_compute; discriminate).
  assert (v_get v_start "X9" = Absent) as Hx by (vm_compute; reflexivity).
  assert (v_get v_start "valueOf" = Inherited true) as Hf
    by (vm_compute; reflexivity).
  split; [exact Hv|]. split; [exact Hr|]. split; [exact Hx|].
  split.
  { apply (proj1 (proj1 (X21_movePawn_outcomes h_start b_start v_start "X9"
                           (mkPosition 2 0) Hv Hr))). by left. }
  split; [exact Hf|].
  split.
  { exact (proj1 (proj2 (X21_movePawn_outcomes h_start b_start v_start
                           "valueOf" (mkPosition 2 0) Hv Hr)) Hf). }
  split; [vm_compute; eauto|].
  destruct (X21_movePawn_outcomes h_start b_start v_start "W2"
              (mkPosition 4 0) Hv Hr) as (_ & _ & Hown & Hillegal & _).
  destruct (v_pawns v_start !! "W2") as [p|] eqn:Hk.
  - exact (Hillegal p (Hown p eq_refl)).
  - vm_compute in Hk. discriminate Hk.
Defined.

(** X22.  On a well-formed board, what [removePawn(board, pawnId)] does
    is decided by what [board.pawns[pawnId]] answers.  When the answer
    is falsy the call returns and leaves the store exactly as it was;
    when it is something truthy that is no pawn record the call ends
    with a [TypeError] and the store is as it was.  With a registered
    id whose pawn's position is a cell of the grid it returns, creates
    no object, keeps the board object and its array of rows, deletes
    the id from the registry and leaves [null] in the pawn's cell;
    every other cell and the prototype of the registry are as before.
    With the id [__proto__], when a record has been made the prototype
    of the registry, the call finds that record, writes [null] into the
    cell of its position and deletes nothing: registry and prototype are
    as before. *)
Theorem X22_removePawn_outcomes h board v pawnId :
  view h board = Some v →
  (v_get v pawnId = Absent ∨ v_get v pawnId = Inherited false →
     removePawn board pawnId h = (Ok tt, h)) ∧
  (v_get v pawnId = Inherited true →
     removePawn board pawnId h = (Throw TypeError, h)) ∧
  (∀ p, v_pawns v !! pawnId = Some p → cell v (position p) ≠ VUndefined →
     ∃ h' v',
       removePawn board pawnId h = (Ok tt, h') ∧
       length h' = length h ∧
       board_at h' board = board_at h board ∧
       (∀ b, board_at h board = Some b →
             grid_at h' (grid b) = grid_at h (grid b)) ∧
       view h' board = Some v' ∧
       v_pawns v' = delete pawnId (v_pawns v) ∧
       v_proto v' = v_proto v ∧
       v_pawns v' !! pawnId = None ∧
       cell v' (position p) = VNull ∧
       (∀ pos, pos ≠ position p → cell v' pos = cell v pos)) ∧
  (∀ q, rows_present v → v_proto v = Some q →
     ∃ h' v',
       removePawn board "__proto__" h = (Ok tt, h') ∧
       view h' board = Some v' ∧
       v_pawns v' = v_pawns v ∧ v_proto v' = Some q ∧
       cell v' (position q) = VNull ∧
       (∀ pos, pos ≠ position q → cell v' pos = cell v pos)).
Proof.
  intros Hv. pose proof Hv as (b & reg & rows & R)%view_rep.
  split; [|split; [|split]].
  - apply (removePawn_absent R).
  - apply (removePawn_inherited R).
  - intros p Hk Hcell.
    destruct (removePawn_present R pawnId p (v_get_own _ _ _ Hk)
                (cell_row_present _ _ Hcell))
      as (h' & Hrun & Hlen & R').
    exists h', (remove_view v pawnId p).
    split; [done|]. split; [done|]. split.
    { unfold board_at.
      by rewrite (rep_board _ _ _ _ _ _ R), (rep_board _ _ _ _ _ _ R'). }
    split.
    { intros b0. unfold board_at, grid_at.
      rewrite (rep_board _ _ _ _ _ _ R). intros [= <-].
      by rewrite (rep_grid _ _ _ _ _ _ R), (rep_grid _ _ _ _ _ _ R'). }
    split; [apply view_rep; eauto|]. split; [done|]. split; [done|].
    split; [apply lookup_delete_eq|]. split.
    + apply (cell_set_cell_eq v);
        [by apply cell_row_present|by apply (cell_defined_col v)].
    + intros pos Hne. by apply (cell_set_cell_ne v).
  - intros q Hrows Hq.
    pose proof (view_no_own_proto _ _ _ Hv) as Hown.
    pose proof (view_proto_in_bounds _ _ _ _ Hv Hq) as Hin.
    assert (v_get v "__proto__" = Entry q) as Hget.
    { unfold v_get. by rewrite Hown, Hq. }
    destruct (in_bounds_row_present v (position q) Hrows Hin) as [cells Hc].
    destruct (removePawn_present R "__proto__" q Hget (mk_is_Some _ _ Hc))
      as (h' & Hrun & Hlen & R').
    exists h', (remove_view v "__proto__" q).
    split; [done|]. split; [apply view_rep; eauto|].
    split; [simpl; by apply delete_id|]. split; [done|]. split.
    + apply (cell_set_cell_eq v); [by eexists|].
      unfold in_bounds in Hin. lia.
    + intros pos Hne. by apply (cell_set_cell_ne v).
Qed.

(** On the initial board: "W2" is removed from (1,0); "X9" is not
    registered; "hasOwnProperty" is not registered and names an
    inherited function. *)
Lemma X22_witness :
  view h_start b_start = Some v_start ∧
  v_get v_start "X9" = Absent ∧
  removePawn b_start "X9" h_start = (Ok tt, h_start) ∧
  v_get v_start "hasOwnProperty" = Inherited true ∧
  removePawn b_start "hasOwnProperty" h_start = (Throw TypeError, h_start) ∧
  (∃ h' v',
     removePawn b_start "W2" h_start = (Ok tt, h') ∧
     length h' = length h_start ∧
     view h' b_start = Some v' ∧
     v_pawns v' !! "W2" = None ∧
     cell v' (mkPosition 1 0) = VNull).
Proof.
  set (p := {| id := "W2"; color := "white"; position := mkPosition 1 0;
               hasMoved := false |}).
  assert (view h_start b_start = Some v_start) as Hv
    by (vm_compute; reflexivity).
  assert (v_get v_start "X9" = Absent) as Hx by (vm_compute; reflexivity).
  assert (v_get v_start "hasOwnProperty" = Inherited true) as Hf
    by (vm_compute; reflexivity).
  assert (v_pawns v_start !! "W2" = Some p) as Hk by (vm_compute; reflexivity).
  assert (cell v_start (position p) ≠ VUndefined) as Hc
    by (vm_compute; discriminate).
  split; [exact Hv|]. split; [exact Hx|].
  split.
  { apply (proj1 (X22_removePawn_outcomes h_start b_start v_start "X9" Hv)).
    by left. }
  split; [exact Hf|].
  split.
  { exact (proj1 (proj2 (X22_removePawn_outcomes h_start b_start v_start
                           "hasOwnProperty" Hv)) Hf). }
  destruct (proj1 (proj2 (proj2 (X22_removePawn_outcomes h_start b_start
                                   v_start "W2" Hv))) p Hk Hc)
    as (h' & v' & H1 & H2 & _ & _ & H3 & _ & _ & H4 & H5 & _).
  exists h', v'. repeat split; assumption.
Defined.

(** X23.  On a well-formed board whose grid has a row array for every
    row index below the height, [getPawnAllowedMoves] returns, and every
    position it returns satisfies [0 <= row < height] and
    [0 <= col < width].  A returned position in another column than the
    pawn's (a diagonal destination) names a cell that holds a non-empty
    id under which [board.pawns] answers a pawn record of another
    colour or something truthy that is no pawn record; if the pawn
    registered under that id exists, it has another colour.  On a board
    every cell id of which is registered, every returned diagonal
    destination is therefore the cell of a registered pawn of another
    colour. *)
Theorem X23_moves_in_bounds_and_diagonals h board v pawn p :
  view h board = Some v → rows_present v → pawn_at h pawn = Some p →
  ∃ moves,
    getPawnAllowedMoves pawn board h = (Ok moves, h) ∧
    ∀ pos, pos ∈ moves →
      (0 ≤ row pos < v_height v ∧ 0 ≤ col pos < v_width v) ∧
      (col pos ≠ col (position p) →
         ∃ X, cell v pos = VStr X ∧ X ≠ EmptyString ∧
              match v_get v X with
              | Entry q => color q ≠ color p
              | Inherited t => t = true
              | Absent => False
              end ∧
              (∀ q, v_pawns v !! X = Some q → color q ≠ color p) ∧
              ((∀ pos' X', cell v pos' = VStr X' →
                           is_Some (v_pawns v !! X')) →
               ∃ q, v_pawns v !! X = Some q ∧ color q ≠ color p)).
Proof.
  intros Hv Hrows Hp. exists (allowed_moves v p).
  split; [by eapply getPawnAllowedMoves_view|].
  intros pos Hpos. split.
  - pose proof (allowed_moves_in_bounds _ _ _ Hpos) as Hin.
    unfold in_bounds in Hin. lia.
  - intros Hcol.
    destruct (allowed_moves_cases v p pos Hpos)
      as [[-> _]|[(-> & _)|[[_ E]|[_ E]]]]; [done|done|..].
    all: destruct (allowed_moves_target v p pos Hpos)
           as [Hnull|(X & HX & Htr & Hget & _)];
         [apply andb_true_iff in E as [_ E]; by rewrite Hnull in E|];
         exists X; split; [done|];
         split; [intros ->; by rewrite HX in Htr|];
         split; [done|]; split;
         [intros q Hq; by rewrite (v_get_own _ _ _ Hq) in Hget|];
         intros Hreg; destruct (Hreg _ _ HX) as [q Hq]; exists q;
         split; [done|]; by rewrite (v_get_own _ _ _ Hq) in Hget.
Qed.

Lemma X23_witness :
  view h_skirmish 10%nat = Some v_skirmish ∧ rows_present v_skirmish ∧
  pawn_at h_skirmish 11%nat = Some pawn_W1 ∧
  ∃ moves,
    getPawnAllowedMoves 11%nat 10%nat h_skirmish = (Ok moves, h_skirmish) ∧
    ∀ pos, pos ∈ moves →
      (0 ≤ row pos < v_height v_skirmish ∧ 0 ≤ col pos < v_width v_skirmish) ∧
      (col pos ≠ col (position pawn_W1) →
         ∃ X, cell v_skirmish pos = VStr X ∧
              ∀ q, v_pawns v_skirmish !! X = Some q → color q ≠ color pawn_W1).
Proof.
  assert (view h_skirmish 10%nat = Some v_skirmish) as Hv
    by (vm_compute; reflexivity).
  assert (rows_present v_skirmish) as Hr by (vm_compute; discriminate).
  assert (pawn_at h_skirmish 11%nat = Some pawn_W1) as Hp
    by (vm_compute; reflexivity).
  split; [exact Hv|]. split; [exact Hr|]. split; [exact Hp|].
  destruct (X23_moves_in_bounds_and_diagonals
              h_skirmish 10%nat v_skirmish 11%nat pawn_W1 Hv Hr Hp)
    as (moves & Hrun & Hall).
  exists moves. split; [exact Hrun|].
  intros pos Hpos. destruct (Hall pos Hpos) as [Hin Hdiag].
  split; [exact Hin|]. intros Hcol.
  destruct (Hdiag Hcol) as (X & HX & _ & _ & Hq & _).
  exists X. split; [exact HX|exact Hq].
Defined.

(** X24.  A record with the id [__proto__] haunts the board it was
    placed on.  On the board [haunted] such a record was placed on
    (3,3) and removed again, and the white pawn "X" now stands on
    (3,3); "X" is the only registered pawn and the board is
    consistent.  The record is still the prototype of the registry, so
    [removePawn(board, "__proto__")] finds it once more, writes [null]
    into its cell (3,3) and deletes nothing: afterwards "X" is still
    registered on (3,3) while that cell is empty. *)
Theorem X24_proto_record_haunts :
  haunted [] = (Ok 10%nat, h_haunted) ∧
  view h_haunted 10%nat = Some v_haunted ∧
  consistent v_haunted ∧
  map_to_list (v_pawns v_haunted) = [("X", pawn_X33)] ∧
  cell v_haunted (mkPosition 3 3) = VStr "X" ∧
  v_proto v_haunted = Some pawn_proto ∧
  pawns_get 10%nat "__proto__" h_haunted = (Ok (Entry 11%nat), h_haunted) ∧
  removePawn 10%nat "__proto__" h_haunted = (Ok tt, h_haunted_removed) ∧
  view h_haunted_removed 10%nat = Some v_haunted_removed ∧
  v_pawns v_haunted_removed !! "X" = Some pawn_X33 ∧
  cell v_haunted_removed (mkPosition 3 3) = VNull ∧
  ¬ standing v_haunted_removed.
Proof.
  split; [vm_compute; reflexivity|].
  split; [vm_compute; reflexivity|].
  split; [apply consistentb_sound; vm_compute; reflexivity|].
  split; [vm_compute; reflexivity|].
  split; [vm_compute; reflexivity|].
  split; [vm_compute; reflexivity|].
  split; [vm_compute; reflexivity|].
  split; [vm_compute; reflexivity|].
  split; [vm_compute; reflexivity|].
  split; [vm_compute; reflexivity|].
  split; [vm_compute; reflexivity|].
  intros Hst.
  assert (v_pawns v_haunted_removed !! "X" = Some pawn_X33) as HX
    by (vm_compute; reflexivity).
  destruct (Hst _ _ HX) as [_ Hcell]. vm_compute in Hcell. discriminate Hcell.
Qed.

(** X25.  From any store, the boards [createEmptyBoard] and
    [createInitialBoard] return have a registry whose prototype is
    [Object.prototype].  On every well-formed board of which this
    holds, [board.pawns[k]] for an id [k] that is not registered is
    [undefined] unless [k] is [__proto__] or one of the eleven names of
    the functions every object inherits; for these twelve names it is
    something truthy that is no pawn record. *)
Theorem X25_plain_registry_lookups h width height :
  (0 ≤ width < 2 ^ 32 →
     ∃ board h' v, createEmptyBoard width height h = (Ok board, h') ∧
       view h' board = Some v ∧ v_proto v = None) ∧
  (∃ board h' v, createInitialBoard h = (Ok board, h') ∧
     view h' board = Some v ∧ v_proto v = None) ∧
  (∀ board v k, view h board = Some v → v_proto v = None →
     v_pawns v !! k = None →
     pawns_get board k h =
       (Ok (if bool_decide (k ∈ "__proto__" :: object_prototype_keys)
            then Inherited true else Absent), h)).
Proof.
  split; [|split].
  - intros Hw.
    destruct (createEmptyBoard_rep width height h Hw)
      as (board & h' & b & reg & rows & Hrun & _ & R & _).
    exists board, h', (empty_view width height).
    split; [done|]. split; [apply view_rep; eauto|done].
  - destruct (createInitialBoard_rep h v_start initial_view_start)
      as (board & h' & b & reg & rows & Hrun & _ & R).
    exists board, h', v_start.
    split; [done|]. split; [apply view_rep; eauto|].
    vm_compute. reflexivity.
  - intros board v k (b & reg & rows & R)%view_rep Hproto Hk.
    assert (v_get v k =
            if bool_decide (k ∈ "__proto__" :: object_prototype_keys)
            then Inherited true else Absent) as Hget.
    { unfold v_get. rewrite Hk, Hproto. unfold from_Object_prototype.
      destruct (String.eqb k "__proto__") eqn:E.
      - apply String.eqb_eq in E as ->. by rewrite bool_decide_eq_true_2
          by (apply elem_of_cons; by left).
      - apply String.eqb_neq in E.
        destruct (bool_decide (k ∈ object_prototype_keys)) eqn:E2.
        + apply bool_decide_eq_true in E2.
          by rewrite bool_decide_eq_true_2 by (apply elem_of_cons; by right).
        + apply bool_decide_eq_false in E2.
          rewrite bool_decide_eq_false_2; [done|].
          by intros [?|?]%elem_of_cons. }
    destruct (bool_decide (k ∈ "__proto__" :: object_prototype_keys)).
    + by apply (pawns_get_inherited R).
    + by apply (pawns_get_absent R).
Qed.

Lemma X25_witness :
  (∃ board h' v, createEmptyBoard 8 8 [] = (Ok board, h') ∧
     view h' board = Some v ∧ v_proto v = None) ∧
  view h_start b_start = Some v_start ∧ v_proto v_start = None ∧
  v_pawns v_start !! "isPrototypeOf" = None ∧
  pawns_get b_start "isPrototypeOf" h_start = (Ok (Inherited true), h_start) ∧
  v_pawns v_start !! "W33" = None ∧
  pawns_get b_start "W33" h_start = (Ok Absent, h_start).
Proof.
  assert (view h_start b_start = Some v_start) as Hv
    by (vm_compute; reflexivity).
  assert (v_proto v_start = None) as Hpr by (vm_compute; reflexivity).
  assert (v_pawns v_start !! "isPrototypeOf" = None) as H1
    by (vm_compute; reflexivity).
  assert (v_pawns v_start !! "W33" = None) as H2 by (vm_compute; reflexivity).
  split.
  { apply (proj1 (X25_plain_registry_lookups [] 8 8)). lia. }
  split; [exact Hv|]. split; [exact Hpr|]. split; [exact H1|].
  split.
  { exact (proj2 (proj2 (X25_plain_registry_lookups h_start 8 8))
             b_start v_start "isPrototypeOf" Hv Hpr H1). }
  split; [exact H2|].
  exact (proj2 (proj2 (X25_plain_registry_lookups h_start 8 8))
           b_start v_start "W33" Hv Hpr H2).
Defined.
